(** * clean250: the main-process engine

    A shallow embedding of the non-interactive core of the Electron main
    process (public/electron.js): the classifier [analyzeFiles], the
    directory scanner [scanDirectory] with its [countFiles] pre-pass and
    the 'scan-directory' handler, the 'find-duplicates' handler with
    [calculateFileHash], and the backup store ([backupFile],
    [getBackupsList], [restoreBackup]) with the 'delete-files' handler.

    Conventions of the embedding.
    - JavaScript numbers that hold byte counts, counters and millisecond
      time stamps are integers of [Z]; the code keeps them far below 2^53,
      where double arithmetic on integers is exact.
    - Strings are [string] (the bytes of the UTF-8 encoding).
    - Node's [path] and [crypto] modules, [JSON] and the file system are
      outside the repository; they are interfaces (classes) of this file,
      with small instances used to run the model on examples. *)

From Stdlib Require Import ZArith String Ascii List Lia Bool Permutation.
From stdpp Require Import base list strings pretty sorting gmap.

Set Default Proof Using "Type".
Local Open Scope Z_scope.

(** ** JavaScript values and string helpers *)

Module JS.

(** [x || d] on a number that may be absent: [undefined] and [0] are falsy. *)
Definition or_default (x : option Z) (d : Z) : Z :=
  match x with
  | None => d
  | Some v => if v =? 0 then d else v
  end.

(** [x || d] on a number that is present. *)
Definition num_or (x d : Z) : Z := if x =? 0 then d else x.

(** [x !== false] on a boolean that may be absent. *)
Definition not_false (x : option bool) : bool :=
  match x with
  | Some false => false
  | _ => true
  end.

(** [!!x] on a boolean that may be absent. *)
Definition truthy (x : option bool) : bool :=
  match x with
  | Some true => true
  | _ => false
  end.

(** [s.startsWith(p)] *)
Definition startsWith (s p : string) : bool := String.prefix p s.

(** [s.includes(p)] *)
Definition includes (s p : string) : bool :=
  match String.index 0 p s with
  | Some _ => true
  | None => false
  end.

(** [s.endsWith(p)] *)
Definition endsWith (s p : string) : bool :=
  let n := String.length s in
  let k := String.length p in
  (k <=? n)%nat && String.eqb (String.substring (n - k) k s) p.

(** [s.toLowerCase()], on the letters A-Z. *)
Fixpoint toLowerCase (s : string) : string :=
  match s with
  | EmptyString => EmptyString
  | String c r =>
      let n := nat_of_ascii c in
      String (if ((65 <=? n) && (n <=? 90))%nat then ascii_of_nat (n + 32) else c)
             (toLowerCase r)
  end.

(** [l.includes(x)] on an array of strings. *)
Definition array_includes (l : list string) (x : string) : bool :=
  existsb (String.eqb x) l.

(** [Math.round((p / t) * 100)]: the quotient rounded half up, computed on
    the exact rational [100 p / t].  The double the code rounds can lie one
    unit in the last place off a half-way value (29 / 200 * 100 is just
    below 14.5, and 230 / 400 * 100 just below 57.5), so the two can differ
    by one there; both are monotone in [p], agree at [p = 0] and [p = t] and
    lie within one point of [100 p / t], which is all the properties below
    state of the rounding. *)
Definition round_percent (p t : Z) : Z := (200 * p + t) / (2 * t).

(** A JavaScript [Map] keeps its entries in insertion order; the handlers
    below only use the pattern "create the array under a new key, then push
    on the array under the key". *)
Section JsMap.
Context {K V : Type} `{EqDecision K}.

Fixpoint map_get (m : list (K * list V)) (k : K) : option (list V) :=
  match m with
  | [] => None
  | (k', vs) :: m' => if decide (k' = k) then Some vs else map_get m' k
  end.

Definition map_has (m : list (K * list V)) (k : K) : bool :=
  match map_get m k with Some _ => true | None => false end.

(** [if (!m.has(k)) m.set(k, []); m.get(k).push(v)] *)
Fixpoint map_push (m : list (K * list V)) (k : K) (v : V) : list (K * list V) :=
  match m with
  | [] => [(k, [v])]
  | (k', vs) :: m' =>
      if decide (k' = k) then (k', vs ++ [v]) :: m'
      else (k', vs) :: map_push m' k v
  end.

(** Pushing a list of key-value pairs, in order. *)
Definition map_push_all (m : list (K * list V)) (items : list (K * V))
    : list (K * list V) :=
  fold_left (fun m0 kv => map_push m0 kv.1 kv.2) items m.

(** The values pushed under a key, in order. *)
Definition pushed (items : list (K * V)) (k : K) : list V :=
  (filter (fun kv => kv.1 = k) items).*2.

End JsMap.

(** The sum of a list of numbers. *)
Definition sumZ (l : list Z) : Z := foldr Z.add 0 l.

(** [Array.prototype.sort] with comparator [(a, b) => key b - key a]: a
    stable sort into descending key order. *)
Section Sort.
Context {A : Type} (key : A -> Z).

Fixpoint insert_desc (x : A) (l : list A) : list A :=
  match l with
  | [] => [x]
  | y :: l' => if key y <=? key x then x :: y :: l' else y :: insert_desc x l'
  end.

Definition sort_desc (l : list A) : list A := foldr insert_desc [] l.

End Sort.

End JS.

(** ** Data shared by the scanner and the classifier *)

(** The object the scanner builds for a file (fileData). Time stamps are
    milliseconds since the epoch. *)
Record fileData := {
  f_path : string;
  f_name : string;
  f_size : Z;
  f_accessed : Z;
  f_modified : Z;
  f_created : Z;
  f_extension : string
}.

(** The scan configuration as the renderer sends it: every field may be
    absent. Sizes are in megabytes. *)
Record scanConfig := {
  sc_maxDepth : option Z;
  sc_ignoreDotFiles : option bool;
  sc_ignoreSizeAbove : option Z;
  sc_includeHiddenFiles : option bool;
  sc_scanSizeThreshold : option Z;
  sc_scanAgeThreshold : option Z
}.

(** The configuration with the defaults filled in (config). Sizes are in
    bytes. *)
Record config := {
  maxDepth : Z;
  ignoreDotFiles : bool;
  ignoreSizeAbove : Z;
  includeHiddenFiles : bool;
  scanSizeThreshold : Z;
  scanAgeThreshold : Z
}.

(** ** Classifier: analyzeFiles *)

Module Classifier.

Inductive category :=
| largeUnused
| temporary
| installer
| potentialDuplicate.

#[global] Instance category_eq_dec : EqDecision category.
Proof. solve_decision. Defined.

(** The object returned for a file: the file's own fields, the categories
    and the flag. (formattedSize, a display string, is left out.) *)
Record analyzed := {
  a_file : fileData;
  categories : list category;
  isUnneeded : bool
}.

Definition tempExtensions : list string :=
  [".tmp"; ".temp"; ".bak"; ".cache"; ".log"]%string.

Definition downloadExtensions : list string :=
  [".dmg"; ".exe"; ".pkg"; ".iso"; ".zip"; ".tar"; ".gz"; ".rar"]%string.

(** The regular expression /copy|копия|\(\d+\)|_\d+/i, alternative by
    alternative. The /i flag is applied to the letters of the two words. *)

Definition is_digit (c : ascii) : bool :=
  let n := nat_of_ascii c in ((48 <=? n) && (n <=? 57))%nat.

Definition lower_ascii (c : ascii) : ascii :=
  let n := nat_of_ascii c in
  if ((65 <=? n) && (n <=? 90))%nat then ascii_of_nat (n + 32) else c.

(** Lower-cases A-Z and the capital letters of the word in Cyrillic
    (two-byte sequences d0 9a, d0 9e, d0 9f, d0 98, d0 af). *)
Fixpoint fold_case (s : string) : string :=
  match s with
  | EmptyString => EmptyString
  | String c r =>
      match r with
      | String c2 r2 =>
          if (nat_of_ascii c =? 208)%nat then
            let n2 := nat_of_ascii c2 in
            if ((n2 =? 154) || (n2 =? 158) || (n2 =? 159) || (n2 =? 152))%nat
            then String c (String (ascii_of_nat (n2 + 32)) (fold_case r2))
            else if (n2 =? 175)%nat
            then String (ascii_of_nat 209) (String (ascii_of_nat 143) (fold_case r2))
            else String c (String c2 (fold_case r2))
          else String (lower_ascii c) (fold_case r)
      | EmptyString => String (lower_ascii c) EmptyString
      end
  end.

(** One or more digits, then a closing parenthesis. *)
Fixpoint digits_then_close (seen : bool) (s : string) : bool :=
  match s with
  | EmptyString => false
  | String c r =>
      if is_digit c then digits_then_close true r
      else seen && Ascii.eqb c ")"
  end.

Fixpoint has_paren_number (s : string) : bool :=
  match s with
  | EmptyString => false
  | String c r =>
      (Ascii.eqb c "(" && digits_then_close false r) || has_paren_number r
  end.

Fixpoint has_underscore_digit (s : string) : bool :=
  match s with
  | EmptyString => false
  | String c r =>
      (Ascii.eqb c "_" &&
       match r with String d _ => is_digit d | EmptyString => false end)
      || has_underscore_digit r
  end.

Definition matches_duplicate_pattern (name : string) : bool :=
  let folded := fold_case name in
  JS.includes folded "copy" || JS.includes folded "копия"
  || has_paren_number name || has_underscore_digit name.

Definition msPerDay : Z := 1000 * 60 * 60 * 24.

(** The body of the [files.map] callback; [now] is what [new Date()]
    returns when the callback runs. *)
Definition analyzeFile (now : Z) (cfg : config) (file : fileData) : analyzed :=
  let OLD_FILE_THRESHOLD_DAYS := JS.num_or (scanAgeThreshold cfg) 180 in
  let LARGE_FILE_THRESHOLD := JS.num_or (scanSizeThreshold cfg) (100 * 1024 * 1024) in
  let daysSinceAccessed := (now - f_accessed file) / msPerDay in
  let cats :=
    (if (LARGE_FILE_THRESHOLD <? f_size file)
        && (OLD_FILE_THRESHOLD_DAYS <? daysSinceAccessed)
     then [largeUnused] else [])
    ++ (if JS.array_includes tempExtensions (f_extension file)
        then [temporary] else [])
    ++ (if JS.array_includes downloadExtensions (f_extension file)
        then [installer] else [])
    ++ (if matches_duplicate_pattern (f_name file)
        then [potentialDuplicate] else []) in
  {| a_file := file;
     categories := cats;
     isUnneeded := (0 <? length cats)%nat |}.

(** [analyzeFiles(files, config)]; [clock i] is the reading of the clock in
    the callback of the file at index [i]. *)
Fixpoint analyzeFiles_from (clock : nat -> Z) (i : nat) (files : list fileData)
    (cfg : config) : list analyzed :=
  match files with
  | [] => []
  | file :: rest =>
      analyzeFile (clock i) cfg file :: analyzeFiles_from clock (S i) rest cfg
  end.

Definition analyzeFiles (clock : nat -> Z) (files : list fileData)
    (cfg : config) : list analyzed :=
  analyzeFiles_from clock 0 files cfg.

End Classifier.

(** ** The environment: path module, file system, hashing *)

(** Node's [path] module. *)
Class PathLib := {
  path_join : string -> string -> string;
  path_dirname : string -> string;
  path_basename : string -> string;
  path_extname : string -> string
}.

(** What [stat] resolves to (fs.Stats). *)
Record stats := {
  st_isDirectory : bool;
  st_size : Z;
  st_atime : Z;
  st_mtime : Z;
  st_birthtime : Z
}.

(** An entry of [readdir(dir, { withFileTypes: true })] (fs.Dirent). *)
Record dirent := {
  d_name : string;
  d_isDirectory : bool
}.

(** The file system as the read-only operations see it during one scan or
    one duplicate search; [None] is a rejected promise. *)
Class FileSystem := {
  existsSync : string -> bool;
  readdir : string -> option (list dirent);
  stat : string -> option stats;
  readFile : string -> option (list Byte.byte)
}.

(** [crypto.createHash(algorithm).update(data).digest('hex')]; [None] when
    createHash throws (unknown algorithm). *)
Class Crypto := {
  digest_hex : string -> list Byte.byte -> option string
}.

(** ** Scanner: countFiles, scanDirectory and the 'scan-directory' handler *)

Module Scanner.

(** What the main process sends to the renderer during a scan. *)
Inductive message :=
| scan_progress (processed total percentage : Z)
| scan_batch (files : list Classifier.analyzed) (isDone : bool).

Record progressReporter := {
  totalFiles : Z;
  processedFiles : Z
}.

(** The local variables of scanDirectory, with the reporter object it
    mutates and the messages sent so far (oldest first). *)
Record scanState := {
  pendingDirectories : list string;
  fileStats : list fileData;
  batchCount : Z;
  currentDepth : Z;
  visitedDirs : gset string;
  reporter : option progressReporter;
  sent : list message
}.

Definition MAX_BATCH_SIZE : Z := 500.

(** The directories neither countFiles nor scanDirectory descends into. *)
Definition isSystemPath (entryPath : string) : bool :=
  JS.includes entryPath "node_modules"
  || JS.includes entryPath ".git"
  || JS.startsWith entryPath "/System"
  || JS.startsWith entryPath "/Library/System".

(** [levelsBelow root d dir]: the directory [dir] lies [d] levels below
    [root]: it is reached from [root] in [d] steps, each from a directory to
    one of the entries that readdir lists in it, an entry that stat reports
    to be a directory. *)
Inductive levelsBelow {P : PathLib} {F : FileSystem} (root : string)
    : nat -> string -> Prop :=
| below_root : levelsBelow root 0 root
| below_child (d : nat) (dir : string) (entries : list dirent)
    (entry : dirent) (st : stats) :
    levelsBelow root d dir ->
    readdir dir = Some entries ->
    entry ∈ entries ->
    stat (path_join dir (d_name entry)) = Some st ->
    st_isDirectory st = true ->
    levelsBelow root (S d) (path_join dir (d_name entry)).

Section WithEnvironment.
Context {P : PathLib} {F : FileSystem}.
(** Whether the window exists ([mainWindow] is not null), and the clock
    read by analyzeFiles. *)
Variable mainWindow : bool.
Variable clock : nat -> Z.

(** progressReporter.report() *)
Definition report (r : progressReporter) : list message :=
  if mainWindow then
    [scan_progress (processedFiles r) (totalFiles r)
       (if 0 <? totalFiles r
        then JS.round_percent (processedFiles r) (totalFiles r)
        else 0)]
  else [].

(** countFiles(directoryPath, maxDepth, currentDepth). [fuel] bounds the
    depth of the recursion; [countFiles] below supplies enough. *)
Fixpoint countFiles_rec (fuel : nat) (directoryPath : string)
    (maxDepth currentDepth : Z) : Z :=
  if maxDepth <? currentDepth then 10
  else
    match fuel with
    | O => 0
    | S fuel' =>
        match readdir directoryPath with
        | None => 0
        | Some entries =>
            fold_left
              (fun count entry =>
                 let entryPath := path_join directoryPath (d_name entry) in
                 if isSystemPath entryPath then count
                 else if d_isDirectory entry
                 then count + countFiles_rec fuel' entryPath maxDepth (currentDepth + 1)
                 else count + 1)
              entries 0
        end
    end.

Definition countFiles (directoryPath : string) (maxDepth : Z) : Z :=
  countFiles_rec (Z.to_nat (maxDepth + 1)) directoryPath maxDepth 0.

(** The part of the entry loop that runs once a file has been accepted:
    push, progress, batch. The batch is spliced off fileStats inside
    [if (mainWindow)], so without a window the array keeps growing. *)
Definition acceptFile (cfg : config) (fileData0 : fileData) (s : scanState)
    : scanState :=
  let fileStats1 := fileStats s ++ [fileData0] in
  let '(reporter1, sent1) :=
    match reporter s with
    | None => (None, sent s)
    | Some r =>
        let r' := {| totalFiles := totalFiles r;
                     processedFiles := processedFiles r + 1 |} in
        (Some r',
         if processedFiles r' mod 10 =? 0 then sent s ++ report r' else sent s)
    end in
  let batchCount1 := batchCount s + 1 in
  if (MAX_BATCH_SIZE <=? batchCount1)
     && negb (length (pendingDirectories s) =? 0)%nat
  then
    {| pendingDirectories := pendingDirectories s;
       fileStats := if mainWindow then [] else fileStats1;
       batchCount := 0;
       currentDepth := currentDepth s;
       visitedDirs := visitedDirs s;
       reporter := reporter1;
       sent := if mainWindow
               then sent1 ++ [scan_batch (Classifier.analyzeFiles clock fileStats1 cfg) false]
               else sent1 |}
  else
    {| pendingDirectories := pendingDirectories s;
       fileStats := fileStats1;
       batchCount := batchCount1;
       currentDepth := currentDepth s;
       visitedDirs := visitedDirs s;
       reporter := reporter1;
       sent := sent1 |}.

(** The body of [for (const entry of entries)]. *)
Definition scanEntry (cfg : config) (currentDir : string) (s : scanState)
    (entry : dirent) : scanState :=
  if ignoreDotFiles cfg && JS.startsWith (d_name entry) "."
     && negb (includeHiddenFiles cfg)
  then s
  else
    let entryPath := path_join currentDir (d_name entry) in
    match stat entryPath with
    | None => s
    | Some st =>
        if st_isDirectory st then
          if negb (isSystemPath entryPath)
          then {| pendingDirectories := pendingDirectories s ++ [entryPath];
                  fileStats := fileStats s;
                  batchCount := batchCount s;
                  currentDepth := currentDepth s;
                  visitedDirs := visitedDirs s;
                  reporter := reporter s;
                  sent := sent s |}
          else s
        else if (0 <? ignoreSizeAbove cfg) && (ignoreSizeAbove cfg <? st_size st)
        then s
        else
          acceptFile cfg
            {| f_path := entryPath;
               f_name := d_name entry;
               f_size := st_size st;
               f_accessed := st_atime st;
               f_modified := st_mtime st;
               f_created := st_birthtime st;
               f_extension := JS.toLowerCase (path_extname (d_name entry)) |}
            s
    end.

(** One iteration of the while loop that reaches [visitedDirs.add]:
    [currentDir] has been shifted off the queue already. *)
Definition scanOneDirectory (cfg : config) (currentDir : string)
    (s : scanState) : scanState :=
  let s1 :=
    {| pendingDirectories := pendingDirectories s;
       fileStats := fileStats s;
       batchCount := batchCount s;
       currentDepth := currentDepth s;
       visitedDirs := {[ currentDir ]} ∪ visitedDirs s;
       reporter := reporter s;
       sent := sent s |} in
  let s2 :=
    match readdir currentDir with
    | None => s1
    | Some entries => fold_left (scanEntry cfg currentDir) entries s1
    end in
  {| pendingDirectories := pendingDirectories s2;
     fileStats := fileStats s2;
     batchCount := batchCount s2;
     currentDepth := currentDepth s2 + 1;
     visitedDirs := visitedDirs s2;
     reporter := reporter s2;
     sent := sent s2 |}.

(** The iterations that end in [continue]: shift directories off the queue
    while they have been visited. They leave currentDepth as it is. *)
Fixpoint shiftUnvisited (visited : gset string) (queue : list string)
    : option (string * list string) :=
  match queue with
  | [] => None
  | dir :: rest =>
      if decide (dir ∈ visited) then shiftUnvisited visited rest
      else Some (dir, rest)
  end.

(** [while (pendingDirectories.length > 0 && currentDepth <= config.maxDepth)].
    Every iteration that does not [continue] increments currentDepth, so
    [fuel] counts those iterations. *)
Fixpoint scanLoop (fuel : nat) (cfg : config) (s : scanState) : scanState :=
  match fuel with
  | O => s
  | S fuel' =>
      if currentDepth s <=? maxDepth cfg then
        match shiftUnvisited (visitedDirs s) (pendingDirectories s) with
        | None =>
            {| pendingDirectories := [];
               fileStats := fileStats s;
               batchCount := batchCount s;
               currentDepth := currentDepth s;
               visitedDirs := visitedDirs s;
               reporter := reporter s;
               sent := sent s |}
        | Some (currentDir, rest) =>
            scanLoop fuel' cfg
              (scanOneDirectory cfg currentDir
                 {| pendingDirectories := rest;
                    fileStats := fileStats s;
                    batchCount := batchCount s;
                    currentDepth := currentDepth s;
                    visitedDirs := visitedDirs s;
                    reporter := reporter s;
                    sent := sent s |})
        end
      else s
  end.

Definition initialState (directoryPath : string)
    (progress : option progressReporter) : scanState :=
  {| pendingDirectories := [directoryPath];
     fileStats := [];
     batchCount := 0;
     currentDepth := 0;
     visitedDirs := ∅;
     reporter := progress;
     sent := [] |}.

(** scanDirectory(directoryPath, progressReporter, config): the final
    state, whose [fileStats] is the returned array. *)
Definition scanDirectory (directoryPath : string)
    (progress : option progressReporter) (cfg : config) : scanState :=
  scanLoop (Z.to_nat (maxDepth cfg + 1)) cfg
    (initialState directoryPath progress).

(** The defaults of the 'scan-directory' handler. *)
Definition makeConfig (sc : scanConfig) : config :=
  {| maxDepth := JS.or_default (sc_maxDepth sc) 10;
     ignoreDotFiles := JS.not_false (sc_ignoreDotFiles sc);
     ignoreSizeAbove := JS.or_default (sc_ignoreSizeAbove sc) 1024 * 1024 * 1024;
     includeHiddenFiles := JS.truthy (sc_includeHiddenFiles sc);
     scanSizeThreshold := JS.or_default (sc_scanSizeThreshold sc) 100 * 1024 * 1024;
     scanAgeThreshold := JS.or_default (sc_scanAgeThreshold sc) 180 |}.

(** What the handler resolves to, and the messages it sent (oldest first). *)
Record scanResponse := {
  r_success : bool;
  r_data : list Classifier.analyzed;
  r_sent : list message
}.

(** ipcMain.handle('scan-directory', ...) *)
Definition scanDirectoryHandler (directoryPath : string) (sc : scanConfig)
    : scanResponse :=
  let cfg := makeConfig sc in
  let total := countFiles directoryPath (maxDepth cfg) in
  let reporter0 := {| totalFiles := total; processedFiles := 0 |} in
  let sent0 := report reporter0 in
  let s := scanDirectory directoryPath (Some reporter0) cfg in
  let results := fileStats s in
  let sent1 :=
    sent0 ++ sent s
    ++ report {| totalFiles := total; processedFiles := total |} in
  let analyzedResults := Classifier.analyzeFiles clock results cfg in
  {| r_success := true;
     r_data := analyzedResults;
     r_sent :=
       if mainWindow && negb (length results =? 0)%nat
       then sent1 ++ [scan_batch analyzedResults true]
       else sent1 |}.

(** The number of files scanDirectory counted on the reporter. *)
Definition filesDiscovered (directoryPath : string) (total : Z) (cfg : config) : Z :=
  match reporter (scanDirectory directoryPath
                    (Some {| totalFiles := total; processedFiles := 0 |}) cfg) with
  | Some r => processedFiles r
  | None => 0
  end.

End WithEnvironment.

(** The percentages of the progress reports among the messages, in order. *)
Definition percentages (msgs : list message) : list Z :=
  omap (fun m =>
          match m with
          | scan_progress _ _ percentage => Some percentage
          | scan_batch _ _ => None
          end)
       msgs.

(** The processed counts of the progress reports among the messages. *)
Definition counts (msgs : list message) : list Z :=
  omap (fun m =>
          match m with
          | scan_progress processed _ _ => Some processed
          | scan_batch _ _ => None
          end)
       msgs.

(** The percentage report() computes. *)
Definition percent (processed total : Z) : Z :=
  if 0 <? total then JS.round_percent processed total else 0.

(** What holds of the reporter and of the reports sent during a scan whose
    estimate is [total]: the reporter keeps the estimate, the reports carry
    it and the percentage of their count, and the counts are in order and
    at most the number of files processed so far. *)
Definition progress_inv (total : Z) (s : scanState) : Prop :=
  exists r,
    reporter s = Some r
    /\ totalFiles r = total
    /\ 0 <= processedFiles r
    /\ percentages (sent s) = (fun p => percent p total) <$> counts (sent s)
    /\ StronglySorted Z.le (counts (sent s))
    /\ Forall (fun p => 0 <= p <= processedFiles r) (counts (sent s)).

(** The file records among the messages (the batches), in order. *)
Definition batchedFiles (msgs : list message) : list fileData :=
  concat (map (fun m =>
                 match m with
                 | scan_progress _ _ _ => []
                 | scan_batch files _ => map Classifier.a_file files
                 end)
              msgs).

(** The record is the record of an entry that readdir lists in a directory
    at most maxDepth levels below the root. *)
Definition shallow {P : PathLib} {F : FileSystem} (root : string)
    (cfg : config) (fd : fileData) : Prop :=
  exists (d : nat) (parent : string) (entries : list dirent) (entry : dirent),
    levelsBelow root d parent /\ Z.of_nat d <= maxDepth cfg
    /\ readdir parent = Some entries /\ entry ∈ entries
    /\ f_path fd = path_join parent (d_name entry)
    /\ f_name fd = d_name entry.

Definition depth_inv {P : PathLib} {F : FileSystem} (root : string)
    (cfg : config) (bound : Z) (s : scanState) : Prop :=
  (forall p, p ∈ pendingDirectories s ->
             exists d, levelsBelow root d p /\ Z.of_nat d <= bound)
  /\ (forall fd, fd ∈ fileStats s ++ batchedFiles (sent s) -> shallow root cfg fd).

End Scanner.

(** ** Duplicate detector: calculateFileHash and the 'find-duplicates' handler *)

Module Duplicates.

(** The options object of the handler; an absent field is [None]. *)
Record options := {
  o_scanDirectory : bool;
  o_minSize : option Z;
  o_maxSize : option Z;
  o_exactMatch : option bool;
  o_sampleSize : option Z;
  o_hashAlgorithm : option string;
  o_compareSize : option bool
}.

(** An element of an array of the fileHashes map; [hf_hash] is [None] for
    the JavaScript value null. *)
Record hashedFile := {
  hf_path : string;
  hf_hash : option string;
  hf_size : Z;
  hf_name : string;
  hf_extension : string
}.

(** An element of an array of the potentialDuplicates map, and of a group. *)
Record duplicateFile := {
  df_path : string;
  df_size : Z;
  df_name : string;
  df_extension : string
}.

Record duplicateGroup := {
  g_hash : option string;
  g_size : Z;
  g_files : list duplicateFile
}.

(** A 'duplicate-progress' message. *)
Record progress := {
  p_processed : Z;
  p_total : Z;
  p_percentage : Z
}.

(** The maps and the counter the handler mutates while it walks the paths,
    and the progress messages sent so far (oldest first). *)
Record state := {
  fileHashes : list (Z * list hashedFile);
  potentialDuplicates : list (option string * list duplicateFile);
  processed : Z;
  progress_sent : list progress
}.

Record result := {
  duplicateGroups : list duplicateGroup;
  totalDuplicates : Z;
  potentialSavings : Z
}.

Inductive response :=
| failure (error : string)
| success (data : result) (messages : list progress).

Definition BATCH_SIZE : nat := 20.

Section WithEnvironment.
Context {P : PathLib} {F : FileSystem} {C : Crypto}.

(** [fs.read(fd, buffer, 0, length, position)] into a zero-filled buffer of
    [length] bytes. *)
Definition read_window (data : list Byte.byte) (position length : Z)
    : list Byte.byte :=
  let got := take (Z.to_nat length) (drop (Z.to_nat position) data) in
  got ++ replicate (Z.to_nat length - List.length got)%nat Byte.x00.

(** calculateFileHash(filePath, algorithm, sampleSize); [None] is the null
    the catch block returns. *)
Definition calculateFileHash (filePath algorithm : string)
    (sampleSize : option Z) : option string :=
  let sample := JS.or_default sampleSize 0 in
  if sample =? 0 then
    match readFile filePath with
    | None => None
    | Some data => digest_hex algorithm data
    end
  else
    match stat filePath with
    | None => None
    | Some st =>
        if sample * 3 <? st_size st then
          match readFile filePath with
          | None => None
          | Some data =>
              if sample <? 0 then None
              else
                let fileSize := st_size st in
                let middlePosition := fileSize / 2 - sample / 2 in
                let endPosition := fileSize - sample in
                digest_hex algorithm
                  (read_window data 0 sample
                   ++ read_window data middlePosition sample
                   ++ read_window data endPosition sample)
          end
        else
          match readFile filePath with
          | None => None
          | Some data => digest_hex algorithm data
          end
    end.

Definition hashAlgorithm_or_md5 (o : options) : string :=
  match o_hashAlgorithm o with
  | None => "md5"
  | Some a => if String.eqb a "" then "md5" else a
  end.

Definition countProcessed (s : state) : state :=
  {| fileHashes := fileHashes s;
     potentialDuplicates := potentialDuplicates s;
     processed := processed s + 1;
     progress_sent := progress_sent s |}.

(** The callback of [batch.map]: one path. *)
Definition processFile (o : options) (total : Z) (s : state)
    (filePath : string) : state :=
  match stat filePath with
  | None => countProcessed s
  | Some st =>
      if st_isDirectory st then countProcessed s
      else if negb (JS.or_default (o_minSize o) 0 =? 0)
              && (st_size st <? JS.or_default (o_minSize o) 0)
      then countProcessed s
      else if negb (JS.or_default (o_maxSize o) 0 =? 0)
              && (JS.or_default (o_maxSize o) 0 <? st_size st)
      then countProcessed s
      else
        let fileHash :=
          if JS.not_false (o_exactMatch o)
          then calculateFileHash filePath (hashAlgorithm_or_md5 o) None
          else calculateFileHash filePath (hashAlgorithm_or_md5 o)
                 (Some (JS.or_default (o_sampleSize o) 4096)) in
        let name := path_basename filePath in
        let extension := JS.toLowerCase (path_extname filePath) in
        let processed1 := processed s + 1 in
        {| fileHashes :=
             if JS.not_false (o_compareSize o)
             then JS.map_push (fileHashes s) (st_size st)
                    {| hf_path := filePath; hf_hash := fileHash;
                       hf_size := st_size st; hf_name := name;
                       hf_extension := extension |}
             else fileHashes s;
           potentialDuplicates :=
             if JS.not_false (o_compareSize o)
             then potentialDuplicates s
             else JS.map_push (potentialDuplicates s) fileHash
                    {| df_path := filePath; df_size := st_size st;
                       df_name := name; df_extension := extension |};
           processed := processed1;
           progress_sent :=
             if (processed1 mod 10 =? 0) || (processed1 =? total)
             then progress_sent s ++
                    [{| p_processed := processed1; p_total := total;
                        p_percentage := JS.round_percent processed1 total |}]
             else progress_sent s |}
  end.

(** The loop over the batches. The callbacks of one batch run concurrently,
    but each changes the maps and the counter in one synchronous stretch
    after its last await, so a batch acts as its callbacks run one after
    the other; the model runs them in the order of the paths. *)
Definition processFiles (o : options) (filePaths : list string) (s : state)
    : state :=
  fold_left (processFile o (Z.of_nat (length filePaths))) filePaths s.

Definition stripHash (file : hashedFile) : duplicateFile :=
  {| df_path := hf_path file; df_size := hf_size file;
     df_name := hf_name file; df_extension := hf_extension file |}.

(** [for (const [sizeKey, files] of fileHashes.entries())]: the arrays of
    two or more files are spread over potentialDuplicates by hash. *)
Definition groupByHash (sizes : list (Z * list hashedFile))
    (pd : list (option string * list duplicateFile))
    : list (option string * list duplicateFile) :=
  fold_left
    (fun pd0 '(_, files) =>
       if (length files <=? 1)%nat then pd0
       else fold_left
              (fun pd1 file => JS.map_push pd1 (hf_hash file) (stripHash file))
              files pd0)
    sizes pd.

Definition groupSize (files : list duplicateFile) : Z :=
  match files with
  | file :: _ => df_size file
  | [] => 0
  end.

(** The body of [for (const [hash, files] of potentialDuplicates.entries())]. *)
Definition addGroup (r : result) (entry : option string * list duplicateFile)
    : result :=
  let '(hash, files) := entry in
  if (1 <? length files)%nat then
    {| duplicateGroups :=
         duplicateGroups r ++
           [{| g_hash := hash; g_size := groupSize files; g_files := files |}];
       totalDuplicates := totalDuplicates r + (Z.of_nat (length files) - 1);
       potentialSavings :=
         potentialSavings r + groupSize files * (Z.of_nat (length files) - 1) |}
  else r.

Definition extractGroups (pd : list (option string * list duplicateFile))
    : result :=
  fold_left addGroup pd
    {| duplicateGroups := []; totalDuplicates := 0; potentialSavings := 0 |}.

Definition sortKey (g : duplicateGroup) : Z :=
  g_size g * Z.of_nat (length (g_files g)).

(** ipcMain.handle('find-duplicates', ...). With the scanDirectory option
    and one path the handler calls getAllFiles, which the file does not
    define: the ReferenceError is caught by the handler. *)
Definition findDuplicates (filePaths : list string) (o : options) : response :=
  if o_scanDirectory o && (length filePaths =? 1)%nat then
    if negb (existsSync (hd ""%string filePaths))
    then failure "Directory does not exist"
    else failure "getAllFiles is not defined"
  else
    let total := Z.of_nat (length filePaths) in
    let s0 :=
      {| fileHashes := []; potentialDuplicates := []; processed := 0;
         progress_sent :=
           [{| p_processed := 0; p_total := total; p_percentage := 0 |}] |} in
    let s1 := processFiles o filePaths s0 in
    let pd :=
      if JS.not_false (o_compareSize o)
      then groupByHash (fileHashes s1) (potentialDuplicates s1)
      else potentialDuplicates s1 in
    let r := extractGroups pd in
    success
      {| duplicateGroups := JS.sort_desc sortKey (duplicateGroups r);
         totalDuplicates := totalDuplicates r;
         potentialSavings := potentialSavings r |}
      (progress_sent s1).

(** What the callback learns about a path before it touches the maps: the
    object it would push, or nothing when the path is skipped (stat fails,
    directory, outside the size bounds). *)
Definition candidate (o : options) (filePath : string) : option hashedFile :=
  match stat filePath with
  | None => None
  | Some st =>
      if st_isDirectory st then None
      else if negb (JS.or_default (o_minSize o) 0 =? 0)
              && (st_size st <? JS.or_default (o_minSize o) 0)
      then None
      else if negb (JS.or_default (o_maxSize o) 0 =? 0)
              && (JS.or_default (o_maxSize o) 0 <? st_size st)
      then None
      else
        Some {| hf_path := filePath;
                hf_hash :=
                  if JS.not_false (o_exactMatch o)
                  then calculateFileHash filePath (hashAlgorithm_or_md5 o) None
                  else calculateFileHash filePath (hashAlgorithm_or_md5 o)
                         (Some (JS.or_default (o_sampleSize o) 4096));
                hf_size := st_size st;
                hf_name := path_basename filePath;
                hf_extension := JS.toLowerCase (path_extname filePath) |}
  end.

(** The groups of a response (none when the handler failed). *)
Definition groupsOf (r : response) : list duplicateGroup :=
  match r with
  | success data _ => duplicateGroups data
  | failure _ => []
  end.

(** The pairs the loop over the paths pushes on the two maps. *)
Definition sizeItems (cands : list hashedFile) : list (Z * hashedFile) :=
  (fun c => (hf_size c, c)) <$> cands.

Definition hashItems (files : list hashedFile)
    : list (option string * duplicateFile) :=
  (fun c => (hf_hash c, stripHash c)) <$> files.

(** The pairs the loop over fileHashes pushes on potentialDuplicates. *)
Definition regrouped (sizes : list (Z * list hashedFile))
    : list (option string * duplicateFile) :=
  sizes ≫= (fun '(_, files) =>
              if (length files <=? 1)%nat then [] else hashItems files).

Definition makeGroup (entry : option string * list duplicateFile)
    : option duplicateGroup :=
  if (1 <? length entry.2)%nat
  then Some {| g_hash := entry.1; g_size := groupSize entry.2;
               g_files := entry.2 |}
  else None.

(** The entries of potentialDuplicates from which the groups are taken. *)
Definition finalEntries (filePaths : list string) (o : options)
    : list (option string * list duplicateFile) :=
  let cands := omap (candidate o) filePaths in
  if JS.not_false (o_compareSize o)
  then JS.map_push_all [] (regrouped (JS.map_push_all [] (sizeItems cands)))
  else JS.map_push_all [] (hashItems cands).

(** The state after the loop over the batches, for statements about the
    counter. *)
Definition stateAfterHashing (filePaths : list string) (o : options) : state :=
  processFiles o filePaths
    {| fileHashes := []; potentialDuplicates := []; processed := 0;
       progress_sent :=
         [{| p_processed := 0; p_total := Z.of_nat (length filePaths);
             p_percentage := 0 |}] |}.

End WithEnvironment.

End Duplicates.

(** ** Backup store and delete orchestrator *)

Module Store.

(** The outcome of an awaited call: a value, or a thrown error with its
    message. *)
Inductive res (A : Type) :=
| ok (a : A)
| thrown (message : string).
Arguments ok {A} a.
Arguments thrown {A} message.

(** The sidecar record backupFile writes. *)
Record metadata := {
  m_originalPath : string;
  m_size : Z;
  m_created : Z;
  m_modified : Z;
  m_backupDate : Z
}.

(** What getBackupsList reads back from a sidecar file: the two fields it
    uses, each possibly missing. *)
Record parsedMetadata := {
  pm_originalPath : option string;
  pm_backupDate : option Z
}.

(** The pure library functions the store uses. *)
Class Platform := {
  userData : string;                         (* app.getPath('userData') *)
  toISOString : Z -> string;                 (* Date.prototype.toISOString *)
  dateToString : Z -> string;                (* a Date inside a template string *)
  json_stringify : metadata -> string;       (* JSON.stringify(metadata, null, 2) *)
  json_parse : string -> option parsedMetadata; (* JSON.parse; None when it throws *)
  md5_hex : string -> string                 (* createHash('md5').update(s).digest('hex') *)
}.

(** The calls that reach outside the process, each with the answer it got. *)
Inductive event :=
| ev_existsSync (p : string) (r : bool)
| ev_mkdir (p : string) (r : res unit)
| ev_stat (p : string) (r : res stats)
| ev_copyFile (src dst : string) (r : res unit)
| ev_writeFile (p data : string) (r : res unit)
| ev_unlink (p : string) (r : res unit)
| ev_readdir (p : string) (r : res (list string))
| ev_readFile (p : string) (r : res string)
| ev_now (t : Z)
| ev_messageBox (detail : string) (response : Z).

(** The world outside: how each call is answered after a given history of
    calls (oldest first). Nothing is assumed about the answers. *)
Record world := {
  w_existsSync : list event -> string -> bool;
  w_mkdir : list event -> string -> res unit;
  w_stat : list event -> string -> res stats;
  w_copyFile : list event -> string -> string -> res unit;
  w_writeFile : list event -> string -> string -> res unit;
  w_unlink : list event -> string -> res unit;
  w_readdir : list event -> string -> res (list string);
  w_readFile : list event -> string -> res string;
  w_now : list event -> Z;
  w_messageBox : list event -> string -> Z
}.

(** An async function body: from the history so far to the calls it makes
    and its outcome. *)
Definition io (A : Type) : Type := list event -> list event * res A.

Definition ret {A} (a : A) : io A := fun _ => ([], ok a).

Definition throw {A} (message : string) : io A := fun _ => ([], thrown message).

Definition bind {A B} (m : io A) (k : A -> io B) : io B :=
  fun h =>
    let '(t1, r) := m h in
    match r with
    | thrown e => (t1, thrown e)
    | ok a => let '(t2, r2) := k a (h ++ t1) in (t1 ++ t2, r2)
    end.

(** [try { m } catch (error) { handler(error.message) }] *)
Definition try_catch {A} (m : io A) (handler : string -> io A) : io A :=
  fun h =>
    let '(t1, r) := m h in
    match r with
    | ok a => (t1, ok a)
    | thrown e => let '(t2, r2) := handler e (h ++ t1) in (t1 ++ t2, r2)
    end.

#[global] Instance io_ret : MRet io := @ret.
#[global] Instance io_bind : MBind io := fun A B k m => bind m k.

Fixpoint mapM {A B} (f : A -> io B) (l : list A) : io (list B) :=
  match l with
  | [] => ret []
  | x :: l' => bind (f x) (fun y => bind (mapM f l') (fun ys => ret (y :: ys)))
  end.

(** One outcome of the delete handler (an element of results). *)
Record deleteOutcome := {
  do_path : string;
  do_deleted : bool;
  do_backupPath : option string;
  do_error : option string;
  do_backupFailed : bool
}.

Record deleteResponse := {
  dr_success : bool;
  dr_data : list deleteOutcome;
  dr_error : option string
}.

(** The argument of the delete handler: any value; only arrays of strings
    are told apart. *)
Inductive argument :=
| not_an_array
| array (filePaths : list string).

Inductive backupResult :=
| backup_ok (backupPath : string)
| backup_failed (error : string).

(** An element of the list getBackupsList returns. *)
Record backupRecord := {
  b_id : string;
  b_originalPath : string;
  b_backupPath : string;
  b_fileName : string;
  b_size : Z;
  b_backupDate : Z
}.

Record restoreResponse := {
  rr_success : bool;
  rr_error : option string;
  rr_restoredTo : option string
}.

(** [s.replace(/:/g, '-')] *)
Fixpoint replaceColons (s : string) : string :=
  match s with
  | EmptyString => EmptyString
  | String c r => String (if Ascii.eqb c ":" then "-"%char else c) (replaceColons r)
  end.

(** [s.replace(/^[0-9\-TZ_]+_/, '')]: the longest leading run of characters
    of the class that ends in an underscore is removed. *)
Definition inStampClass (c : ascii) : bool :=
  Classifier.is_digit c || Ascii.eqb c "-" || Ascii.eqb c "T"
  || Ascii.eqb c "Z" || Ascii.eqb c "_".

Fixpoint stripRun (s : string) (seen : bool) (best : option string)
    : option string :=
  match s with
  | EmptyString => best
  | String c r =>
      if inStampClass c
      then stripRun r true (if seen && Ascii.eqb c "_" then Some r else best)
      else best
  end.

Definition stripTimestamp (name : string) : string :=
  match stripRun name false None with
  | Some r => r
  | None => name
  end.

(** The calls that remove a file, and the calls that change files at all. *)
Definition is_unlink (e : event) : bool :=
  match e with
  | ev_unlink _ _ => true
  | _ => false
  end.

Definition changes_files (e : event) : bool :=
  match e with
  | ev_copyFile _ _ _ | ev_writeFile _ _ _ | ev_unlink _ _ => true
  | _ => false
  end.

Section WithWorld.
Context {P : PathLib} {L : Platform}.
Variable W : world.

Definition existsSync (p : string) : io bool :=
  fun h => let r := w_existsSync W h p in ([ev_existsSync p r], ok r).

Definition mkdir (p : string) : io unit :=
  fun h => let r := w_mkdir W h p in ([ev_mkdir p r], r).

Definition stat (p : string) : io stats :=
  fun h => let r := w_stat W h p in ([ev_stat p r], r).

Definition copyFile (src dst : string) : io unit :=
  fun h => let r := w_copyFile W h src dst in ([ev_copyFile src dst r], r).

Definition writeFile (p data : string) : io unit :=
  fun h => let r := w_writeFile W h p data in ([ev_writeFile p data r], r).

Definition unlink (p : string) : io unit :=
  fun h => let r := w_unlink W h p in ([ev_unlink p r], r).

Definition readdir (p : string) : io (list string) :=
  fun h => let r := w_readdir W h p in ([ev_readdir p r], r).

Definition readFile (p : string) : io string :=
  fun h => let r := w_readFile W h p in ([ev_readFile p r], r).

(** [new Date()] *)
Definition now : io Z :=
  fun h => let t := w_now W h in ([ev_now t], ok t).

(** [dialog.showMessageBox(...)], resolved to response.response *)
Definition showMessageBox (detail : string) : io Z :=
  fun h => let r := w_messageBox W h detail in ([ev_messageBox detail r], ok r).

Definition getTrashDirectory : io string :=
  let trashPath := path_join userData "trash" in
  found ← existsSync trashPath;
  if negb found then mkdir trashPath ;; ret trashPath
  else ret trashPath.

Definition backupFile (filePath : string) : io backupResult :=
  try_catch
    (trashPath ← getTrashDirectory;
     let fileName := path_basename filePath in
     t ← now;
     let timestamp := replaceColons (toISOString t) in
     let backupFileName := timestamp +:+ "_" +:+ fileName in
     let backupPath := path_join trashPath backupFileName in
     st ← stat filePath;
     backupDate ← now;
     let meta :=
       {| m_originalPath := filePath;
          m_size := st_size st;
          m_created := st_birthtime st;
          m_modified := st_mtime st;
          m_backupDate := backupDate |} in
     copyFile filePath backupPath;;
     let metadataPath := backupPath +:+ ".meta.json" in
     writeFile metadataPath (json_stringify meta);;
     ret (backup_ok backupPath))
    (fun message => ret (backup_failed message)).

(** The body of [for (const filePath of filePaths)]: it pushes exactly one
    outcome, returned here. *)
Definition deleteOne (filePath : string) : io deleteOutcome :=
  try_catch
    (found ← existsSync filePath;
     if negb found then
       ret {| do_path := filePath; do_deleted := false;
              do_backupPath := None; do_error := Some "File not found"%string;
              do_backupFailed := false |}
     else
       backupResult0 ← backupFile filePath;
       match backupResult0 with
       | backup_failed error =>
           ret {| do_path := filePath; do_deleted := false;
                  do_backupPath := None;
                  do_error := Some ("Backup failed: " +:+ error);
                  do_backupFailed := true |}
       | backup_ok backupPath =>
           unlink filePath;;
           ret {| do_path := filePath; do_deleted := true;
                  do_backupPath := Some backupPath; do_error := None;
                  do_backupFailed := false |}
       end)
    (fun message =>
       ret {| do_path := filePath; do_deleted := false;
              do_backupPath := None; do_error := Some message;
              do_backupFailed := false |}).

(** ipcMain.handle('delete-files', ...) *)
Definition deleteFiles (filePaths : argument) : io deleteResponse :=
  match filePaths with
  | not_an_array | array [] =>
      ret {| dr_success := false; dr_data := [];
             dr_error := Some "No files provided for deletion"%string |}
  | array paths =>
      results ← mapM deleteOne paths;
      ret {| dr_success := forallb do_deleted results;
             dr_data := results;
             dr_error := None |}
  end.

(** The callback of [backupFiles.map] in getBackupsList; [None] is the
    null of its catch block. *)
Definition describeBackup (trashPath file : string) : io (option backupRecord) :=
  try_catch
    (let backupPath := path_join trashPath file in
     let metadataPath := backupPath +:+ ".meta.json" in
     fileStats ← stat backupPath;
     found ← existsSync metadataPath;
     meta ← (if (found : bool) then
               metadataContent ← readFile metadataPath;
               match json_parse metadataContent with
               | Some m => ret m
               | None => throw "Unexpected token"
               end
             else ret {| pm_originalPath := None; pm_backupDate := None |}
             : io parsedMetadata);
     ret (Some
       {| b_id := md5_hex (backupPath +:+ dateToString (st_mtime fileStats));
          b_originalPath :=
            match pm_originalPath meta with
            | None => "Unknown"
            | Some o => if String.eqb o "" then "Unknown" else o
            end;
          b_backupPath := backupPath;
          b_fileName := stripTimestamp (path_basename backupPath);
          b_size := st_size fileStats;
          b_backupDate :=
            match pm_backupDate meta with
            | None => st_mtime fileStats
            | Some d => d
            end |}))
    (fun _ => ret None).

(** getBackupsList. The callbacks of the map are awaited together; the
    model runs them in order. *)
Definition getBackupsList : io (list backupRecord) :=
  try_catch
    (trashPath ← getTrashDirectory;
     files ← readdir trashPath;
     let backupFiles :=
       List.filter (fun file => negb (JS.endsWith file ".meta.json")) files in
     backups ← mapM (describeBackup trashPath) backupFiles;
     ret (omap id backups))
    (fun _ => ret []).

Definition truthyString (s : option string) : bool :=
  match s with
  | None => false
  | Some v => negb (String.eqb v "")
  end.

Definition restoreFailure (error : string) : restoreResponse :=
  {| rr_success := false; rr_error := Some error; rr_restoredTo := None |}.

(** restoreBackup(backupId, targetPath) *)
Definition restoreBackup (backupId : string) (targetPath : option string)
    : io restoreResponse :=
  try_catch
    (backups ← getBackupsList;
     match List.find (fun b => String.eqb (b_id b) backupId) backups with
     | None => ret (restoreFailure "Backup not found")
     | Some backup =>
         let restorationPath :=
           if truthyString targetPath then default ""%string targetPath
           else b_originalPath backup in
         if negb (truthyString targetPath)
            && String.eqb (b_originalPath backup) ""
         then ret (restoreFailure
                "Original path not found. Please specify a target path.")
         else
           let targetDir := path_dirname restorationPath in
           dirFound ← existsSync targetDir;
           if negb dirFound then
             ret (restoreFailure
                    ("Target directory does not exist: " +:+ targetDir))
           else
             fileFound ← existsSync restorationPath;
             cancelled ← (if (fileFound : bool) then
                            response ← showMessageBox
                                         ("Target path: " +:+ restorationPath);
                            ret (response =? 0)
                          else ret false
                          : io bool);
             if (cancelled : bool) then
               ret (restoreFailure "Restoration cancelled by user")
             else
               copyFile (b_backupPath backup) restorationPath;;
               ret {| rr_success := true; rr_error := None;
                      rr_restoredTo := Some restorationPath |}
     end)
    (fun message =>
       ret (restoreFailure ("Error restoring backup: " +:+ message))).

(** Properties of a trace, used to state what the handlers guarantee. *)

(** The path backupFile copies [filePath] to when its clock reads [t]: the
    file's base name after the time stamp, inside the trash directory. *)
Definition backupPathAt (filePath : string) (t : Z) : string :=
  path_join (path_join userData "trash")
    (replaceColons (toISOString t) +:+ "_" +:+ path_basename filePath).

(** The sidecar record of a backup of [filePath] whose stat answered [st],
    made at [backupDate]. *)
Definition metadataOf (filePath : string) (st : stats) (backupDate : Z)
    : metadata :=
  {| m_originalPath := filePath;
     m_size := st_size st;
     m_created := st_birthtime st;
     m_modified := st_mtime st;
     m_backupDate := backupDate |}.

(** The calls of a backup of [filePath] that succeeds, from its first
    reading of the clock on: the file is copied to its backup path in the
    trash directory, and the sidecar written beside the copy holds the
    file's own path, the size and dates its stat answered, and the date of
    the backup. *)
Definition backupCalls (filePath : string) (t : Z) (st : stats)
    (backupDate : Z) : list event :=
  [ev_now t;
   ev_stat filePath (ok st);
   ev_now backupDate;
   ev_copyFile filePath (backupPathAt filePath t) (ok tt);
   ev_writeFile (backupPathAt filePath t +:+ ".meta.json")
     (json_stringify (metadataOf filePath st backupDate)) (ok tt)].

(** Every call of unlink comes directly after the calls of a successful
    backup of the same file. *)
Definition unlink_follows_backup (t : list event) : Prop :=
  forall pre p r post,
    t = pre ++ ev_unlink p r :: post ->
    exists pre' stamp st backupDate,
      pre = pre' ++ backupCalls p stamp st backupDate.

(** The outcome pushed for a file that was removed names the backup that
    the trace shows: the calls of a successful backup of the file, then the
    unlink of the file. *)
Definition deleted_with_backup (t : list event) (o : deleteOutcome) : Prop :=
  do_deleted o = true ->
  exists pre stamp st backupDate r post,
    t = pre ++ backupCalls (do_path o) stamp st backupDate
            ++ ev_unlink (do_path o) r :: post
    /\ do_backupPath o = Some (backupPathAt (do_path o) stamp)
    /\ do_error o = None.

(** Every call of writeFile writes the sidecar of the backup that the call
    just before it copied successfully. *)
Definition sidecar_follows_copy (t : list event) : Prop :=
  forall pre m data r post,
    t = pre ++ ev_writeFile m data r :: post ->
    exists pre' src b,
      pre = pre' ++ [ev_copyFile src b (ok tt)] /\ m = b +:+ ".meta.json".

(** Files are copied and unlinked only if existsSync answered true for them
    at some point. *)
Definition sources_existed (t : list event) : Prop :=
  forall e, In e t ->
    match e with
    | ev_copyFile src _ _ | ev_unlink src _ =>
        exists h', w_existsSync W h' src = true
    | _ => True
    end.

(** No call of the function changes a file. *)
Definition quiet {A} (m : io A) : Prop :=
  forall h, Forall (fun e => changes_files e = false) (m h).1.

End WithWorld.

(** The outcome pushed for a path that does not exist. *)
Definition notFound (filePath : string) : deleteOutcome :=
  {| do_path := filePath; do_deleted := false; do_backupPath := None;
     do_error := Some "File not found"%string; do_backupFailed := false |}.

End Store.

(** ** Small instances of the environment, to run the model *)

Module Sample.

(** Position of the last occurrence of character [c], if any. *)
Fixpoint last_index (c : ascii) (s : string) (i : nat) (found : option nat)
    : option nat :=
  match s with
  | EmptyString => found
  | String d r =>
      last_index c r (S i) (if Ascii.eqb c d then Some i else found)
  end.

(** The path functions on normalized POSIX paths without a trailing
    separator. *)
Definition posix : PathLib :=
  {| path_join := fun dir name => dir +:+ "/" +:+ name;
     path_dirname := fun p =>
       match last_index "/" p 0 None with
       | None => "."
       | Some O => "/"
       | Some i => String.substring 0 i p
       end;
     path_basename := fun p =>
       match last_index "/" p 0 None with
       | None => p
       | Some i => String.substring (S i) (String.length p - S i) p
       end;
     path_extname := fun name =>
       match last_index "." name 0 None with
       | None | Some O => ""
       | Some i => String.substring i (String.length name - i) name
       end |}.

(** A node of a small file system: a file with its size, its content when
    it can be read, and its access time; or a directory with the names
    readdir lists. *)
Inductive node :=
| file_node (size : Z) (content : option (list Byte.byte)) (atime : Z)
| dir_node (names : list string).

Fixpoint lookup_node (l : list (string * node)) (p : string) : option node :=
  match l with
  | [] => None
  | (q, n) :: l' => if String.eqb q p then Some n else lookup_node l' p
  end.

Definition is_dir_node (n : option node) : bool :=
  match n with Some (dir_node _) => true | _ => false end.

Definition fs_of (l : list (string * node)) : FileSystem :=
  {| existsSync := fun p =>
       match lookup_node l p with Some _ => true | None => false end;
     readdir := fun p =>
       match lookup_node l p with
       | Some (dir_node names) =>
           Some (map (fun n =>
                   {| d_name := n;
                      d_isDirectory :=
                        is_dir_node (lookup_node l (p +:+ "/" +:+ n)) |})
                   names)
       | _ => None
       end;
     stat := fun p =>
       match lookup_node l p with
       | Some (file_node size _ atime) =>
           Some {| st_isDirectory := false; st_size := size;
                   st_atime := atime; st_mtime := atime; st_birthtime := atime |}
       | Some (dir_node _) =>
           Some {| st_isDirectory := true; st_size := 0;
                   st_atime := 0; st_mtime := 0; st_birthtime := 0 |}
       | None => None
       end;
     readFile := fun p =>
       match lookup_node l p with
       | Some (file_node _ (Some data) _) => Some data
       | _ => None
       end |}.

Definition text_file (s : string) : node :=
  file_node (Z.of_nat (String.length s)) (Some (list_byte_of_string s)) 0.

(** A root with two sub-directories, one file in each. *)
Definition two_branches : list (string * node) :=
  [ ("/r", dir_node ["a"; "b"]);
    ("/r/a", dir_node ["f.txt"]);
    ("/r/b", dir_node ["g.txt"]);
    ("/r/a/f.txt", text_file "one");
    ("/r/b/g.txt", text_file "two") ]%string.

Definition config_depth (d : Z) : config :=
  {| maxDepth := d; ignoreDotFiles := true; ignoreSizeAbove := 0;
     includeHiddenFiles := false; scanSizeThreshold := 100 * 1024 * 1024;
     scanAgeThreshold := 180 |}.

(** Hashing for the examples: the digest of a byte string is the string
    itself, so distinct inputs never collide. *)
Definition plain_digest : Crypto :=
  {| digest_hex := fun algorithm data =>
       if String.eqb algorithm "md5" || String.eqb algorithm "sha1"
          || String.eqb algorithm "sha256"
       then Some (string_of_list_byte data)
       else None |}.

(** Library functions for the examples. The sidecar text is the original
    path alone. *)
Definition toy_platform : Store.Platform :=
  {| Store.userData := "/data";
     Store.toISOString := fun t => "2024-05-01T10:20:30." +:+ pretty (t mod 1000) +:+ "Z";
     Store.dateToString := fun t => pretty t;
     Store.json_stringify := fun m => Store.m_originalPath m;
     Store.json_parse := fun text =>
       Some {| Store.pm_originalPath := Some text; Store.pm_backupDate := None |};
     Store.md5_hex := fun text => text |}.

(** A world that keeps a set of existing paths: it starts from [initial]
    and follows the successful calls of the history. *)
Definition apply_event (present : list string) (e : Store.event) : list string :=
  match e with
  | Store.ev_mkdir p (Store.ok _) => present ++ [p]
  | Store.ev_copyFile _ dst (Store.ok _) => present ++ [dst]
  | Store.ev_writeFile p _ (Store.ok _) => present ++ [p]
  | Store.ev_unlink p (Store.ok _) => List.filter (fun q => negb (String.eqb q p)) present
  | _ => present
  end.

Definition present_after (initial : list string) (h : list Store.event)
    : list string :=
  fold_left apply_event h initial.

Definition exists_in (present : list string) (p : string) : bool :=
  existsb (String.eqb p) present.

Definition sample_stats : stats :=
  {| st_isDirectory := false; st_size := 3; st_atime := 0; st_mtime := 7;
     st_birthtime := 0 |}.

Definition guarded (present : list string) (p : string) {A} (a : A)
    : Store.res A :=
  if exists_in present p then Store.ok a
  else Store.thrown "ENOENT: no such file or directory".

Definition children (present : list string) (dir : string) : list string :=
  omap (fun q =>
          let prefix := dir +:+ "/" in
          if String.prefix prefix q
          then Some (String.substring (String.length prefix)
                       (String.length q - String.length prefix) q)
          else None)
       present.

Definition tracking_world (initial : list string) : Store.world :=
  {| Store.w_existsSync := fun h p => exists_in (present_after initial h) p;
     Store.w_mkdir := fun _ _ => Store.ok tt;
     Store.w_stat := fun h p => guarded (present_after initial h) p sample_stats;
     Store.w_copyFile := fun h src _ => guarded (present_after initial h) src tt;
     Store.w_writeFile := fun _ _ _ => Store.ok tt;
     Store.w_unlink := fun h p => guarded (present_after initial h) p tt;
     Store.w_readdir := fun h p =>
       guarded (present_after initial h) p (children (present_after initial h) p);
     Store.w_readFile := fun h p =>
       guarded (present_after initial h) p "/home/u/a.txt"%string;
     Store.w_now := fun h => Z.of_nat (length h);
     Store.w_messageBox := fun _ _ => 1 |}.

(** A 200 MB file last read at time 0. *)
Definition big_old_file : fileData :=
  {| f_path := "/r/movie.bin"; f_name := "movie.bin";
     f_size := 200 * 1024 * 1024; f_accessed := 0; f_modified := 0;
     f_created := 0; f_extension := ".bin" |}.

(** The same file under another path and with other modification and
    creation times. *)
Definition big_old_file_moved : fileData :=
  {| f_path := "/elsewhere/movie.bin"; f_name := "movie.bin";
     f_size := 200 * 1024 * 1024; f_accessed := 0; f_modified := 5;
     f_created := 9; f_extension := ".bin" |}.

(** A directory with one file of 2 GiB. *)
Definition big_dir : list (string * node) :=
  [ ("/big", dir_node ["huge.iso"]);
    ("/big/huge.iso", file_node (2 * 1024 * 1024 * 1024) None 0) ]%string.

(** An empty directory. *)
Definition empty_dir : list (string * node) := [ ("/e", dir_node []) ]%string.

(** A directory with one plain file and ten files whose names contain
    .git (countFiles passes over those, scanDirectory does not). *)
Definition git_named : list (string * node) :=
  [ ("/p", dir_node ["z.txt"; "a.git0"; "a.git1"; "a.git2"; "a.git3"; "a.git4";
                     "a.git5"; "a.git6"; "a.git7"; "a.git8"; "a.git9"]);
    ("/p/z.txt", text_file "z");
    ("/p/a.git0", text_file "0"); ("/p/a.git1", text_file "1");
    ("/p/a.git2", text_file "2"); ("/p/a.git3", text_file "3");
    ("/p/a.git4", text_file "4"); ("/p/a.git5", text_file "5");
    ("/p/a.git6", text_file "6"); ("/p/a.git7", text_file "7");
    ("/p/a.git8", text_file "8"); ("/p/a.git9", text_file "9") ]%string.

(** The scan configuration the renderer sends when nothing is set, and the
    one that sets the size limit to 0. *)
Definition no_settings : scanConfig :=
  {| sc_maxDepth := None; sc_ignoreDotFiles := None; sc_ignoreSizeAbove := None;
     sc_includeHiddenFiles := None; sc_scanSizeThreshold := None;
     sc_scanAgeThreshold := None |}.

Definition no_size_limit : scanConfig :=
  {| sc_maxDepth := None; sc_ignoreDotFiles := None;
     sc_ignoreSizeAbove := Some 0;
     sc_includeHiddenFiles := None; sc_scanSizeThreshold := None;
     sc_scanAgeThreshold := None |}.

(** Two files of five bytes that cannot be read. *)
Definition unreadable_pair : list (string * node) :=
  [ ("/u/a.bin", file_node 5 None 0); ("/u/b.bin", file_node 5 None 0) ]%string.

(** Two files with the same four bytes. *)
Definition twins : list (string * node) :=
  [ ("/d/x.txt", text_file "same"); ("/d/y.txt", text_file "same") ]%string.

(** Two files of four bytes and two of five, all made of the letter a. *)
Definition runs_of_a : list (string * node) :=
  [ ("/s/a1", text_file "aaaa"); ("/s/a2", text_file "aaaa");
    ("/s/b1", text_file "aaaaa"); ("/s/b2", text_file "aaaaa") ]%string.

(** The options of the duplicate search: nothing set; a minimum size of
    100 bytes; sampled hashing with windows of one byte. *)
Definition default_options : Duplicates.options :=
  {| Duplicates.o_scanDirectory := false; Duplicates.o_minSize := None;
     Duplicates.o_maxSize := None; Duplicates.o_exactMatch := None;
     Duplicates.o_sampleSize := None; Duplicates.o_hashAlgorithm := None;
     Duplicates.o_compareSize := None |}.

Definition at_least_100_bytes : Duplicates.options :=
  {| Duplicates.o_scanDirectory := false; Duplicates.o_minSize := Some 100;
     Duplicates.o_maxSize := None; Duplicates.o_exactMatch := None;
     Duplicates.o_sampleSize := None; Duplicates.o_hashAlgorithm := None;
     Duplicates.o_compareSize := None |}.

Definition sampled_one_byte : Duplicates.options :=
  {| Duplicates.o_scanDirectory := false; Duplicates.o_minSize := None;
     Duplicates.o_maxSize := None; Duplicates.o_exactMatch := Some false;
     Duplicates.o_sampleSize := Some 1; Duplicates.o_hashAlgorithm := None;
     Duplicates.o_compareSize := None |}.

(** A world whose set of existing paths is [present] and never changes;
    every call on an existing path succeeds. *)
Definition fixed_world (present : list string) : Store.world :=
  {| Store.w_existsSync := fun _ p => exists_in present p;
     Store.w_mkdir := fun _ _ => Store.ok tt;
     Store.w_stat := fun _ p => guarded present p sample_stats;
     Store.w_copyFile := fun _ src _ => guarded present src tt;
     Store.w_writeFile := fun _ _ _ => Store.ok tt;
     Store.w_unlink := fun _ p => guarded present p tt;
     Store.w_readdir := fun _ p => guarded present p (children present p);
     Store.w_readFile := fun _ p => guarded present p "/home/u/a.txt"%string;
     Store.w_now := fun h => Z.of_nat (length h);
     Store.w_messageBox := fun _ _ => 1 |}.

(** A trash directory that holds one backup and its sidecar. *)
Definition one_backup : list string :=
  [ "/data"; "/data/trash"; "/data/trash/2024-05-01T10-20-30.3Z_a.txt";
    "/data/trash/2024-05-01T10-20-30.3Z_a.txt.meta.json" ]%string.

End Sample.

(** ** The other handlers of the main process *)

Module Handlers.
Import Store.

(** [buffer.toString('base64')] *)
Class BufferLib := {
  toBase64 : string -> string
}.

Inductive previewType :=
| preview_image
| preview_text
| preview_unknown.

(** What the 'preview-file' handler resolves to; an absent property is
    [None]. *)
Record previewResponse := {
  pv_success : bool;
  pv_data : option string;
  pv_type : option previewType;
  pv_error : option string
}.

Definition MAX_PREVIEW_SIZE : Z := 5 * 1024 * 1024.

Definition imageExts : list string :=
  [".jpg"; ".jpeg"; ".png"; ".gif"; ".bmp"]%string.

Definition textExts : list string :=
  [".txt"; ".md"; ".json"; ".csv"; ".xml"; ".html"; ".htm";
   ".css"; ".js"; ".ts"; ".jsx"; ".tsx"; ".log"]%string.

Definition previewFailure (error : string) : previewResponse :=
  {| pv_success := false; pv_data := None; pv_type := None;
     pv_error := Some error |}.

(** What the 'get-backups' handler resolves to. *)
Inductive backupsResponse :=
| backups_listed (data : list backupRecord)
| backups_failed (error : string).

(** The shape of [Date.prototype.toISOString()]: date and time, a full
    stop, the milliseconds and Z. Before the full stop there are only
    digits, '-', 'T' and ':' (and a sign, for years outside 0..9999). *)
Definition dateTimeChar (c : ascii) : bool :=
  Classifier.is_digit c || Ascii.eqb c "-" || Ascii.eqb c "T"
  || Ascii.eqb c ":" || Ascii.eqb c "+".

Fixpoint isoShaped (s : string) : bool :=
  match s with
  | EmptyString => false
  | String c r => Ascii.eqb c "." || (dateTimeChar c && isoShaped r)
  end.

Section WithWorld.
Context {P : PathLib} {L : Platform} {B : BufferLib}.
Variable W : world.

(** ipcMain.handle('preview-file', ...). [readFile(filePath)] and
    [readFile(filePath, 'utf8')] are the same call on the file; the image
    branch encodes what it read. *)
Definition previewFile (filePath : string) : io previewResponse :=
  try_catch
    (found ← existsSync W filePath;
     if negb found then ret (previewFailure "File not found")
     else
       stats ← stat W filePath;
       if st_isDirectory stats
       then ret (previewFailure "Cannot preview a directory")
       else if MAX_PREVIEW_SIZE <? st_size stats
       then ret (previewFailure "File is too large to preview (max 5MB)")
       else
         let ext := JS.toLowerCase (path_extname filePath) in
         if JS.array_includes imageExts ext then
           data ← readFile W filePath;
           ret {| pv_success := true; pv_data := Some (toBase64 data);
                  pv_type := Some preview_image; pv_error := None |}
         else if JS.array_includes textExts ext then
           data ← readFile W filePath;
           ret {| pv_success := true; pv_data := Some data;
                  pv_type := Some preview_text; pv_error := None |}
         else
           ret {| pv_success := false; pv_data := None;
                  pv_type := Some preview_unknown;
                  pv_error := Some "File type not supported for preview"%string |})
    (fun message => ret (previewFailure ("Error previewing file: " +:+ message))).

(** ipcMain.handle('get-backups', ...) *)
Definition getBackups : io backupsResponse :=
  try_catch
    (backups ← getBackupsList W;
     ret (backups_listed backups))
    (fun message => ret (backups_failed message)).

(** What holds of a record of the list of backups, given the calls that
    made the list: the original path is not empty, the file name is the
    base name of the backup path without its stamp, and the size is the one
    a successful stat of the backup path gave. *)
Definition listed (t : list event) (b : backupRecord) : Prop :=
  b_originalPath b <> ""%string
  /\ b_fileName b = stripTimestamp (path_basename (b_backupPath b))
  /\ exists st,
       In (ev_stat (b_backupPath b) (ok st)) t /\ b_size b = st_size st.

(** ipcMain.handle('restore-backup', ...) *)
Definition restoreBackupHandler (backupId : string)
    (targetPath : option string) : io restoreResponse :=
  restoreBackup W backupId targetPath.

End WithWorld.

End Handlers.

(** ** Settings: saveSettingsToFile and the 'save-settings' handler *)

Module Settings.
Import Store.

(** The settings object the renderer sends (AppSettings); every section
    and every field may be absent. *)
Record generalIn := {
  gi_language : option string;
  gi_theme : option string;
  gi_startMinimized : option bool;
  gi_minimizeToTray : option bool;
  gi_closeToTray : option bool;
  gi_checkForUpdates : option bool
}.

Record scanningIn := {
  si_maxDepth : option Z;
  si_ignoreDotFiles : option bool;
  si_includeHiddenFiles : option bool;
  si_scanSizeThreshold : option Z;
  si_scanAgeThreshold : option Z
}.

Record backupsIn := {
  bi_keepBackups : option bool;
  bi_backupRetentionDays : option Z;
  bi_maxBackupSize : option Z
}.

Record notificationsIn := {
  ni_showNotifications : option bool;
  ni_notifyOnScanComplete : option bool;
  ni_notifyOnCleanupComplete : option bool
}.

Record advancedIn := {
  ai_enableDebugging : option bool;
  ai_concurrentOperations : option Z
}.

Record settingsIn := {
  s_general : option generalIn;
  s_scanning : option scanningIn;
  s_backups : option backupsIn;
  s_notifications : option notificationsIn;
  s_advanced : option advancedIn
}.

(** The object saveSettingsToFile writes (validatedSettings). *)
Record general := {
  language : string;
  theme : string;
  startMinimized : bool;
  minimizeToTray : bool;
  closeToTray : bool;
  checkForUpdates : bool
}.

Record scanning := {
  maxDepth : Z;
  ignoreDotFiles : bool;
  includeHiddenFiles : bool;
  scanSizeThreshold : Z;
  scanAgeThreshold : Z
}.

Record backups := {
  keepBackups : bool;
  backupRetentionDays : Z;
  maxBackupSize : Z
}.

Record notifications := {
  showNotifications : bool;
  notifyOnScanComplete : bool;
  notifyOnCleanupComplete : bool
}.

Record advanced := {
  enableDebugging : bool;
  concurrentOperations : Z
}.

Record settings := {
  v_general : general;
  v_scanning : scanning;
  v_backups : backups;
  v_notifications : notifications;
  v_advanced : advanced
}.

(** [JSON.stringify(validatedSettings, null, 2)] *)
Class SettingsJson := {
  stringify : settings -> string
}.

(** What the 'save-settings' handler resolves to. *)
Record saveResponse := {
  sv_success : bool;
  sv_error : option string
}.

(** [section?.field]: undefined when the section is absent. *)
Definition field {S A : Type} (section : option S) (get : S -> option A)
    : option A :=
  match section with
  | None => None
  | Some s => get s
  end.

(** [x || d] on a boolean and on a string that may be absent. *)
Definition bool_or (x : option bool) (d : bool) : bool :=
  match x with
  | Some true => true
  | _ => d
  end.

Definition string_or (x : option string) (d : string) : string :=
  match x with
  | None => d
  | Some v => if String.eqb v "" then d else v
  end.

Definition validatedSettings (s : settingsIn) : settings :=
  {| v_general :=
       {| language := string_or (field (s_general s) gi_language) "en";
          theme := string_or (field (s_general s) gi_theme) "system";
          startMinimized := bool_or (field (s_general s) gi_startMinimized) false;
          minimizeToTray := bool_or (field (s_general s) gi_minimizeToTray) true;
          closeToTray := bool_or (field (s_general s) gi_closeToTray) true;
          checkForUpdates := bool_or (field (s_general s) gi_checkForUpdates) true |};
     v_scanning :=
       {| maxDepth := JS.or_default (field (s_scanning s) si_maxDepth) 10;
          ignoreDotFiles := bool_or (field (s_scanning s) si_ignoreDotFiles) true;
          includeHiddenFiles :=
            bool_or (field (s_scanning s) si_includeHiddenFiles) false;
          scanSizeThreshold :=
            JS.or_default (field (s_scanning s) si_scanSizeThreshold) 100;
          scanAgeThreshold :=
            JS.or_default (field (s_scanning s) si_scanAgeThreshold) 180 |};
     v_backups :=
       {| keepBackups := bool_or (field (s_backups s) bi_keepBackups) true;
          backupRetentionDays :=
            JS.or_default (field (s_backups s) bi_backupRetentionDays) 30;
          maxBackupSize :=
            JS.or_default (field (s_backups s) bi_maxBackupSize) 1024 |};
     v_notifications :=
       {| showNotifications :=
            bool_or (field (s_notifications s) ni_showNotifications) true;
          notifyOnScanComplete :=
            bool_or (field (s_notifications s) ni_notifyOnScanComplete) true;
          notifyOnCleanupComplete :=
            bool_or (field (s_notifications s) ni_notifyOnCleanupComplete) true |};
     v_advanced :=
       {| enableDebugging :=
            bool_or (field (s_advanced s) ai_enableDebugging) false;
          concurrentOperations :=
            JS.or_default (field (s_advanced s) ai_concurrentOperations) 2 |} |}.

(** A written settings object, read as the object the renderer sends. *)
Definition asInput (v : settings) : settingsIn :=
  {| s_general :=
       Some {| gi_language := Some (language (v_general v));
               gi_theme := Some (theme (v_general v));
               gi_startMinimized := Some (startMinimized (v_general v));
               gi_minimizeToTray := Some (minimizeToTray (v_general v));
               gi_closeToTray := Some (closeToTray (v_general v));
               gi_checkForUpdates := Some (checkForUpdates (v_general v)) |};
     s_scanning :=
       Some {| si_maxDepth := Some (maxDepth (v_scanning v));
               si_ignoreDotFiles := Some (ignoreDotFiles (v_scanning v));
               si_includeHiddenFiles := Some (includeHiddenFiles (v_scanning v));
               si_scanSizeThreshold := Some (scanSizeThreshold (v_scanning v));
               si_scanAgeThreshold := Some (scanAgeThreshold (v_scanning v)) |};
     s_backups :=
       Some {| bi_keepBackups := Some (keepBackups (v_backups v));
               bi_backupRetentionDays := Some (backupRetentionDays (v_backups v));
               bi_maxBackupSize := Some (maxBackupSize (v_backups v)) |};
     s_notifications :=
       Some {| ni_showNotifications := Some (showNotifications (v_notifications v));
               ni_notifyOnScanComplete :=
                 Some (notifyOnScanComplete (v_notifications v));
               ni_notifyOnCleanupComplete :=
                 Some (notifyOnCleanupComplete (v_notifications v)) |};
     s_advanced :=
       Some {| ai_enableDebugging := Some (enableDebugging (v_advanced v));
               ai_concurrentOperations :=
                 Some (concurrentOperations (v_advanced v)) |} |}.

Section WithWorld.
Context {P : PathLib} {L : Platform} {J : SettingsJson}.
Variable W : world.

(** saveSettingsToFile(settings); [None] is a call without a settings
    object, where reading [settings.general] throws. *)
Definition saveSettingsToFile (settings0 : option settingsIn) : io bool :=
  try_catch
    (let settingsPath := path_join userData "settings.json" in
     match settings0 with
     | None => throw "Cannot read properties of undefined (reading 'general')"
     | Some s =>
         writeFile W settingsPath (stringify (validatedSettings s));;
         ret true
     end)
    (fun _ => ret false).

(** ipcMain.handle('save-settings', ...) *)
Definition saveSettings (settings0 : option settingsIn) : io saveResponse :=
  try_catch
    (success ← saveSettingsToFile settings0;
     ret {| sv_success := success; sv_error := None |})
    (fun message => ret {| sv_success := false; sv_error := Some message |}).

End WithWorld.

End Settings.

(** ** The 'quick-scan' handler *)

Module QuickScan.
Import Scanner.

(** What the handler resolves to: the failure object, or the array
    scanDirectory returns. *)
Inductive response :=
| quick_failure (error : string)
| quick_files (files : list fileData).

(** [currentDepth <= config.maxDepth] for a config object that may lack
    maxDepth: a comparison with undefined is false. *)
Definition withinDepth (currentDepth : Z) (maxDepth0 : option Z) : bool :=
  match maxDepth0 with
  | Some d => currentDepth <=? d
  | None => false
  end.

(** The fields other than maxDepth, as scanDirectory and analyzeFiles read
    them on the empty object: undefined is falsy, [undefined > 0] is false,
    and [undefined || d] is [d]. *)
Definition emptyObject : config :=
  {| maxDepth := 0; ignoreDotFiles := false; ignoreSizeAbove := 0;
     includeHiddenFiles := false; scanSizeThreshold := 0;
     scanAgeThreshold := 0 |}.

Section WithEnvironment.
Context {P : PathLib} {F : FileSystem}.
Variable mainWindow : bool.
Variable clock : nat -> Z.

(** The while loop of scanDirectory, with [config.maxDepth] read on its
    own; [cfg] gives the other fields. *)
Fixpoint scanLoop (fuel : nat) (maxDepth0 : option Z) (cfg : config)
    (s : scanState) : scanState :=
  match fuel with
  | O => s
  | S fuel' =>
      if withinDepth (currentDepth s) maxDepth0 then
        match shiftUnvisited (visitedDirs s) (pendingDirectories s) with
        | None =>
            {| pendingDirectories := [];
               fileStats := fileStats s;
               batchCount := batchCount s;
               currentDepth := currentDepth s;
               visitedDirs := visitedDirs s;
               reporter := reporter s;
               sent := sent s |}
        | Some (currentDir, rest) =>
            scanLoop fuel' maxDepth0 cfg
              (scanOneDirectory mainWindow clock cfg currentDir
                 {| pendingDirectories := rest;
                    fileStats := fileStats s;
                    batchCount := batchCount s;
                    currentDepth := currentDepth s;
                    visitedDirs := visitedDirs s;
                    reporter := reporter s;
                    sent := sent s |})
        end
      else s
  end.

(** scanDirectory(directoryPath, progressReporter, config) for such a
    config object. *)
Definition scanDirectory (directoryPath : string)
    (progress : option progressReporter) (maxDepth0 : option Z)
    (cfg : config) : scanState :=
  scanLoop (S (Z.to_nat (default 0 maxDepth0 + 1))) maxDepth0 cfg
    (initialState directoryPath progress).

(** ipcMain.handle('quick-scan', ...). The handler calls
    [scanDirectory(directoryPath, defaultConfig)]: its configuration is
    bound to the parameter progressReporter and [config] takes its default,
    the empty object. The object in the reporter's place has neither
    processedFiles nor report: the count the loop would keep on it is NaN,
    [NaN % 10 === 0] is false and report is never called, which is the
    scan without a reporter. *)
Definition quickScan (directoryPath : string) : response :=
  if String.eqb directoryPath "" then
    quick_failure "No directory specified for quick scan"
  else
    quick_files (fileStats (scanDirectory directoryPath None None emptyObject)).

End WithEnvironment.

End QuickScan.

(** ** What a record of the scanner says about its file *)

Module Records.

(** The record [fd] holds what stat answered for its path, that path is
    the file's name joined to a directory, the file is not a directory, it
    is within the size limit when there is one, and its name does not
    start with a full stop when dot files are ignored. *)
Definition describes {P : PathLib} {F : FileSystem} (cfg : config)
    (fd : fileData) : Prop :=
  exists st,
    stat (f_path fd) = Some st
    /\ st_isDirectory st = false
    /\ f_size fd = st_size st
    /\ f_accessed fd = st_atime st
    /\ f_modified fd = st_mtime st
    /\ f_created fd = st_birthtime st
    /\ f_extension fd = JS.toLowerCase (path_extname (f_name fd))
    /\ (0 < ignoreSizeAbove cfg -> f_size fd <= ignoreSizeAbove cfg)
    /\ (ignoreDotFiles cfg = true -> includeHiddenFiles cfg = false ->
        JS.startsWith (f_name fd) "." = false)
    /\ exists currentDir, f_path fd = path_join currentDir (f_name fd).

(** Two states of the scan loop, one of a run with a window and one of a
    run without, at the same point of the walk: they differ only in where
    the records are. The batches sent with the window, followed by the
    records still in fileStats, are the fileStats of the run without. *)
Definition sameWalk (sw sn : Scanner.scanState) : Prop :=
  Scanner.pendingDirectories sw = Scanner.pendingDirectories sn
  /\ Scanner.batchCount sw = Scanner.batchCount sn
  /\ Scanner.currentDepth sw = Scanner.currentDepth sn
  /\ Scanner.visitedDirs sw = Scanner.visitedDirs sn
  /\ Scanner.reporter sw = Scanner.reporter sn
  /\ Scanner.batchedFiles (Scanner.sent sw) ++ Scanner.fileStats sw
     = Scanner.fileStats sn.

End Records.

(** ** The renderer: what it does with the answers of the main process *)

Module Renderer.

(** A JavaScript [Map] from keys to values, in insertion order:
    [m.set(k, v)] replaces the value of a key that is present and appends
    a key that is not. *)
Section JsMapSet.
Context {K V : Type} `{EqDecision K}.

Fixpoint map_set (m : list (K * V)) (k : K) (v : V) : list (K * V) :=
  match m with
  | [] => [(k, v)]
  | (k', v') :: m' =>
      if decide (k' = k) then (k', v) :: m'
      else (k', v') :: map_set m' k v
  end.

(** [new Map(entries)] *)
Definition newMap (entries : list (K * V)) : list (K * V) :=
  fold_left (fun m kv => map_set m kv.1 kv.2) entries [].

End JsMapSet.

(** The path of a FileItem. *)
Definition path (file : Classifier.analyzed) : string :=
  f_path (Classifier.a_file file).

(** The updater the 'scan-batch' listener of handleScan passes to setFiles
    (App.tsx). *)
Definition mergeBatch (prevFiles batch : list Classifier.analyzed)
    : list Classifier.analyzed :=
  let fileMap := newMap (map (fun file => (path file, file)) prevFiles) in
  let fileMap1 :=
    fold_left (fun m file => map_set m (path file) file) batch fileMap in
  map snd fileMap1.

(** What the 'scan-batch' listener alone makes of the file list: its
    updater runs once for each batch among the messages of a scan, starting
    from the empty list that handleScan sets first. *)
Definition filesAfterBatches (msgs : list Scanner.message)
    : list Classifier.analyzed :=
  fold_left
    (fun files m =>
       match m with
       | Scanner.scan_batch batch _ => mergeBatch files batch
       | Scanner.scan_progress _ _ _ => files
       end)
    msgs [].

(** handleScan (App.tsx): the file list it leaves behind when the handler
    has answered with [result].  [files] is the list the function captured
    when the component was rendered last, before the scan: [setFiles([])]
    and the listener's updates do not change what the function sees.  The
    batches are sent before the handler answers, so the listener's updates
    are made before the test after the await, and [setFiles(result.data)]
    replaces what they have built.  (When result.success is false the
    function throws before the test.) *)
Definition handleScan (files : list Classifier.analyzed)
    (result : Scanner.scanResponse) : list Classifier.analyzed :=
  let merged := filesAfterBatches (Scanner.r_sent result) in
  if negb (Scanner.r_success result) then merged
  else if (length files =? 0)%nat
          && negb (length (Scanner.r_data result) =? 0)%nat
  then Scanner.r_data result
  else merged.

(** handleDeleteFiles (App.tsx), the part that runs when [result.success]
    is true. It reads two properties of an outcome, path and success. *)
Section DeleteView.
Context {R : Type} (r_path : R -> string) (r_success : R -> bool).

Definition successCount (data : list R) : nat :=
  length (filter (fun r => r_success r = true) data).

Definition failCount (data : list R) : nat :=
  length (filter (fun r => r_success r = false) data).

(** The updater passed to setFiles: a file stays when it was not among the
    paths, or when an outcome with its path is not a success. *)
Definition filesAfterDelete (prev : list Classifier.analyzed)
    (filePaths : list string) (data : list R) : list Classifier.analyzed :=
  List.filter
    (fun file =>
       negb (JS.array_includes filePaths (path file))
       || match List.find (fun r => String.eqb (r_path r) (path file)
                                    && negb (r_success r)) data with
          | Some _ => true
          | None => false
          end)
    prev.

End DeleteView.

(** [r.success] on an outcome of the 'delete-files' handler. The handler
    sets path, deleted, backupPath, error and backupFailed on its outcomes
    and never success: the property is undefined, which is falsy. *)
Definition outcome_success (r : Store.deleteOutcome) : bool := false.

(** What handleDeleteFiles leaves after the answer of the handler: the
    file list, and the two counts of its notification when it shows one.
    With [result.success] false it does nothing. *)
Definition handleDeleteFiles (prev : list Classifier.analyzed)
    (filePaths : list string) (result : Store.deleteResponse)
    : list Classifier.analyzed * option (nat * nat) :=
  if Store.dr_success result then
    (filesAfterDelete Store.do_path outcome_success prev filePaths
       (Store.dr_data result),
     Some (successCount outcome_success (Store.dr_data result),
           failCount outcome_success (Store.dr_data result)))
  else (prev, None).

(** DuplicatesFinder.tsx: the selection object, keyed by [group.hash]. A
    property key is a string: null is the key 'null'. *)
Definition keyOf (hash : option string) : string :=
  match hash with
  | Some h => h
  | None => "null"
  end.

(** [selection[group.hash] || 'newest'] *)
Definition selectionType (selection : gmap string string)
    (group : Duplicates.duplicateGroup) : string :=
  match selection !! keyOf (Duplicates.g_hash group) with
  | None => "newest"
  | Some v => if String.eqb v "" then "newest" else v
  end.

(** The body of [duplicateGroups.forEach] in getFilesToDelete: the paths
    it pushes for one group. *)
Definition groupFilesToDelete (selection : gmap string string)
    (group : Duplicates.duplicateGroup) : list string :=
  let selectionType0 := selectionType selection group in
  let files := Duplicates.g_files group in
  if String.eqb selectionType0 "all" then map Duplicates.df_path files
  else if String.eqb selectionType0 "newest" then
    map Duplicates.df_path (drop 1 files)
  else if String.eqb selectionType0 "oldest" then
    map Duplicates.df_path (take (length files - 1) files)
  else if String.eqb selectionType0 "none" then []
  else
    map Duplicates.df_path
      (List.filter
         (fun file => negb (String.eqb (Duplicates.df_path file) selectionType0))
         files).

Definition getFilesToDelete (duplicateGroups : list Duplicates.duplicateGroup)
    (selection : gmap string string) : list string :=
  concat (map (groupFilesToDelete selection) duplicateGroups).

(** The selection handleFindDuplicates sets after a successful search. *)
Definition initialSelection (duplicateGroups : list Duplicates.duplicateGroup)
    : gmap string string :=
  fold_left
    (fun selection group =>
       if (0 <? length (Duplicates.g_files group))%nat
       then <[keyOf (Duplicates.g_hash group) := "newest"%string]> selection
       else selection)
    duplicateGroups ∅.

End Renderer.

(** ** The classifier of the preload script *)

Module Preload.
Import Classifier.

(** api.analyzeFile of preload.js (and analyzeFile of electronMock.ts, the
    same text): the classifier with its two thresholds fixed. [now] is
    what [new Date()] returns. *)
Definition analyzeFile (now : Z) (file : fileData) : analyzed :=
  let OLD_FILE_THRESHOLD_DAYS := 180 in
  let LARGE_FILE_THRESHOLD := 100 * 1024 * 1024 in
  let daysSinceAccessed := (now - f_accessed file) / msPerDay in
  let cats :=
    (if (LARGE_FILE_THRESHOLD <? f_size file)
        && (OLD_FILE_THRESHOLD_DAYS <? daysSinceAccessed)
     then [largeUnused] else [])
    ++ (if JS.array_includes [".tmp"; ".temp"; ".bak"; ".cache"; ".log"]%string
             (f_extension file)
        then [temporary] else [])
    ++ (if JS.array_includes
             [".dmg"; ".exe"; ".pkg"; ".iso"; ".zip"; ".tar"; ".gz"; ".rar"]%string
             (f_extension file)
        then [installer] else [])
    ++ (if matches_duplicate_pattern (f_name file)
        then [potentialDuplicate] else []) in
  {| a_file := file;
     categories := cats;
     isUnneeded := (0 <? length cats)%nat |}.

End Preload.

(** ** More instances of the environment *)

Module Examples.

(** An encoding for the examples: the text itself behind a tag. *)
Definition tagged_base64 : Handlers.BufferLib :=
  {| Handlers.toBase64 := fun data => "base64:" +:+ data |}.

(** A group of two files with the same content, as the duplicate search
    returns it. *)
Definition twin_group : Duplicates.duplicateGroup :=
  {| Duplicates.g_hash := Some "same"%string;
     Duplicates.g_size := 4;
     Duplicates.g_files :=
       [ {| Duplicates.df_path := "/d/x.txt"; Duplicates.df_size := 4;
            Duplicates.df_name := "x.txt"; Duplicates.df_extension := ".txt" |};
         {| Duplicates.df_path := "/d/y.txt"; Duplicates.df_size := 4;
            Duplicates.df_name := "y.txt"; Duplicates.df_extension := ".txt" |} ] |}.

(** Two files of five bytes that differ in the second and the fourth
    byte. *)
Definition look_alikes : list (string * Sample.node) :=
  [ ("/s/one", Sample.text_file "a1b2c");
    ("/s/two", Sample.text_file "a9b8c") ]%string.

(** A directory /t that lists a sub-directory d first and then 500 files;
    d holds one file. *)
Definition crowded : FileSystem :=
  let plain := {| st_isDirectory := false; st_size := 1; st_atime := 0;
                  st_mtime := 0; st_birthtime := 0 |} in
  let folder := {| st_isDirectory := true; st_size := 0; st_atime := 0;
                   st_mtime := 0; st_birthtime := 0 |} in
  {| existsSync := fun _ => true;
     readdir := fun p =>
       if String.eqb p "/t" then
         Some ({| d_name := "d"; d_isDirectory := true |}
               :: map (fun i : nat =>
                         {| d_name := "f" +:+ pretty i; d_isDirectory := false |})
                    (seq 0 500))
       else if String.eqb p "/t/d" then
         Some [{| d_name := "x"; d_isDirectory := false |}]
       else None;
     stat := fun p =>
       Some (if String.eqb p "/t" || String.eqb p "/t/d" then folder else plain);
     readFile := fun _ => None |}.

End Examples.

(** * Properties *)

(** ** JavaScript maps and sorting *)

Section JsMapFacts.
Context {K V : Type} `{EqDecision K}.
Implicit Types (m : list (K * list V)) (items : list (K * V)).

Lemma map_get_push m k v k' :
  JS.map_get (JS.map_push m k v) k'
  = if decide (k = k') then Some (default [] (JS.map_get m k) ++ [v])
    else JS.map_get m k'.
Proof.
  induction m as [|[k0 vs] m IH]; simpl.
  - repeat case_decide; congruence.
  - destruct (decide (k0 = k)) as [->|Hne]; simpl.
    + repeat case_decide; congruence.
    + rewrite IH. repeat case_decide; congruence.
Qed.

Lemma map_push_keys m k v :
  (JS.map_push m k v).*1
  = match JS.map_get m k with
    | Some _ => m.*1
    | None => m.*1 ++ [k]
    end.
Proof.
  induction m as [|[k0 vs] m IH]; csimpl; [reflexivity|].
  destruct (decide (k0 = k)) as [->|Hne]; csimpl; [reflexivity|].
  rewrite IH. now destruct (JS.map_get m k).
Qed.

Lemma map_get_None m k : JS.map_get m k = None <-> k ∉ m.*1.
Proof.
  induction m as [|[k0 vs] m IH]; csimpl.
  - split; [intros _; apply not_elem_of_nil|reflexivity].
  - rewrite not_elem_of_cons. destruct (decide (k0 = k)) as [->|Hne].
    + split; [discriminate|intros [? _]; congruence].
    + rewrite IH. split; [intros ?; split; congruence|tauto].
Qed.

Lemma map_push_NoDup m k v : NoDup m.*1 -> NoDup (JS.map_push m k v).*1.
Proof.
  intros Hm. rewrite map_push_keys.
  destruct (JS.map_get m k) eqn:E; [assumption|].
  apply NoDup_app. split; [assumption|]. split; [|apply NoDup_singleton].
  apply map_get_None in E. intros x Hx Hk. apply list_elem_of_singleton in Hk.
  now subst.
Qed.

Lemma map_get_elem_of m k vs :
  NoDup m.*1 -> (k, vs) ∈ m <-> JS.map_get m k = Some vs.
Proof.
  induction m as [|[k0 vs0] m IH]; csimpl; intros Hm.
  - split; [intros H'; inversion H'|discriminate].
  - apply NoDup_cons in Hm as [Hk0 Hm]. rewrite elem_of_cons.
    destruct (decide (k0 = k)) as [->|Hne].
    + split.
      * intros [E|Hin]; [congruence|].
        exfalso. apply Hk0. apply list_elem_of_fmap. now exists (k, vs).
      * intros E. left. congruence.
    + rewrite <- (IH Hm). split; [intros [E|?]; [congruence|assumption]|auto].
Qed.

Lemma map_push_all_NoDup m items :
  NoDup m.*1 -> NoDup (JS.map_push_all m items).*1.
Proof.
  revert m. induction items as [|[k v] items IH]; intros m Hm; simpl; [assumption|].
  apply IH. now apply map_push_NoDup.
Qed.

Lemma pushed_app items1 items2 k :
  JS.pushed (items1 ++ items2) k = JS.pushed items1 k ++ JS.pushed items2 k.
Proof. unfold JS.pushed. now rewrite filter_app, fmap_app. Qed.

(** The array under a key after a run of pushes: what was there, then the
    values pushed under the key, in order. *)
Lemma map_get_push_all m items k :
  JS.map_get (JS.map_push_all m items) k
  = match JS.map_get m k, JS.pushed items k with
    | None, [] => None
    | o, l => Some (default [] o ++ l)
    end.
Proof.
  revert m. induction items as [|[k0 v] items IH]; intros m.
  - unfold JS.pushed; simpl. destruct (JS.map_get m k); simpl; [|reflexivity].
    now rewrite app_nil_r.
  - change (JS.map_push_all m ((k0, v) :: items))
      with (JS.map_push_all (JS.map_push m k0 v) items).
    rewrite IH, map_get_push.
    unfold JS.pushed. rewrite filter_cons. simpl.
    destruct (decide (k0 = k)) as [->|Hne]; simpl.
    + destruct (JS.map_get m k) as [vs|]; simpl.
      * now rewrite <- app_assoc.
      * reflexivity.
    + reflexivity.
Qed.

Lemma map_get_push_all_empty items k :
  JS.map_get (JS.map_push_all [] items) k
  = match JS.pushed items k with
    | [] => None
    | l => Some l
    end.
Proof. rewrite map_get_push_all. simpl. now destruct (JS.pushed items k). Qed.

End JsMapFacts.

Section SortFacts.
Context {A : Type} (key : A -> Z).

Lemma insert_desc_Permutation (x : A) (l : list A) :
  JS.insert_desc key x l ≡ₚ x :: l.
Proof.
  induction l as [|y l IH]; simpl; [reflexivity|].
  destruct (key y <=? key x); [reflexivity|].
  rewrite IH. apply Permutation_swap.
Qed.

Lemma sort_desc_Permutation (l : list A) : JS.sort_desc key l ≡ₚ l.
Proof.
  induction l as [|x l IH]; simpl; [reflexivity|].
  unfold JS.sort_desc in *. simpl. now rewrite insert_desc_Permutation, IH.
Qed.

Lemma sumZ_Permutation (l1 l2 : list Z) : l1 ≡ₚ l2 -> JS.sumZ l1 = JS.sumZ l2.
Proof.
  induction 1; simpl; unfold JS.sumZ in *; simpl; lia.
Qed.

End SortFacts.

(** ** Classifier *)

Section ClassifierFacts.
Import Classifier.

Lemma isUnneeded_iff_tagged now cfg file :
  isUnneeded (analyzeFile now cfg file) = true
  <-> categories (analyzeFile now cfg file) <> [].
Proof.
  unfold analyzeFile; cbn [categories isUnneeded].
  match goal with |- context [length ?l] => destruct l as [|c l'] end;
    simpl; split; intros H; done.
Qed.

(** C8, as stated, fails: two calls with the same record and the same
    thresholds, made at different times, return different categories. A
    200 MB file read at day 0 is not stale on day 100 and is stale on day
    400. *)
Lemma analyzeFile_depends_on_clock :
  ~ (forall (now1 now2 : Z) (cfg : config) (file : fileData),
       categories (analyzeFile now1 cfg file)
       = categories (analyzeFile now2 cfg file)
       /\ isUnneeded (analyzeFile now1 cfg file)
          = isUnneeded (analyzeFile now2 cfg file)).
Proof.
  intros H.
  destruct (H (100 * msPerDay) (400 * msPerDay) (Sample.config_depth 10)
              Sample.big_old_file) as [Hc _].
  vm_compute in Hc. discriminate.
Qed.

(** C8 (amended): classification is a function of the record, the
    thresholds and the reading of the clock. Two calls made at the same
    reading, on records that agree in size, access time, extension and name
    and with the same two thresholds, return the same categories and the
    same flag, whatever else differs; and the flag is set exactly when there
    is a category. The temporary, installer and potentialDuplicate tags do
    not depend on the clock. *)
Theorem analyzeFile_function_of_record_thresholds_clock :
  forall (now : Z) (cfg cfg' : config) (file file' : fileData),
    f_size file = f_size file' ->
    f_accessed file = f_accessed file' ->
    f_extension file = f_extension file' ->
    f_name file = f_name file' ->
    scanSizeThreshold cfg = scanSizeThreshold cfg' ->
    scanAgeThreshold cfg = scanAgeThreshold cfg' ->
    categories (analyzeFile now cfg file) = categories (analyzeFile now cfg' file')
    /\ isUnneeded (analyzeFile now cfg file) = isUnneeded (analyzeFile now cfg' file')
    /\ (isUnneeded (analyzeFile now cfg file) = true
        <-> categories (analyzeFile now cfg file) <> [])
    /\ forall (later : Z) (c : category),
         c <> largeUnused ->
         (In c (categories (analyzeFile now cfg file))
          <-> In c (categories (analyzeFile later cfg file))).
Proof.
  intros now cfg cfg' file file' Hs Ha He Hn Hts Hta.
  assert (Hcat : categories (analyzeFile now cfg file)
                 = categories (analyzeFile now cfg' file')).
  { unfold analyzeFile; simpl. rewrite Hs, Ha, He, Hn, Hts, Hta. reflexivity. }
  split; [exact Hcat|]. split.
  { unfold analyzeFile in *; simpl in *. now rewrite Hcat. }
  split; [apply isUnneeded_iff_tagged|].
  intros later c Hc. unfold analyzeFile; simpl.
  rewrite !in_app_iff.
  destruct (_ && (_ <? (now - _) / _)), (_ && (_ <? (later - _) / _));
    simpl; intuition congruence.
Qed.

(** The theorem at work: a large file last read long ago, and the same
    record under another path, classified at the same clock reading under
    two configurations that differ only in the scan depth. *)
Lemma analyzeFile_function_of_record_thresholds_clock_witness :
  categories (analyzeFile (400 * msPerDay) (Sample.config_depth 10)
                Sample.big_old_file)
  = categories (analyzeFile (400 * msPerDay) (Sample.config_depth 3)
                  Sample.big_old_file_moved).
Proof.
  exact (proj1 (analyzeFile_function_of_record_thresholds_clock
                  (400 * msPerDay) (Sample.config_depth 10)
                  (Sample.config_depth 3) Sample.big_old_file
                  Sample.big_old_file_moved
                  eq_refl eq_refl eq_refl eq_refl eq_refl eq_refl)).
Defined.

End ClassifierFacts.

(** *** The tags of a file, and the classifier of the preload script *)

Section ClassifierTags.
Import Classifier.

Lemma temporary_not_installer (extension : string) :
  JS.array_includes tempExtensions extension = true ->
  JS.array_includes downloadExtensions extension = false.
Proof.
  unfold JS.array_includes, tempExtensions, downloadExtensions. simpl.
  repeat match goal with
         | |- context [String.eqb extension ?s] =>
             destruct (String.eqb_spec extension s); [subst extension; simpl|]
         end;
    simpl; congruence.
Qed.

(** A file is never tagged both temporary and installer (no extension is
    in both lists); its categories are distinct, at most three, and in the
    order largeUnused, temporary, installer, potentialDuplicate. *)
Theorem analyzeFile_tags :
  forall (now : Z) (cfg : config) (file : fileData),
    let cats := categories (analyzeFile now cfg file) in
    ~ (temporary ∈ cats /\ installer ∈ cats)
    /\ NoDup cats
    /\ (length cats <= 3)%nat
    /\ cats `sublist_of` [largeUnused; temporary; installer; potentialDuplicate].
Proof.
  intros now cfg file. unfold analyzeFile. cbv zeta. cbn [categories].
  pose proof (temporary_not_installer (f_extension file)) as Hx.
  destruct (_ && _);
    destruct (JS.array_includes tempExtensions (f_extension file));
    destruct (JS.array_includes downloadExtensions (f_extension file));
    destruct (matches_duplicate_pattern (f_name file));
    try (specialize (Hx eq_refl); discriminate);
    simpl;
    (split; [intros [H1%list_elem_of_In H2%list_elem_of_In]; simpl in *;
             intuition congruence|]);
    (split; [apply (bool_decide_unpack _); vm_compute; exact I|]);
    (split; [lia|]);
    repeat first [ apply sublist_nil | apply sublist_skip | apply sublist_cons ].
Qed.

End ClassifierTags.

Section PreloadFacts.
Import Classifier.

(** The classifier of the preload script and the classifier of the main
    process agree whenever the two thresholds of the configuration are
    the defaults, 100 MB and 180 days, or are 0: in particular under the
    configuration the 'scan-directory' handler builds when the renderer
    sets neither threshold. *)
Theorem preload_analyzeFile_agrees_at_default_thresholds :
  forall (now : Z) (cfg : config) (file : fileData),
    scanSizeThreshold cfg = 0 \/ scanSizeThreshold cfg = 100 * 1024 * 1024 ->
    scanAgeThreshold cfg = 0 \/ scanAgeThreshold cfg = 180 ->
    analyzeFile now cfg file = Preload.analyzeFile now file.
Proof.
  intros now cfg file Hs Ha. unfold analyzeFile, Preload.analyzeFile.
  assert (Es : JS.num_or (scanSizeThreshold cfg) (100 * 1024 * 1024)
               = 100 * 1024 * 1024).
  { unfold JS.num_or. destruct Hs as [->| ->]; reflexivity. }
  assert (Ea : JS.num_or (scanAgeThreshold cfg) 180 = 180).
  { unfold JS.num_or. destruct Ha as [->| ->]; reflexivity. }
  cbv zeta. rewrite Es, Ea. reflexivity.
Qed.

End PreloadFacts.

(** The theorem at work: a large old file under the configuration the
    handler builds when the renderer sets nothing. *)
Lemma preload_analyzeFile_agrees_at_default_thresholds_witness :
  Classifier.analyzeFile (400 * Classifier.msPerDay)
    (Scanner.makeConfig Sample.no_settings) Sample.big_old_file
  = Preload.analyzeFile (400 * Classifier.msPerDay) Sample.big_old_file.
Proof.
  apply preload_analyzeFile_agrees_at_default_thresholds.
  - right. reflexivity.
  - right. reflexivity.
Defined.

(** ** Scanner *)

(** *** Termination of the loops and the depth bound *)

Section ScanFacts.
Import Scanner.
Context {P : PathLib} {F : FileSystem}.
Variable mainWindow : bool.
Variable clock : nat -> Z.

Lemma acceptFile_frame cfg fd s :
  let s' := acceptFile mainWindow clock cfg fd s in
  pendingDirectories s' = pendingDirectories s
  /\ currentDepth s' = currentDepth s
  /\ visitedDirs s' = visitedDirs s.
Proof.
  unfold acceptFile. destruct (reporter s); destruct (_ && _); simpl; auto.
Qed.

Lemma scanEntry_frame cfg dir s entry :
  let s' := scanEntry mainWindow clock cfg dir s entry in
  currentDepth s' = currentDepth s
  /\ visitedDirs s' = visitedDirs s
  /\ (pendingDirectories s' = pendingDirectories s
      \/ pendingDirectories s'
         = pendingDirectories s ++ [path_join dir (d_name entry)]).
Proof.
  unfold scanEntry. repeat case_match; simpl; auto.
  destruct (acceptFile_frame cfg
              {| f_path := path_join dir (d_name entry);
                 f_name := d_name entry; f_size := st_size s0;
                 f_accessed := st_atime s0; f_modified := st_mtime s0;
                 f_created := st_birthtime s0;
                 f_extension := JS.toLowerCase (path_extname (d_name entry)) |}
              s) as (-> & -> & ->).
  auto.
Qed.

Lemma scanEntries_depth cfg dir entries s :
  currentDepth (fold_left (scanEntry mainWindow clock cfg dir) entries s)
  = currentDepth s.
Proof.
  revert s. induction entries as [|entry entries IH]; intros s; simpl; [reflexivity|].
  rewrite IH. apply scanEntry_frame.
Qed.

Lemma scanOneDirectory_depth cfg dir s :
  currentDepth (scanOneDirectory mainWindow clock cfg dir s) = currentDepth s + 1.
Proof.
  unfold scanOneDirectory. simpl.
  destruct (readdir dir); [rewrite scanEntries_depth|]; reflexivity.
Qed.

(** The fuel scanDirectory gives the loop is enough: more fuel changes
    nothing. *)
Lemma scanLoop_enough_fuel cfg (fuel extra : nat) (s : scanState) :
  maxDepth cfg + 1 - currentDepth s <= Z.of_nat fuel ->
  scanLoop mainWindow clock (fuel + extra) cfg s
  = scanLoop mainWindow clock fuel cfg s.
Proof.
  revert s. induction fuel as [|fuel IH]; intros s Hfuel.
  - simpl. destruct extra as [|extra]; [reflexivity|]. simpl.
    destruct (currentDepth s <=? maxDepth cfg) eqn:E; [|reflexivity].
    apply Z.leb_le in E. lia.
  - simpl. destruct (currentDepth s <=? maxDepth cfg); [|reflexivity].
    destruct (shiftUnvisited _ _) as [[dir rest]|]; [|reflexivity].
    apply IH. rewrite scanOneDirectory_depth. simpl. lia.
Qed.

Lemma scanDirectory_enough_fuel dir progress cfg (extra : nat) :
  scanLoop mainWindow clock (Z.to_nat (maxDepth cfg + 1) + extra) cfg
    (initialState dir progress)
  = scanDirectory mainWindow clock dir progress cfg.
Proof. apply scanLoop_enough_fuel. simpl. lia. Qed.

Lemma fold_left_agree {A B} (f g : A -> B -> A) (l : list B) (a : A) :
  (forall a0 x, f a0 x = g a0 x) -> fold_left f l a = fold_left g l a.
Proof.
  intros H. revert a. induction l as [|x l IH]; intros a; simpl; [reflexivity|].
  now rewrite H, IH.
Qed.

(** The same for the recursion of countFiles. *)
Lemma countFiles_enough_fuel (fuel extra : nat) dir (maxDepth0 current : Z) :
  maxDepth0 + 1 - current <= Z.of_nat fuel ->
  countFiles_rec (fuel + extra) dir maxDepth0 current
  = countFiles_rec fuel dir maxDepth0 current.
Proof.
  revert dir current. induction fuel as [|fuel IH]; intros dir current Hfuel.
  - destruct extra as [|extra]; [reflexivity|]. simpl.
    destruct (maxDepth0 <? current) eqn:E; [reflexivity|].
    apply Z.ltb_ge in E. lia.
  - simpl. destruct (maxDepth0 <? current); [reflexivity|].
    destruct (readdir dir) as [entries|]; [|reflexivity].
    apply fold_left_agree. intros count entry.
    destruct (isSystemPath _); [reflexivity|].
    destruct (d_isDirectory entry); [|reflexivity].
    rewrite IH; [reflexivity|lia].
Qed.


(** *** No file record from below maxDepth *)

Lemma analyzeFiles_files files cfg i :
  Classifier.a_file <$> Classifier.analyzeFiles_from clock i files cfg = files.
Proof.
  revert i. induction files as [|file files IH]; intros i; csimpl; [reflexivity|].
  now rewrite IH.
Qed.

Lemma batchedFiles_app l1 l2 :
  batchedFiles (l1 ++ l2) = batchedFiles l1 ++ batchedFiles l2.
Proof. unfold batchedFiles. now rewrite map_app, concat_app. Qed.

Lemma batchedFiles_report r : batchedFiles (report mainWindow r) = [].
Proof. unfold report. now destruct mainWindow. Qed.

Lemma batchedFiles_batch files cfg b :
  batchedFiles [scan_batch (Classifier.analyzeFiles clock files cfg) b] = files.
Proof.
  unfold batchedFiles, Classifier.analyzeFiles. simpl.
  rewrite app_nil_r. apply (analyzeFiles_files files cfg 0).
Qed.

Lemma acceptFile_files cfg fd s x :
  x ∈ fileStats (acceptFile mainWindow clock cfg fd s)
      ++ batchedFiles (sent (acceptFile mainWindow clock cfg fd s)) ->
  x = fd \/ x ∈ fileStats s ++ batchedFiles (sent s).
Proof.
  unfold acceptFile.
  set (sent1 :=
         (match reporter s with
          | Some r =>
              (Some {| totalFiles := totalFiles r;
                       processedFiles := processedFiles r + 1 |},
               if processedFiles
                    {| totalFiles := totalFiles r;
                       processedFiles := processedFiles r + 1 |} mod 10 =? 0
               then sent s ++ report mainWindow
                                {| totalFiles := totalFiles r;
                                   processedFiles := processedFiles r + 1 |}
               else sent s)
          | None => (None, sent s)
          end)).
  assert (Hsent : batchedFiles sent1.2 = batchedFiles (sent s)).
  { unfold sent1. destruct (reporter s) as [r|]; simpl; [|reflexivity].
    destruct (_ =? 0); [|reflexivity].
    now rewrite batchedFiles_app, batchedFiles_report, app_nil_r. }
  destruct sent1 as [reporter1 sent1']. simpl in Hsent.
  destruct (_ && _); cbn [fileStats sent]; destruct mainWindow;
    rewrite ?batchedFiles_app, ?batchedFiles_batch, ?Hsent;
    rewrite ?elem_of_app, ?list_elem_of_singleton; simpl;
    rewrite ?elem_of_app, ?list_elem_of_singleton; try tauto.
  intros [H|H]; [now apply not_elem_of_nil in H|tauto].
Qed.

Lemma acceptFile_depth_inv root cfg bound fd s :
  shallow root cfg fd -> depth_inv root cfg bound s ->
  depth_inv root cfg bound (acceptFile mainWindow clock cfg fd s).
Proof.
  intros Hfd [Hq Hf]. split.
  - destruct (acceptFile_frame cfg fd s) as (-> & _). exact Hq.
  - intros x Hx. apply acceptFile_files in Hx as [->|Hx]; auto.
Qed.

Lemma scanEntry_depth_inv root cfg bound (d : nat) dir entries s entry :
  levelsBelow root d dir -> Z.of_nat d <= maxDepth cfg -> Z.of_nat d + 1 <= bound ->
  readdir dir = Some entries -> entry ∈ entries ->
  depth_inv root cfg bound s ->
  depth_inv root cfg bound (scanEntry mainWindow clock cfg dir s entry).
Proof.
  intros Hdir Hd Hb Hlist Hentry H. unfold scanEntry.
  destruct (_ && _); [exact H|].
  destruct (stat (path_join dir (d_name entry))) as [st|] eqn:Hstat; [|exact H].
  destruct (st_isDirectory st) eqn:Hisdir.
  - destruct (negb _); [|exact H].
    destruct H as [Hq Hf]. split; simpl; [|exact Hf].
    intros p Hp. apply elem_of_app in Hp as [Hp|Hp]; [now apply Hq|].
    apply list_elem_of_singleton in Hp as ->.
    exists (S d). split; [|lia].
    now apply (below_child _ d dir entries entry st).
  - destruct (_ && _); [exact H|].
    apply acceptFile_depth_inv; [|exact H].
    exists d, dir, entries, entry. auto 10.
Qed.

Lemma scanEntries_depth_inv root cfg bound (d : nat) dir entries todo s :
  levelsBelow root d dir -> Z.of_nat d <= maxDepth cfg -> Z.of_nat d + 1 <= bound ->
  readdir dir = Some entries -> (forall entry, entry ∈ todo -> entry ∈ entries) ->
  depth_inv root cfg bound s ->
  depth_inv root cfg bound
    (fold_left (scanEntry mainWindow clock cfg dir) todo s).
Proof.
  intros Hdir Hd Hb Hlist. revert s.
  induction todo as [|entry todo IH]; intros s Hsub H; simpl; [exact H|].
  apply IH.
  - intros e He. apply Hsub. now right.
  - apply (scanEntry_depth_inv root cfg bound d dir entries); auto.
    apply Hsub. now left.
Qed.

Lemma shiftUnvisited_Some visited queue dir rest :
  shiftUnvisited visited queue = Some (dir, rest) ->
  dir ∈ queue /\ (forall p, p ∈ rest -> p ∈ queue).
Proof.
  induction queue as [|q queue IH]; simpl; [discriminate|].
  destruct (decide (q ∈ visited)).
  - intros H. destruct (IH H) as [H1 H2]. split; [now right|].
    intros p Hp. right. now apply H2.
  - intros H. injection H as -> ->. split; [now left|]. intros p Hp. now right.
Qed.

Lemma scanLoop_depth_inv root cfg fuel s :
  depth_inv root cfg (currentDepth s) s ->
  depth_inv root cfg
    (currentDepth (scanLoop mainWindow clock fuel cfg s))
    (scanLoop mainWindow clock fuel cfg s).
Proof.
  revert s. induction fuel as [|fuel IH]; intros s H; simpl; [exact H|].
  destruct (currentDepth s <=? maxDepth cfg) eqn:E; [|exact H].
  apply Z.leb_le in E.
  destruct (shiftUnvisited _ _) as [[dir rest]|] eqn:Hshift.
  - apply IH. destruct H as [Hq Hf].
    apply shiftUnvisited_Some in Hshift as [Hdir Hrest].
    destruct (Hq dir Hdir) as (d & Hlevel & Hd).
    rewrite scanOneDirectory_depth. simpl.
    unfold scanOneDirectory. simpl.
    match goal with
    | |- depth_inv _ _ _ {| pendingDirectories := pendingDirectories ?x |} =>
        assert (Hx : depth_inv root cfg (currentDepth s + 1) x)
    end.
    { assert (H0 : depth_inv root cfg (currentDepth s + 1)
                     {| pendingDirectories := rest; fileStats := fileStats s;
                        batchCount := batchCount s; currentDepth := currentDepth s;
                        visitedDirs := {[dir]} ∪ visitedDirs s;
                        reporter := reporter s; sent := sent s |}).
      { split; simpl; [|exact Hf].
        intros p Hp. destruct (Hq p (Hrest p Hp)) as (d' & ? & ?).
        exists d'. split; [assumption|lia]. }
      destruct (readdir dir) as [entries|] eqn:Hlist;
        [apply (scanEntries_depth_inv root cfg _ d dir entries); auto; lia
        |exact H0]. }
    exact Hx.
  - destruct H as [Hq Hf]. split; simpl; [|exact Hf].
    intros p Hp. now apply not_elem_of_nil in Hp.
Qed.

End ScanFacts.

Section ScanDepthTheorem.
Import Scanner.
Context {P : PathLib} {F : FileSystem}.

(** Every file record the scan produces, in the returned array or in a
    batch sent on the way, is the record of an entry that readdir lists in
    a directory at most maxDepth levels below the scan root: the directory
    is reached from the root in at most maxDepth steps, each from a
    directory to one of its listed entries that stat reports to be a
    directory; the record's name is the entry's name and its path the
    directory's path joined with that name. *)
Theorem scanDirectory_depth_bound :
  forall (mainWindow : bool) (clock : nat -> Z) (directoryPath : string)
         (progress : option progressReporter) (cfg : config) (fd : fileData),
    let s := scanDirectory mainWindow clock directoryPath progress cfg in
    In fd (fileStats s ++ batchedFiles (sent s)) ->
    exists (d : nat) (parent : string) (entries : list dirent) (entry : dirent),
      levelsBelow directoryPath d parent
      /\ Z.of_nat d <= maxDepth cfg
      /\ readdir parent = Some entries
      /\ entry ∈ entries
      /\ f_path fd = path_join parent (d_name entry)
      /\ f_name fd = d_name entry.
Proof.
  intros mainWindow clock directoryPath progress cfg fd s Hin.
  assert (H : depth_inv directoryPath cfg (currentDepth s) s).
  { apply scanLoop_depth_inv. split; simpl.
    - intros p Hp. apply list_elem_of_singleton in Hp as ->.
      exists O. split; [constructor|lia].
    - intros x Hx. now apply not_elem_of_nil in Hx. }
  destruct H as [_ Hf]. apply Hf. now apply list_elem_of_In.
Qed.

End ScanDepthTheorem.

(** The bound at work, below /r with maxDepth = 1: the file the scan finds
    in /r/a is an entry of a directory at most one level below /r.  The
    levels are those of the tree: the file is no entry of a directory zero
    levels below /r, which is /r itself. *)
Lemma scanDirectory_depth_bound_witness :
  let P := Sample.posix in
  let F := Sample.fs_of Sample.two_branches in
  let listed (bound : Z) (fd : fileData) :=
    exists (d : nat) (parent : string) (entries : list dirent) (entry : dirent),
      Scanner.levelsBelow "/r" d parent
      /\ Z.of_nat d <= bound
      /\ readdir parent = Some entries
      /\ entry ∈ entries
      /\ f_path fd = path_join parent (d_name entry)
      /\ f_name fd = d_name entry in
  let fd := {| f_path := "/r/a/f.txt"; f_name := "f.txt"; f_size := 3;
               f_accessed := 0; f_modified := 0; f_created := 0;
               f_extension := ".txt" |} in
  listed 1 fd /\ ~ listed 0 fd.
Proof.
  intros P F listed fd. split.
  - exact (scanDirectory_depth_bound (P := Sample.posix)
             (F := Sample.fs_of Sample.two_branches) true (fun _ => 0) "/r" None
             (Sample.config_depth 1) fd
             ltac:(vm_compute; left; reflexivity)).
  - intros (d & parent & entries & entry & Hlevel & Hd & Hlist & Hentry & Hpath & _).
    destruct d as [|d]; [|lia].
    inversion Hlevel; subst parent.
    vm_compute in Hlist. injection Hlist as <-.
    apply list_elem_of_In in Hentry.
    destruct Hentry as [<-|[<-|[]]]; vm_compute in Hpath; discriminate Hpath.
Defined.

Section ScanTermination.
Import Scanner.
Context {P : PathLib} {F : FileSystem}.

Lemma scanLoop_exits (mainWindow : bool) (clock : nat -> Z) (cfg : config)
    (fuel : nat) (s : scanState) :
  0 <= currentDepth s ->
  maxDepth cfg + 1 - currentDepth s <= Z.of_nat fuel ->
  let s' := scanLoop mainWindow clock fuel cfg s in
  (pendingDirectories s' = [] \/ maxDepth cfg < currentDepth s')
  /\ currentDepth s' <= Z.max (currentDepth s) (maxDepth cfg + 1).
Proof.
  revert s. induction fuel as [|fuel IH]; intros s H0 Hfuel; simpl.
  - split; [right|]; lia.
  - destruct (currentDepth s <=? maxDepth cfg) eqn:E.
    + apply Z.leb_le in E.
      destruct (shiftUnvisited _ _) as [[dir rest]|]; simpl.
      * match goal with
        | |- context [scanLoop _ _ fuel cfg ?x] =>
            destruct (IH x) as [H1 H2]
        end.
        { rewrite scanOneDirectory_depth. simpl. lia. }
        { rewrite scanOneDirectory_depth. simpl. lia. }
        rewrite scanOneDirectory_depth in H2. simpl in H2.
        split; [exact H1|lia].
      * split; [now left|lia].
    + apply Z.leb_gt in E. split; [right|]; lia.
Qed.

(** The while loop of scanDirectory ends: in the state it returns, the
    queue is empty or currentDepth has passed maxDepth. This holds for any
    file system, with cycles of links or without, because every iteration
    that reads a directory increments currentDepth: the scan reads at most
    maxDepth + 1 directories. *)
Theorem scanDirectory_terminates :
  forall (mainWindow : bool) (clock : nat -> Z) (directoryPath : string)
         (progress : option progressReporter) (cfg : config),
    let s := scanDirectory mainWindow clock directoryPath progress cfg in
    (pendingDirectories s = [] \/ maxDepth cfg < currentDepth s)
    /\ currentDepth s <= Z.max 0 (maxDepth cfg + 1).
Proof.
  intros mainWindow clock directoryPath progress cfg.
  apply (scanLoop_exits mainWindow clock cfg); simpl; lia.
Qed.

End ScanTermination.

Section ScanSize.
Import Scanner.
Context {P : PathLib} {F : FileSystem}.

(** scanDirectory itself treats a size limit of 0 (or less) as no limit:
    with such a configuration an entry that passes the dot-file rule and is
    not a directory is accepted whatever its size. *)
Theorem scanEntry_no_limit_accepts_every_size :
  forall (mainWindow : bool) (clock : nat -> Z) (cfg : config)
         (currentDir : string) (s : scanState) (entry : dirent) (st : stats),
    ignoreSizeAbove cfg <= 0 ->
    ignoreDotFiles cfg && JS.startsWith (d_name entry) "."
      && negb (includeHiddenFiles cfg) = false ->
    stat (path_join currentDir (d_name entry)) = Some st ->
    st_isDirectory st = false ->
    scanEntry mainWindow clock cfg currentDir s entry
    = acceptFile mainWindow clock cfg
        {| f_path := path_join currentDir (d_name entry);
           f_name := d_name entry;
           f_size := st_size st;
           f_accessed := st_atime st;
           f_modified := st_mtime st;
           f_created := st_birthtime st;
           f_extension := JS.toLowerCase (path_extname (d_name entry)) |}
        s.
Proof.
  intros mainWindow clock cfg currentDir s entry st Hlimit Hdot Hstat Hdir.
  unfold scanEntry. rewrite Hdot, Hstat, Hdir.
  destruct (0 <? ignoreSizeAbove cfg) eqn:E; [|reflexivity].
  apply Z.ltb_lt in E. lia.
Qed.

End ScanSize.

(** The 2 GiB file is accepted by scanEntry when the limit is 0. *)
Lemma scanEntry_no_limit_accepts_every_size_witness :
  map f_path
    (Scanner.fileStats
       (Scanner.scanEntry (P := Sample.posix) (F := Sample.fs_of Sample.big_dir)
          true (fun _ => 0) (Sample.config_depth 10) "/big"
          (Scanner.initialState "/big" None)
          {| d_name := "huge.iso"; d_isDirectory := false |}))
  = ["/big/huge.iso"]%string.
Proof.
  rewrite (scanEntry_no_limit_accepts_every_size (P := Sample.posix)
             (F := Sample.fs_of Sample.big_dir) true (fun _ => 0)
             (Sample.config_depth 10) "/big" (Scanner.initialState "/big" None)
             {| d_name := "huge.iso"; d_isDirectory := false |}
             {| st_isDirectory := false; st_size := 2 * 1024 * 1024 * 1024;
                st_atime := 0; st_mtime := 0; st_birthtime := 0 |}
             ltac:(vm_compute; discriminate) eq_refl eq_refl eq_refl).
  vm_compute. reflexivity.
Defined.

(** *** The scan at the inputs where it leaves the specification *)

(** C2. A root with two sub-directories, one file in each, scanned with
    maxDepth = 1: both sub-directories are one level below the root, yet
    only the first is read, because currentDepth is incremented for every
    directory taken off the queue (it is 2 when the loop stops), not once
    per level. With maxDepth = 2 both files are found. *)
Theorem scanDirectory_counts_directories_not_levels :
  forall (mainWindow : bool) (clock : nat -> Z),
    map f_path
      (Scanner.fileStats
         (Scanner.scanDirectory (P := Sample.posix)
            (F := Sample.fs_of Sample.two_branches) mainWindow clock
            "/r" None (Sample.config_depth 1)))
    = ["/r/a/f.txt"]%string
    /\ Scanner.currentDepth
         (Scanner.scanDirectory (P := Sample.posix)
            (F := Sample.fs_of Sample.two_branches) mainWindow clock
            "/r" None (Sample.config_depth 1))
       = 2
    /\ map f_path
         (Scanner.fileStats
            (Scanner.scanDirectory (P := Sample.posix)
               (F := Sample.fs_of Sample.two_branches) mainWindow clock
               "/r" None (Sample.config_depth 2)))
       = ["/r/a/f.txt"; "/r/b/g.txt"]%string.
Proof. intros mainWindow clock. repeat split; vm_compute; reflexivity. Qed.

(** C6. The handler turns a size limit of 0 into the default of 1024 MB, so
    a file of 2 GiB is left out of the results; scanDirectory itself, given
    a limit of 0, keeps the file. *)
Theorem scanHandler_size_limit_zero_is_one_gigabyte :
  forall (mainWindow : bool) (clock : nat -> Z),
    ignoreSizeAbove (Scanner.makeConfig Sample.no_size_limit) = 1024 * 1024 * 1024
    /\ Scanner.r_data
         (Scanner.scanDirectoryHandler (P := Sample.posix)
            (F := Sample.fs_of Sample.big_dir) mainWindow clock
            "/big" Sample.no_size_limit)
       = []
    /\ map f_path
         (Scanner.fileStats
            (Scanner.scanDirectory (P := Sample.posix)
               (F := Sample.fs_of Sample.big_dir) mainWindow clock
               "/big" None (Sample.config_depth 10)))
       = ["/big/huge.iso"]%string.
Proof. intros mainWindow clock. repeat split; vm_compute; reflexivity. Qed.

(** *** Progress reports *)

Section ProgressFacts.
Import Scanner.
Context {P : PathLib} {F : FileSystem}.
Variable mainWindow : bool.
Variable clock : nat -> Z.

Lemma round_percent_mono (p q t : Z) :
  0 < t -> p <= q -> JS.round_percent p t <= JS.round_percent q t.
Proof.
  intros Ht Hpq. unfold JS.round_percent. apply Z.div_le_mono; lia.
Qed.

Lemma round_percent_zero (t : Z) : 0 < t -> JS.round_percent 0 t = 0.
Proof.
  intros Ht. unfold JS.round_percent. apply Z.div_small. lia.
Qed.

Lemma round_percent_full (t : Z) : 0 < t -> JS.round_percent t t = 100.
Proof.
  intros Ht. unfold JS.round_percent.
  symmetry. apply (Z.div_unique _ _ 100 t); lia.
Qed.

Lemma percent_mono (p q t : Z) : p <= q -> percent p t <= percent q t.
Proof.
  intros Hpq. unfold percent. destruct (0 <? t) eqn:E; [|lia].
  apply round_percent_mono; [|assumption]. now apply Z.ltb_lt.
Qed.

Lemma StronglySorted_fmap_mono (f : Z -> Z) (l : list Z) :
  (forall x y, x <= y -> f x <= f y) ->
  StronglySorted Z.le l -> StronglySorted Z.le (f <$> l).
Proof.
  intros Hf. induction 1 as [|x l _ IH Hx]; csimpl; constructor.
  - exact IH.
  - rewrite Forall_fmap. eapply Forall_impl; [exact Hx|].
    intros y Hy. simpl. now apply Hf.
Qed.

Lemma counts_app l1 l2 : counts (l1 ++ l2) = counts l1 ++ counts l2.
Proof. unfold counts. apply omap_app. Qed.

Lemma percentages_app l1 l2 :
  percentages (l1 ++ l2) = percentages l1 ++ percentages l2.
Proof. unfold percentages. apply omap_app. Qed.

Lemma report_counts r :
  counts (report mainWindow r) = (if mainWindow then [processedFiles r] else [])
  /\ percentages (report mainWindow r)
     = (if mainWindow then [percent (processedFiles r) (totalFiles r)] else []).
Proof. unfold report. destruct mainWindow; split; reflexivity. Qed.

Lemma acceptFile_inv total cfg fd s :
  progress_inv total s -> progress_inv total (acceptFile mainWindow clock cfg fd s).
Proof.
  intros (r & Hr & Ht & Hp & Hpc & Hs & Hb).
  unfold acceptFile. rewrite Hr.
  set (r' := {| totalFiles := totalFiles r; processedFiles := processedFiles r + 1 |}).
  set (sent1 := if processedFiles r' mod 10 =? 0 then sent s ++ report mainWindow r'
                else sent s).
  assert (H1 : percentages sent1 = (fun p => percent p total) <$> counts sent1
               /\ StronglySorted Z.le (counts sent1)
               /\ Forall (fun p => 0 <= p <= processedFiles r') (counts sent1)).
  { unfold sent1. destruct (_ =? 0).
    - rewrite counts_app, percentages_app.
      destruct (report_counts r') as [-> ->]. simpl.
      destruct mainWindow.
      + rewrite fmap_app, Hpc, Ht. split; [reflexivity|]. split.
        * apply StronglySorted_app. split; [|split; [assumption|repeat constructor]].
          intros x1 x2 Hx1 Hx2. apply list_elem_of_singleton in Hx2 as ->.
          rewrite Forall_forall in Hb. apply Hb in Hx1. lia.
        * apply Forall_app. split; [|repeat constructor; lia].
          eapply Forall_impl; [exact Hb|]. simpl. intros; lia.
      + rewrite !app_nil_r. split; [assumption|]. split; [assumption|].
        eapply Forall_impl; [exact Hb|]. simpl. intros; lia.
    - split; [assumption|]. split; [assumption|].
      eapply Forall_impl; [exact Hb|]. simpl. intros; lia. }
  destruct H1 as (H1 & H2 & H3).
  destruct (_ && _); exists r'; simpl; (split; [reflexivity|]);
    (split; [assumption|]); (split; [lia|]).
  - destruct mainWindow; [|auto].
    rewrite counts_app, percentages_app. simpl. rewrite !app_nil_r. auto.
  - auto.
Qed.

Lemma scanEntry_inv total cfg dir s entry :
  progress_inv total s ->
  progress_inv total (scanEntry mainWindow clock cfg dir s entry).
Proof.
  intros H. unfold scanEntry.
  repeat case_match; try assumption; try (now apply acceptFile_inv).
Qed.

Lemma scanEntries_inv total cfg dir entries s :
  progress_inv total s ->
  progress_inv total (fold_left (scanEntry mainWindow clock cfg dir) entries s).
Proof.
  revert s. induction entries as [|entry entries IH]; intros s H; simpl.
  - assumption.
  - apply IH. now apply scanEntry_inv.
Qed.

Lemma scanOneDirectory_inv total cfg dir s :
  progress_inv total s ->
  progress_inv total (scanOneDirectory mainWindow clock cfg dir s).
Proof.
  intros H. unfold scanOneDirectory.
  match goal with
  | |- progress_inv _ {| pendingDirectories := pendingDirectories ?x |} =>
      assert (Hx : progress_inv total x)
  end.
  { destruct (readdir dir); [apply scanEntries_inv|]; exact H. }
  exact Hx.
Qed.

Lemma scanLoop_inv total fuel cfg s :
  progress_inv total s ->
  progress_inv total (scanLoop mainWindow clock fuel cfg s).
Proof.
  revert s. induction fuel as [|fuel IH]; intros s H; simpl; [assumption|].
  destruct (currentDepth s <=? maxDepth cfg); [|assumption].
  destruct (shiftUnvisited _ _) as [[dir rest]|]; [|exact H].
  apply IH. apply scanOneDirectory_inv. exact H.
Qed.

Lemma scanDirectory_inv total dir cfg :
  progress_inv total
    (scanDirectory mainWindow clock dir
       (Some {| totalFiles := total; processedFiles := 0 |}) cfg).
Proof.
  apply scanLoop_inv. eexists. repeat split; simpl; try reflexivity; try lia.
  - constructor.
  - constructor.
Qed.

End ProgressFacts.

Section ProgressTheorem.
Import Scanner.
Context {P : PathLib} {F : FileSystem}.
Variable clock : nat -> Z.

(** C5 (amended). With the window present: if the estimate of the pre-pass
    is positive, the final progress report of the scan handler has
    percentage exactly 100; if moreover the scan discovers no more files
    than the estimate, every reported percentage lies between 0 and 100 and
    the percentages never decrease. *)
Theorem scan_progress_within_estimate :
  forall (directoryPath : string) (sc : scanConfig),
    let cfg := makeConfig sc in
    let total := countFiles directoryPath (maxDepth cfg) in
    let ps := percentages
                (r_sent (scanDirectoryHandler true clock directoryPath sc)) in
    0 < total ->
    last ps = Some 100
    /\ (filesDiscovered true clock directoryPath total cfg <= total ->
        StronglySorted Z.le ps /\ Forall (fun x => 0 <= x <= 100) ps).
Proof.
  intros directoryPath sc cfg total ps Htotal.
  destruct (scanDirectory_inv true clock total directoryPath cfg)
    as (r & Hr & Ht & Hp & Hpc & Hs & Hb).
  set (s := scanDirectory true clock directoryPath
              (Some {| totalFiles := total; processedFiles := 0 |}) cfg) in *.
  assert (Hps : ps = (fun p => percent p total)
                     <$> ([0] ++ counts (sent s) ++ [total])).
  { unfold ps, scanDirectoryHandler. fold cfg. fold total. simpl. fold s.
    destruct (negb _); simpl; rewrite ?percentages_app; simpl;
      rewrite ?percentages_app; simpl; rewrite Hpc, ?app_nil_r;
      rewrite !fmap_app; reflexivity. }
  assert (Hfull : percent total total = 100).
  { unfold percent. apply Z.ltb_lt in Htotal. rewrite Htotal.
    apply round_percent_full. now apply Z.ltb_lt. }
  split.
  - rewrite Hps, app_assoc, fmap_app.
    change ((fun p => percent p total) <$> [total]) with [percent total total].
    now rewrite last_snoc, Hfull.
  - intros Hn. unfold filesDiscovered in Hn. fold s in Hn. rewrite Hr in Hn.
    assert (Hsorted : StronglySorted Z.le ([0] ++ counts (sent s) ++ [total])).
    { apply StronglySorted_app. split; [|split; [repeat constructor|]].
      - intros x1 x2 Hx1 Hx2. apply list_elem_of_singleton in Hx1 as ->.
        apply elem_of_app in Hx2 as [Hx2|Hx2].
        + rewrite Forall_forall in Hb. apply Hb in Hx2. lia.
        + apply list_elem_of_singleton in Hx2 as ->. lia.
      - apply StronglySorted_app. split; [|split; [assumption|repeat constructor]].
        intros x1 x2 Hx1 Hx2. apply list_elem_of_singleton in Hx2 as ->.
        rewrite Forall_forall in Hb. apply Hb in Hx1. lia. }
    assert (Hrange : Forall (fun p => 0 <= p <= total)
                       ([0] ++ counts (sent s) ++ [total])).
    { apply Forall_app. split; [repeat constructor; lia|].
      apply Forall_app. split; [|repeat constructor; lia].
      eapply Forall_impl; [exact Hb|]. simpl. intros; lia. }
    rewrite Hps. split.
    + apply StronglySorted_fmap_mono; [|exact Hsorted].
      intros x y Hxy. now apply percent_mono.
    + rewrite Forall_fmap. eapply Forall_impl; [exact Hrange|].
      intros p [Hp0 Hpt]. simpl. split.
      * replace 0 with (percent 0 total) at 1.
        -- now apply percent_mono.
        -- unfold percent. destruct (0 <? total) eqn:E; [|reflexivity].
           apply round_percent_zero. now apply Z.ltb_lt.
      * rewrite <- Hfull. now apply percent_mono.
Qed.

End ProgressTheorem.

(** The theorem at work on the tree with two branches (two files, estimate
    2, both found). *)
Lemma scan_progress_within_estimate_witness :
  last (Scanner.percentages
          (Scanner.r_sent
             (Scanner.scanDirectoryHandler (P := Sample.posix)
                (F := Sample.fs_of Sample.two_branches) true (fun _ => 0)
                "/r" Sample.no_settings)))
  = Some 100
  /\ Forall (fun x => 0 <= x <= 100)
       (Scanner.percentages
          (Scanner.r_sent
             (Scanner.scanDirectoryHandler (P := Sample.posix)
                (F := Sample.fs_of Sample.two_branches) true (fun _ => 0)
                "/r" Sample.no_settings))).
Proof.
  destruct (scan_progress_within_estimate (P := Sample.posix)
              (F := Sample.fs_of Sample.two_branches) (fun _ => 0)
              "/r" Sample.no_settings ltac:(vm_compute; reflexivity))
    as [Hlast Hrest].
  split; [exact Hlast|].
  apply Hrest. vm_compute. discriminate.
Defined.

(** C5, as stated, fails. For an empty directory the estimate is 0 and the
    final report is 0 percent. For a directory where countFiles passes over
    ten of eleven files, the report at ten files is 1000 percent and the
    final report falls back to 100. *)
Lemma scan_progress_not_clamped :
  Scanner.percentages
    (Scanner.r_sent
       (Scanner.scanDirectoryHandler (P := Sample.posix)
          (F := Sample.fs_of Sample.empty_dir) true (fun _ => 0)
          "/e" Sample.no_settings))
  = [0; 0]
  /\ Scanner.percentages
       (Scanner.r_sent
          (Scanner.scanDirectoryHandler (P := Sample.posix)
             (F := Sample.fs_of Sample.git_named) true (fun _ => 0)
             "/p" Sample.no_settings))
     = [0; 1000; 100].
Proof. split; vm_compute; reflexivity. Qed.

(** *** What the records say, batching, and the quick scan *)

Section ScanRecords.
Import Scanner Records.
Context {P : PathLib} {F : FileSystem}.
Variable mainWindow : bool.
Variable clock : nat -> Z.

Lemma acceptFile_describes cfg fd s :
  describes cfg fd -> Forall (describes cfg) (fileStats s ++ batchedFiles (sent s)) ->
  Forall (describes cfg)
    (fileStats (acceptFile mainWindow clock cfg fd s)
     ++ batchedFiles (sent (acceptFile mainWindow clock cfg fd s))).
Proof.
  intros Hfd Hs. apply Forall_forall. intros x Hx.
  apply acceptFile_files in Hx as [->|Hx]; [exact Hfd|].
  rewrite Forall_forall in Hs. now apply Hs.
Qed.

Lemma scanEntry_describes cfg dir s entry :
  Forall (describes cfg) (fileStats s ++ batchedFiles (sent s)) ->
  Forall (describes cfg)
    (fileStats (scanEntry mainWindow clock cfg dir s entry)
     ++ batchedFiles (sent (scanEntry mainWindow clock cfg dir s entry))).
Proof.
  intros H. unfold scanEntry.
  destruct (ignoreDotFiles cfg && JS.startsWith (d_name entry) "."
            && negb (includeHiddenFiles cfg)) eqn:Hdot; [exact H|].
  destruct (stat (path_join dir (d_name entry))) as [st|] eqn:Hstat; [|exact H].
  destruct (st_isDirectory st) eqn:Hd.
  { destruct (negb (isSystemPath _)); exact H. }
  destruct ((0 <? ignoreSizeAbove cfg) && (ignoreSizeAbove cfg <? st_size st))
    eqn:Hsize; [exact H|].
  apply acceptFile_describes; [|exact H].
  exists st. simpl. repeat split; try assumption; try reflexivity.
  - intros Hlim. apply Z.ltb_lt in Hlim. rewrite Hlim in Hsize. simpl in Hsize.
    now apply Z.ltb_ge in Hsize.
  - intros Hi Hh. rewrite Hi, Hh in Hdot. simpl in Hdot.
    now rewrite andb_true_r in Hdot.
  - now exists dir.
Qed.

Lemma scanOneDirectory_describes cfg dir s :
  Forall (describes cfg) (fileStats s ++ batchedFiles (sent s)) ->
  Forall (describes cfg)
    (fileStats (scanOneDirectory mainWindow clock cfg dir s)
     ++ batchedFiles (sent (scanOneDirectory mainWindow clock cfg dir s))).
Proof.
  intros H. unfold scanOneDirectory. simpl.
  destruct (readdir dir) as [entries|]; [|exact H].
  match goal with
  | |- context [fold_left _ entries ?s0] =>
      assert (H0 : Forall (describes cfg) (fileStats s0 ++ batchedFiles (sent s0)))
        by exact H;
      generalize dependent s0
  end.
  induction entries as [|entry entries IH]; intros s0 H0; simpl; [exact H0|].
  apply IH. now apply scanEntry_describes.
Qed.

Lemma scanLoop_describes cfg fuel s :
  Forall (describes cfg) (fileStats s ++ batchedFiles (sent s)) ->
  Forall (describes cfg)
    (fileStats (scanLoop mainWindow clock fuel cfg s)
     ++ batchedFiles (sent (scanLoop mainWindow clock fuel cfg s))).
Proof.
  revert s. induction fuel as [|fuel IH]; intros s H; simpl; [exact H|].
  destruct (currentDepth s <=? maxDepth cfg); [|exact H].
  destruct (shiftUnvisited _ _) as [[dir rest]|]; [|exact H].
  apply IH. now apply scanOneDirectory_describes.
Qed.

(** Every record of a scan, returned or sent in a batch, describes a file:
    stat succeeded on its path and did not report a directory, the record
    holds the size and the three time stamps stat gave and the extension
    of the name in lower case, the size is within the limit when the limit
    is positive, and the name does not start with a full stop when dot
    files are ignored and hidden files are not included. *)
Theorem scanDirectory_records_describe_files :
  forall (directoryPath : string) (progress : option progressReporter)
         (cfg : config),
    let s := scanDirectory mainWindow clock directoryPath progress cfg in
    Forall (describes cfg) (fileStats s ++ batchedFiles (sent s)).
Proof.
  intros directoryPath progress cfg. simpl. unfold scanDirectory.
  apply scanLoop_describes. simpl. constructor.
Qed.

End ScanRecords.

Section ScanBatches.
Import Scanner Records.
Context {P : PathLib} {F : FileSystem}.
Variable clock : nat -> Z.

Lemma acceptFile_sameWalk cfg fd sw sn :
  sameWalk sw sn ->
  sameWalk (acceptFile true clock cfg fd sw) (acceptFile false clock cfg fd sn).
Proof.
  intros (Hp & Hb & Hd & Hv & Hr & Hf). unfold acceptFile.
  rewrite <- Hp, <- Hb, <- Hr, <- Hf.
  set (sent1 :=
         (match reporter sw with
          | Some r =>
              (Some {| totalFiles := totalFiles r;
                       processedFiles := processedFiles r + 1 |},
               if processedFiles
                    {| totalFiles := totalFiles r;
                       processedFiles := processedFiles r + 1 |} mod 10 =? 0
               then sent sw ++ report true
                                {| totalFiles := totalFiles r;
                                   processedFiles := processedFiles r + 1 |}
               else sent sw)
          | None => (None, sent sw)
          end)).
  set (sent2 :=
         (match reporter sw with
          | Some r =>
              (Some {| totalFiles := totalFiles r;
                       processedFiles := processedFiles r + 1 |},
               if processedFiles
                    {| totalFiles := totalFiles r;
                       processedFiles := processedFiles r + 1 |} mod 10 =? 0
               then sent sn ++ report false
                                {| totalFiles := totalFiles r;
                                   processedFiles := processedFiles r + 1 |}
               else sent sn)
          | None => (None, sent sn)
          end)).
  assert (Hsent : batchedFiles sent1.2 = batchedFiles (sent sw)
                  /\ sent1.1 = sent2.1).
  { unfold sent1, sent2. destruct (reporter sw) as [r|]; simpl; [|auto].
    destruct (_ =? 0); [|auto].
    split; [|reflexivity]. rewrite batchedFiles_app.
    apply app_nil_r. }
  destruct sent1 as [reporter1 sent1'], sent2 as [reporter2 sent2'].
  simpl in Hsent. destruct Hsent as [Hsent <-].
  destruct (_ && _); unfold sameWalk; cbn [pendingDirectories batchCount
    currentDepth visitedDirs reporter fileStats sent];
    repeat split; try assumption; try reflexivity.
  - rewrite batchedFiles_app, batchedFiles_batch, Hsent, app_nil_r.
    now rewrite app_assoc.
  - now rewrite Hsent, app_assoc.
Qed.

Lemma scanEntry_sameWalk cfg dir sw sn entry :
  sameWalk sw sn ->
  sameWalk (scanEntry true clock cfg dir sw entry)
           (scanEntry false clock cfg dir sn entry).
Proof.
  intros H. unfold scanEntry.
  destruct (_ && _ && _); [exact H|].
  destruct (stat _) as [st|]; [|exact H].
  destruct (st_isDirectory st).
  - destruct (negb (isSystemPath _)); [|exact H].
    destruct H as (Hp & Hb & Hd & Hv & Hr & Hf).
    unfold sameWalk; simpl. rewrite Hp. auto 10.
  - destruct (_ && _); [exact H|]. now apply acceptFile_sameWalk.
Qed.

Lemma scanOneDirectory_sameWalk cfg dir sw sn :
  sameWalk sw sn ->
  sameWalk (scanOneDirectory true clock cfg dir sw)
           (scanOneDirectory false clock cfg dir sn).
Proof.
  intros (Hp & Hb & Hd & Hv & Hr & Hf). unfold scanOneDirectory.
  match goal with
  | |- sameWalk {| pendingDirectories := pendingDirectories ?a |}
                {| pendingDirectories := pendingDirectories ?b |} =>
      assert (H : sameWalk a b)
  end.
  { destruct (readdir dir) as [entries|].
    - match goal with
      | |- sameWalk (fold_left _ entries ?a) (fold_left _ entries ?b) =>
          assert (H0 : sameWalk a b)
            by (unfold sameWalk; simpl; rewrite Hv; auto 10);
          generalize dependent b; generalize dependent a
      end.
      induction entries as [|entry entries IH]; intros a b H0; simpl;
        [exact H0|].
      apply IH. now apply scanEntry_sameWalk.
    - unfold sameWalk; simpl. rewrite Hv. auto 10. }
  destruct H as (Hp' & Hb' & Hd' & Hv' & Hr' & Hf').
  unfold sameWalk; simpl. rewrite Hd'. auto 10.
Qed.

Lemma scanLoop_sameWalk cfg fuel sw sn :
  sameWalk sw sn ->
  sameWalk (scanLoop true clock fuel cfg sw) (scanLoop false clock fuel cfg sn).
Proof.
  revert sw sn. induction fuel as [|fuel IH]; intros sw sn H; simpl; [exact H|].
  destruct H as (Hp & Hb & Hd & Hv & Hr & Hf).
  rewrite <- Hd, <- Hv, <- Hp.
  destruct (currentDepth sw <=? maxDepth cfg);
    [|unfold sameWalk; auto 10].
  destruct (shiftUnvisited _ _) as [[dir rest]|].
  - apply IH. apply scanOneDirectory_sameWalk. unfold sameWalk; simpl. auto 10.
  - unfold sameWalk; simpl. auto 10.
Qed.

Lemma scanDirectory_sameWalk directoryPath progress cfg :
  sameWalk (scanDirectory true clock directoryPath progress cfg)
           (scanDirectory false clock directoryPath progress cfg).
Proof.
  unfold scanDirectory.
  eapply scanLoop_sameWalk. unfold sameWalk; simpl. auto 10.
Qed.

Lemma handler_batches directoryPath sc :
  batchedFiles (r_sent (scanDirectoryHandler true clock directoryPath sc))
  = Classifier.a_file
    <$> r_data (scanDirectoryHandler false clock directoryPath sc).
Proof.
  unfold scanDirectoryHandler. cbn [r_sent r_data].
  set (cfg := makeConfig sc).
  set (pr := Some {| totalFiles := countFiles directoryPath (maxDepth cfg);
                     processedFiles := 0 |}).
  destruct (scanDirectory_sameWalk directoryPath pr cfg)
    as (_ & _ & _ & _ & _ & Hf).
  set (sw := scanDirectory true clock directoryPath pr cfg) in *.
  set (sn := scanDirectory false clock directoryPath pr cfg) in *.
  assert (Hn : Classifier.a_file <$> Classifier.analyzeFiles clock (fileStats sn) cfg
               = fileStats sn)
    by apply (analyzeFiles_files clock (fileStats sn) cfg 0).
  rewrite Hn, <- Hf. cbn [andb].
  destruct (fileStats sw) as [|fd rest] eqn:Hw; cbn [length Nat.eqb negb].
  - rewrite !batchedFiles_app, !batchedFiles_report.
    now rewrite app_nil_r.
  - rewrite !batchedFiles_app, !batchedFiles_report, batchedFiles_batch.
    now rewrite app_nil_r.
Qed.

(** Batching neither drops nor repeats a record. The files of the batches
    a scan sends to the window, in order, followed by the array it
    returns, are the array the same scan returns when there is no window
    and nothing is split off. With the last batch the handler sends, the
    window has received in batches exactly the files the handler returns
    when there is no window. *)
Theorem scan_batches_partition_files :
  forall (directoryPath : string) (progress : option progressReporter)
         (cfg : config) (sc : scanConfig),
    (let withWindow := scanDirectory true clock directoryPath progress cfg in
     batchedFiles (sent withWindow) ++ fileStats withWindow
     = fileStats (scanDirectory false clock directoryPath progress cfg))
    /\ batchedFiles (r_sent (scanDirectoryHandler true clock directoryPath sc))
       = Classifier.a_file
         <$> r_data (scanDirectoryHandler false clock directoryPath sc).
Proof.
  intros directoryPath progress cfg sc. split.
  - apply scanDirectory_sameWalk.
  - apply handler_batches.
Qed.

End ScanBatches.

Section QuickScanFacts.
Import Scanner.
Context {P : PathLib} {F : FileSystem}.
Variable mainWindow : bool.
Variable clock : nat -> Z.

(** On a config object that has maxDepth, the loop is the loop of the
    scanner. *)
Lemma quick_scanLoop_with_maxDepth (fuel : nat) (cfg : config) (s : scanState) :
  QuickScan.scanLoop mainWindow clock fuel (Some (maxDepth cfg)) cfg s
  = scanLoop mainWindow clock fuel cfg s.
Proof.
  revert s. induction fuel as [|fuel IH]; intros s; simpl; [reflexivity|].
  destruct (currentDepth s <=? maxDepth cfg); [|reflexivity].
  destruct (shiftUnvisited _ _) as [[dir rest]|]; [|reflexivity].
  apply IH.
Qed.

Lemma quick_scanDirectory_with_maxDepth dir progress (cfg : config) :
  QuickScan.scanDirectory mainWindow clock dir progress (Some (maxDepth cfg)) cfg
  = scanDirectory mainWindow clock dir progress cfg.
Proof.
  unfold QuickScan.scanDirectory. rewrite quick_scanLoop_with_maxDepth.
  simpl default. rewrite <- (scanDirectory_enough_fuel mainWindow clock dir progress cfg 1).
  f_equal. lia.
Qed.

(** The 'quick-scan' handler never finds a file: for every directory path
    that is not empty, in every file system, it resolves to the empty
    array. Its call of scanDirectory leaves config at the empty object,
    and the loop condition [currentDepth <= config.maxDepth] is false from
    the start. (Called with a config object that has maxDepth, the same
    scanDirectory is the scanner of the 'scan-directory' handler.) *)
Theorem quickScan_finds_nothing :
  (forall (directoryPath : string),
     QuickScan.quickScan mainWindow clock directoryPath
     = if String.eqb directoryPath ""
       then QuickScan.quick_failure "No directory specified for quick scan"
       else QuickScan.quick_files [])
  /\ (forall (directoryPath : string) (progress : option progressReporter)
             (cfg : config),
        QuickScan.scanDirectory mainWindow clock directoryPath progress
          (Some (maxDepth cfg)) cfg
        = scanDirectory mainWindow clock directoryPath progress cfg).
Proof.
  split.
  - intros directoryPath. unfold QuickScan.quickScan.
    destruct (String.eqb directoryPath ""); reflexivity.
  - intros. apply quick_scanDirectory_with_maxDepth.
Qed.

End QuickScanFacts.

(** ** Duplicate detector *)

Section DuplicateFacts.
Import Duplicates.
Context {P : PathLib} {F : FileSystem} {C : Crypto}.

Lemma candidate_path o p c : candidate o p = Some c -> hf_path c = p.
Proof.
  unfold candidate. repeat case_match; intros ?; simplify_eq; reflexivity.
Qed.

Lemma processFile_maps o total s p :
  fileHashes (processFile o total s p)
  = match candidate o p with
    | Some c =>
        if JS.not_false (o_compareSize o)
        then JS.map_push (fileHashes s) (hf_size c) c
        else fileHashes s
    | None => fileHashes s
    end
  /\ potentialDuplicates (processFile o total s p)
     = match candidate o p with
       | Some c =>
           if JS.not_false (o_compareSize o)
           then potentialDuplicates s
           else JS.map_push (potentialDuplicates s) (hf_hash c) (stripHash c)
       | None => potentialDuplicates s
       end
  /\ processed (processFile o total s p) = processed s + 1.
Proof.
  unfold processFile, candidate, countProcessed.
  repeat case_match; simpl; auto.
Qed.

Lemma processFiles_maps o total paths s :
  let s' := fold_left (processFile o total) paths s in
  let cands := omap (candidate o) paths in
  fileHashes s'
  = (if JS.not_false (o_compareSize o)
     then JS.map_push_all (fileHashes s) (sizeItems cands)
     else fileHashes s)
  /\ potentialDuplicates s'
     = (if JS.not_false (o_compareSize o)
        then potentialDuplicates s
        else JS.map_push_all (potentialDuplicates s) (hashItems cands))
  /\ processed s' = processed s + Z.of_nat (length paths).
Proof.
  revert s. induction paths as [|p paths IH]; intros s; simpl.
  - destruct (JS.not_false _); repeat split; lia.
  - destruct (IH (processFile o total s p)) as (H1 & H2 & H3).
    destruct (processFile_maps o total s p) as (E1 & E2 & E3).
    rewrite H1, H2, H3, E1, E2, E3.
    destruct (candidate o p) as [c|]; simpl;
      destruct (JS.not_false _); repeat split; try reflexivity; lia.
Qed.

Lemma groupByHash_push_all sizes pd :
  groupByHash sizes pd = JS.map_push_all pd (regrouped sizes).
Proof.
  revert pd. induction sizes as [|[k files] sizes IH]; intros pd; simpl.
  - reflexivity.
  - unfold groupByHash in *. simpl. rewrite IH. unfold regrouped at 2. simpl.
    fold (regrouped sizes).
    destruct (length files <=? 1)%nat; simpl; [reflexivity|].
    unfold JS.map_push_all. rewrite fold_left_app. f_equal.
    unfold hashItems. generalize pd. clear.
    induction files as [|f files IH]; intros pd; simpl; [reflexivity|].
    now rewrite IH.
Qed.

Lemma addGroup_fold pd r :
  fold_left addGroup pd r
  = {| duplicateGroups := duplicateGroups r ++ omap makeGroup pd;
       totalDuplicates :=
         totalDuplicates r
         + JS.sumZ ((fun g => Z.of_nat (length (g_files g)) - 1)
                    <$> omap makeGroup pd);
       potentialSavings :=
         potentialSavings r
         + JS.sumZ ((fun g => g_size g * (Z.of_nat (length (g_files g)) - 1))
                    <$> omap makeGroup pd) |}.
Proof.
  revert r. induction pd as [|[hash files] pd IH]; intros r.
  - simpl. rewrite app_nil_r. unfold JS.sumZ; simpl. rewrite !Z.add_0_r.
    now destruct r.
  - change (fold_left addGroup ((hash, files) :: pd) r)
      with (fold_left addGroup pd (addGroup r (hash, files))).
    rewrite IH. csimpl.
    destruct (1 <? length files)%nat eqn:E.
    + assert (Hm : makeGroup (hash, files)
                   = Some {| g_hash := hash; g_size := groupSize files;
                             g_files := files |}).
      { unfold makeGroup. simpl. now rewrite E. }
      rewrite Hm. unfold addGroup. rewrite ?E. csimpl.
      rewrite <- app_assoc. unfold JS.sumZ; simpl. f_equal; clear; lia.
    + assert (Hm : makeGroup (hash, files) = None).
      { unfold makeGroup. simpl. now rewrite E. }
      rewrite Hm. unfold addGroup. now rewrite ?E.
Qed.

Lemma findDuplicates_success filePaths o data msgs :
  findDuplicates filePaths o = success data msgs ->
  duplicateGroups data
  = JS.sort_desc sortKey (omap makeGroup (finalEntries filePaths o))
  /\ totalDuplicates data
     = JS.sumZ ((fun g => Z.of_nat (length (g_files g)) - 1)
                <$> omap makeGroup (finalEntries filePaths o))
  /\ potentialSavings data
     = JS.sumZ ((fun g => g_size g * (Z.of_nat (length (g_files g)) - 1))
                <$> omap makeGroup (finalEntries filePaths o)).
Proof.
  unfold findDuplicates. destruct (_ && _); [destruct (negb _); discriminate|].
  intros H. injection H as <- <-. simpl.
  unfold processFiles, finalEntries.
  match goal with
  | |- context [fold_left (processFile o ?t) filePaths ?s0] =>
      destruct (processFiles_maps o t filePaths s0) as (H1 & H2 & _)
  end.
  simpl in H1, H2. rewrite H1, H2.
  unfold extractGroups. rewrite addGroup_fold. simpl.
  destruct (JS.not_false (o_compareSize o)); simpl;
    rewrite ?groupByHash_push_all; repeat split; reflexivity.
Qed.


(** C4. In every result of the duplicate search, totalDuplicates is the sum
    over the returned groups of (number of members - 1), and
    potentialSavings is the sum over the returned groups of the group's
    size times (number of members - 1). *)
Theorem findDuplicates_totals :
  forall (filePaths : list string) (o : options) (data : result)
         (msgs : list progress),
    findDuplicates filePaths o = success data msgs ->
    totalDuplicates data
    = JS.sumZ ((fun g => Z.of_nat (length (g_files g)) - 1)
               <$> duplicateGroups data)
    /\ potentialSavings data
       = JS.sumZ ((fun g => g_size g * (Z.of_nat (length (g_files g)) - 1))
                  <$> duplicateGroups data).
Proof.
  intros filePaths o data msgs H.
  destruct (findDuplicates_success _ _ _ _ H) as (-> & -> & ->).
  split; apply sumZ_Permutation; apply fmap_Permutation; symmetry;
    apply sort_desc_Permutation.
Qed.

(** Every group made from an entry has two members or more. *)
Lemma makeGroup_Some entry g :
  makeGroup entry = Some g ->
  g = {| g_hash := entry.1; g_size := groupSize entry.2; g_files := entry.2 |}
  /\ (2 <= length entry.2)%nat.
Proof.
  unfold makeGroup. destruct (1 <? length entry.2)%nat eqn:E; [|discriminate].
  intros H. injection H as <-. apply Nat.ltb_lt in E. split; [reflexivity|lia].
Qed.

(** Every pair pushed on potentialDuplicates comes from a candidate. *)
Lemma regrouped_from_candidates (cands : list hashedFile) item :
  item ∈ regrouped (JS.map_push_all [] (sizeItems cands)) ->
  exists c, c ∈ cands /\ item = (hf_hash c, stripHash c).
Proof.
  unfold regrouped. rewrite list_elem_of_bind.
  intros ([k files] & Hitem & Hentry).
  destruct (length files <=? 1)%nat; [now apply not_elem_of_nil in Hitem|].
  apply map_get_elem_of in Hentry; [|apply map_push_all_NoDup; constructor].
  rewrite map_get_push_all_empty in Hentry.
  destruct (JS.pushed (sizeItems cands) k) eqn:E; [discriminate|].
  injection Hentry as <-. rewrite <- E in Hitem. clear E.
  unfold hashItems in Hitem. apply list_elem_of_fmap in Hitem as (c & -> & Hc).
  exists c. split; [|reflexivity].
  unfold JS.pushed in Hc. apply list_elem_of_fmap in Hc as ([k' c'] & -> & Hc).
  apply list_elem_of_filter in Hc as [_ Hc].
  unfold sizeItems in Hc. apply list_elem_of_fmap in Hc as (c'' & E & Hc).
  now injection E as _ ->.
Qed.

Lemma finalEntries_from_candidates filePaths o k files f :
  (k, files) ∈ finalEntries filePaths o -> f ∈ files ->
  exists p c, p ∈ filePaths /\ candidate o p = Some c
              /\ k = hf_hash c /\ f = stripHash c.
Proof.
  intros Hentry Hf.
  assert (Hitem : exists items : list (option string * duplicateFile),
             (forall item, item ∈ items ->
                exists c, c ∈ omap (candidate o) filePaths
                          /\ item = (hf_hash c, stripHash c))
             /\ (k, f) ∈ items).
  { unfold finalEntries in Hentry.
    destruct (JS.not_false (o_compareSize o)).
    - eexists. split; [apply regrouped_from_candidates|].
      apply map_get_elem_of in Hentry; [|apply map_push_all_NoDup; constructor].
      rewrite map_get_push_all_empty in Hentry.
      destruct (JS.pushed _ k) eqn:E; [discriminate|].
      injection Hentry as <-. rewrite <- E in Hf.
      unfold JS.pushed in Hf. apply list_elem_of_fmap in Hf as ([k' f'] & -> & Hf).
      apply list_elem_of_filter in Hf as [Hk Hf]. simpl in Hk. now subst k'.
    - exists (hashItems (omap (candidate o) filePaths)). split.
      + intros item Hi. unfold hashItems in Hi.
        apply list_elem_of_fmap in Hi as (c & -> & Hc). eauto.
      + apply map_get_elem_of in Hentry; [|apply map_push_all_NoDup; constructor].
        rewrite map_get_push_all_empty in Hentry.
        destruct (JS.pushed _ k) eqn:E; [discriminate|].
        injection Hentry as <-. rewrite <- E in Hf.
        unfold JS.pushed in Hf.
        apply list_elem_of_fmap in Hf as ([k' f'] & -> & Hf).
        apply list_elem_of_filter in Hf as [Hk Hf]. simpl in Hk. now subst k'. }
  destruct Hitem as (items & Hall & Hin).
  destruct (Hall _ Hin) as (c & Hc & E). injection E as -> ->.
  apply list_elem_of_omap in Hc as (p & Hp & Hcand). eauto 10.
Qed.


Lemma filter_sublist_mono {A} (Q : A -> Prop) `{!forall x, Decision (Q x)}
    (l1 l2 : list A) :
  l1 `sublist_of` l2 -> filter Q l1 `sublist_of` filter Q l2.
Proof.
  induction 1 as [|x l1 l2 _ IH|x l1 l2 _ IH]; [constructor| |].
  - rewrite !filter_cons. destruct (decide (Q x)); [now constructor|assumption].
  - rewrite filter_cons. destruct (decide (Q x)); [now constructor|assumption].
Qed.

Lemma omap_sublist_mono {A B} (f : A -> option B) (l1 l2 : list A) :
  l1 `sublist_of` l2 -> omap f l1 `sublist_of` omap f l2.
Proof.
  induction 1 as [|x l1 l2 _ IH|x l1 l2 _ IH]; csimpl; [constructor| |].
  - destruct (f x); [now constructor|assumption].
  - destruct (f x); [now constructor|assumption].
Qed.

(** Two pairs pushed under the same key end up in the array of that key. *)
Lemma pushed_pair_entry (items : list (option string * duplicateFile))
    (cp cq : hashedFile) (h : option string) :
  hashItems [cp; cq] `sublist_of` items ->
  hf_hash cp = h -> hf_hash cq = h ->
  exists vs, (h, vs) ∈ JS.map_push_all [] items
             /\ [stripHash cp; stripHash cq] `sublist_of` vs.
Proof.
  intros Hsub Hp Hq.
  assert (Hvs : [stripHash cp; stripHash cq] `sublist_of` JS.pushed items h).
  { unfold JS.pushed.
    replace [stripHash cp; stripHash cq]
      with ((filter (fun kv : option string * duplicateFile => kv.1 = h)
               (hashItems [cp; cq])).*2).
    - apply fmap_sublist. now apply filter_sublist_mono.
    - unfold hashItems. csimpl. rewrite !filter_cons. simpl.
      rewrite Hp, Hq. rewrite !decide_True by reflexivity. reflexivity. }
  exists (JS.pushed items h). split; [|exact Hvs].
  apply map_get_elem_of; [apply map_push_all_NoDup; constructor|].
  rewrite map_get_push_all_empty.
  destruct (JS.pushed items h); [|reflexivity].
  apply sublist_nil_r in Hvs. discriminate.
Qed.

Lemma regrouped_keeps_bucket (sizes : list (Z * list hashedFile)) (k : Z)
    (bucket : list hashedFile) :
  (k, bucket) ∈ sizes -> (2 <= length bucket)%nat ->
  hashItems bucket `sublist_of` regrouped sizes.
Proof.
  intros Hin Hlen. apply list_elem_of_split in Hin as (s1 & s2 & ->).
  unfold regrouped. rewrite bind_app, bind_cons.
  destruct (length bucket <=? 1)%nat eqn:E; [apply Nat.leb_le in E; lia|].
  apply sublist_inserts_l, sublist_inserts_r. reflexivity.
Qed.

Lemma finalEntries_pair filePaths o p q cp cq :
  [p; q] `sublist_of` filePaths ->
  candidate o p = Some cp -> candidate o q = Some cq ->
  hf_size cp = hf_size cq -> hf_hash cp = hf_hash cq ->
  exists vs, (hf_hash cp, vs) ∈ finalEntries filePaths o
             /\ [stripHash cp; stripHash cq] `sublist_of` vs.
Proof.
  intros Hsub Hcp Hcq Hsize Hhash.
  assert (Hc : [cp; cq] `sublist_of` omap (candidate o) filePaths).
  { apply (omap_sublist_mono (candidate o)) in Hsub.
    csimpl in Hsub. now rewrite Hcp, Hcq in Hsub. }
  unfold finalEntries.
  destruct (JS.not_false (o_compareSize o)).
  - apply pushed_pair_entry; [|reflexivity|now symmetry].
    set (cands := omap (candidate o) filePaths) in *.
    set (bucket := JS.pushed (sizeItems cands) (hf_size cp)).
    assert (Hb : [cp; cq] `sublist_of` bucket).
    { unfold bucket, JS.pushed.
      replace [cp; cq]
        with ((filter (fun kv : Z * hashedFile => kv.1 = hf_size cp)
                 (sizeItems [cp; cq])).*2).
      - apply fmap_sublist, filter_sublist_mono. unfold sizeItems.
        now apply fmap_sublist.
      - unfold sizeItems. csimpl. rewrite !filter_cons. simpl.
        rewrite <- Hsize. rewrite !decide_True by reflexivity. reflexivity. }
    transitivity (hashItems bucket).
    + unfold hashItems. now apply fmap_sublist.
    + apply (regrouped_keeps_bucket _ (hf_size cp)).
      * apply map_get_elem_of; [apply map_push_all_NoDup; constructor|].
        rewrite map_get_push_all_empty. fold bucket.
        destruct bucket; [|reflexivity].
        apply sublist_nil_r in Hb. discriminate.
      * apply sublist_length in Hb. simpl in Hb. lia.
  - apply pushed_pair_entry; [|reflexivity|now symmetry].
    unfold hashItems. now apply fmap_sublist.
Qed.

Lemma finalEntries_NoDup filePaths o : NoDup (finalEntries filePaths o).*1.
Proof.
  unfold finalEntries. destruct (JS.not_false _);
    apply map_push_all_NoDup; constructor.
Qed.

(** C3 (amended). Every group returned by the duplicate search has two
    members or more. Any two entries of the input (two positions of the path
    list) that the search does not skip (stat succeeds, not a directory,
    inside the size bounds of the options), with the same byte size and the
    same computed hash, are members of one returned group, and no other
    returned group has a member with either path. *)
Theorem findDuplicates_groups :
  forall (filePaths : list string) (o : options) (data : result)
         (msgs : list progress),
    findDuplicates filePaths o = success data msgs ->
    (forall g, g ∈ duplicateGroups data -> (2 <= length (g_files g))%nat)
    /\ (forall p q cp cq h,
          [p; q] `sublist_of` filePaths ->
          candidate o p = Some cp -> candidate o q = Some cq ->
          hf_size cp = hf_size cq ->
          hf_hash cp = Some h -> hf_hash cq = Some h ->
          exists g,
            g ∈ duplicateGroups data
            /\ g_hash g = Some h
            /\ stripHash cp ∈ g_files g
            /\ stripHash cq ∈ g_files g
            /\ forall g' f,
                 g' ∈ duplicateGroups data -> f ∈ g_files g' ->
                 df_path f = p \/ df_path f = q -> g' = g).
Proof.
  intros filePaths o data msgs H.
  destruct (findDuplicates_success _ _ _ _ H) as (Hg & _ & _).
  assert (Hmem : forall g, g ∈ duplicateGroups data
                           <-> g ∈ omap makeGroup (finalEntries filePaths o)).
  { intros g. rewrite Hg. now rewrite sort_desc_Permutation. }
  split.
  - intros g Hin. apply Hmem, list_elem_of_omap in Hin as (entry & _ & Hmk).
    apply makeGroup_Some in Hmk as [-> Hlen]. exact Hlen.
  - intros p q cp cq h Hsub Hcp Hcq Hsize Hhp Hhq.
    destruct (finalEntries_pair filePaths o p q cp cq Hsub Hcp Hcq Hsize)
      as (vs & Hentry & Hvs); [congruence|].
    rewrite Hhp in Hentry.
    assert (Hlen : (2 <= length vs)%nat).
    { apply sublist_length in Hvs. simpl in Hvs. lia. }
    exists {| g_hash := Some h; g_size := groupSize vs; g_files := vs |}.
    split.
    { apply Hmem, list_elem_of_omap. exists (Some h, vs). split; [assumption|].
      unfold makeGroup. simpl.
      destruct (1 <? length vs)%nat eqn:E; [reflexivity|].
      apply Nat.ltb_ge in E. lia. }
    split; [reflexivity|].
    split. { apply (elem_of_sublist _ _ _ ltac:(left) Hvs). }
    split. { apply (elem_of_sublist _ _ _ ltac:(right; left) Hvs). }
    intros g' f Hg' Hf Hpath.
    apply Hmem, list_elem_of_omap in Hg' as ([k' vs'] & Hentry' & Hmk).
    apply makeGroup_Some in Hmk as [-> _]. simpl in *.
    destruct (finalEntries_from_candidates _ _ _ _ _ Hentry' Hf)
      as (p' & c & _ & Hc & -> & ->).
    assert (Hkey : hf_hash c = Some h).
    { pose proof (candidate_path _ _ _ Hc) as Hpc.
      pose proof (candidate_path _ _ _ Hcp) as Hpp.
      pose proof (candidate_path _ _ _ Hcq) as Hpq.
      unfold stripHash in Hpath; simpl in Hpath.
      destruct Hpath as [E|E]; rewrite Hpc in E; subst p'; congruence. }
    rewrite Hkey in Hentry'.
    assert (vs' = vs).
    { apply map_get_elem_of in Hentry, Hentry'; try apply finalEntries_NoDup.
      congruence. }
    subst vs'. now rewrite Hkey.
Qed.

End DuplicateFacts.

(** The totals at work on two files with the same content. *)
Lemma findDuplicates_totals_witness :
  exists data msgs,
    Duplicates.findDuplicates (P := Sample.posix) (F := Sample.fs_of Sample.twins)
      (C := Sample.plain_digest) ["/d/x.txt"; "/d/y.txt"]%string
      Sample.default_options
    = Duplicates.success data msgs
    /\ Duplicates.totalDuplicates data = 1
    /\ Duplicates.potentialSavings data = 4.
Proof.
  eexists _, _. split; [vm_compute; reflexivity|].
  destruct (findDuplicates_totals (P := Sample.posix)
              (F := Sample.fs_of Sample.twins) (C := Sample.plain_digest)
              ["/d/x.txt"; "/d/y.txt"]%string Sample.default_options _ _
              ltac:(vm_compute; reflexivity)) as [-> ->].
  split; vm_compute; reflexivity.
Defined.

(** The grouping at work on two files with the same content. *)
Lemma findDuplicates_groups_witness :
  exists data msgs g,
    Duplicates.findDuplicates (P := Sample.posix) (F := Sample.fs_of Sample.twins)
      (C := Sample.plain_digest) ["/d/x.txt"; "/d/y.txt"]%string
      Sample.default_options
    = Duplicates.success data msgs
    /\ g ∈ Duplicates.duplicateGroups data
    /\ Duplicates.g_hash g = Some "same"%string
    /\ (2 <= length (Duplicates.g_files g))%nat.
Proof.
  eexists _, _.
  pose proof (findDuplicates_groups (P := Sample.posix)
                (F := Sample.fs_of Sample.twins) (C := Sample.plain_digest)
                ["/d/x.txt"; "/d/y.txt"]%string Sample.default_options _ _
                ltac:(vm_compute; reflexivity)) as [Hlen Hpair].
  destruct (Hpair "/d/x.txt"%string "/d/y.txt"%string _ _ "same"%string
              ltac:(reflexivity)
              ltac:(vm_compute; reflexivity) ltac:(vm_compute; reflexivity)
              ltac:(reflexivity) ltac:(reflexivity) ltac:(reflexivity))
    as (g & Hin & Hh & _).
  exists g. split; [vm_compute; reflexivity|].
  split; [exact Hin|]. split; [exact Hh|]. exact (Hlen g Hin).
Defined.

(** C3, as stated, fails. Two files with the same four bytes are in no
    group when the options set a minimum size of 100 bytes. And with
    sampled hashing (windows of one byte) two files of four bytes and two of
    five bytes, all made of one letter, have the same sampled hash and land
    in one group, whose recorded size is 4 while two members have 5 bytes. *)
Lemma findDuplicates_groups_by_hash_only :
  (Duplicates.calculateFileHash (F := Sample.fs_of Sample.twins)
     (C := Sample.plain_digest) "/d/x.txt" "md5" None
   = Duplicates.calculateFileHash (F := Sample.fs_of Sample.twins)
       (C := Sample.plain_digest) "/d/y.txt" "md5" None
   /\ Duplicates.groupsOf
        (Duplicates.findDuplicates (P := Sample.posix)
           (F := Sample.fs_of Sample.twins) (C := Sample.plain_digest)
           ["/d/x.txt"; "/d/y.txt"]%string Sample.at_least_100_bytes)
      = [])
  /\ map (fun g => (Duplicates.g_size g,
                    map Duplicates.df_size (Duplicates.g_files g)))
       (Duplicates.groupsOf
          (Duplicates.findDuplicates (P := Sample.posix)
             (F := Sample.fs_of Sample.runs_of_a) (C := Sample.plain_digest)
             ["/s/a1"; "/s/a2"; "/s/b1"; "/s/b2"]%string
             Sample.sampled_one_byte))
     = [(4, [4; 4; 5; 5])].
Proof. repeat split; vm_compute; reflexivity. Qed.

(** C7. Two files of the same size whose content cannot be read:
    calculateFileHash returns null for both, and the handler, which does
    not test for null, returns them as one duplicate group under the hash
    null, whatever the hash function. *)
Theorem findDuplicates_groups_unhashed_files :
  forall (C : Crypto),
    Duplicates.calculateFileHash (F := Sample.fs_of Sample.unreadable_pair)
      "/u/a.bin" "md5" None = None
    /\ Duplicates.calculateFileHash (F := Sample.fs_of Sample.unreadable_pair)
         "/u/b.bin" "md5" None = None
    /\ Duplicates.groupsOf
         (Duplicates.findDuplicates (P := Sample.posix)
            (F := Sample.fs_of Sample.unreadable_pair)
            ["/u/a.bin"; "/u/b.bin"]%string Sample.default_options)
       = [ {| Duplicates.g_hash := None; Duplicates.g_size := 5;
              Duplicates.g_files :=
                [ {| Duplicates.df_path := "/u/a.bin"; Duplicates.df_size := 5;
                     Duplicates.df_name := "a.bin";
                     Duplicates.df_extension := ".bin" |};
                  {| Duplicates.df_path := "/u/b.bin"; Duplicates.df_size := 5;
                     Duplicates.df_name := "b.bin";
                     Duplicates.df_extension := ".bin" |} ] |} ].
Proof. intros C. repeat split; vm_compute; reflexivity. Qed.

Section DuplicateOrder.
Import Duplicates.
Context {P : PathLib} {F : FileSystem} {C : Crypto}.

(** Every path of the input is counted as processed, whatever happens to
    it: the counter ends at the number of paths. *)
Theorem findDuplicates_counts_every_path :
  forall (filePaths : list string) (o : options),
    processed (stateAfterHashing filePaths o) = Z.of_nat (length filePaths).
Proof.
  intros filePaths o. unfold stateAfterHashing, processFiles.
  match goal with
  | |- context [fold_left (processFile o ?t) filePaths ?s0] =>
      destruct (processFiles_maps o t filePaths s0) as (_ & _ & ->)
  end.
  simpl. clear. lia.
Qed.

Lemma insert_desc_sorted {A} (key : A -> Z) (x : A) (l : list A) :
  StronglySorted (fun a b => key b <= key a) l ->
  StronglySorted (fun a b => key b <= key a) (JS.insert_desc key x l).
Proof.
  induction 1 as [|y l Hl IH Hy]; simpl.
  - repeat constructor.
  - destruct (key y <=? key x) eqn:E.
    + apply Z.leb_le in E. constructor; [now constructor|].
      constructor; [exact E|].
      eapply Forall_impl; [exact Hy|]. simpl. intros; lia.
    + apply Z.leb_gt in E. constructor; [exact IH|].
      rewrite (insert_desc_Permutation key x l). constructor; [lia|exact Hy].
Qed.

Lemma sort_desc_sorted {A} (key : A -> Z) (l : list A) :
  StronglySorted (fun a b => key b <= key a) (JS.sort_desc key l).
Proof.
  induction l as [|x l IH]; simpl; [constructor|].
  now apply insert_desc_sorted.
Qed.

(** The groups are returned in descending order of size times number of
    members. *)
Theorem findDuplicates_sorted :
  forall (filePaths : list string) (o : options),
    StronglySorted (fun a b => sortKey b <= sortKey a)
      (groupsOf (findDuplicates filePaths o)).
Proof.
  intros filePaths o. unfold findDuplicates.
  destruct (_ && _); [destruct (negb _); constructor|].
  simpl. apply sort_desc_sorted.
Qed.

End DuplicateOrder.

(** *** Progress reports, members of the groups, sampling *)

Section DuplicateProgress.
Import Duplicates.
Context {P : PathLib} {F : FileSystem} {C : Crypto}.

Lemma processFile_progress o total s p :
  processed (processFile o total s p) = processed s + 1
  /\ progress_sent (processFile o total s p)
     = match candidate o p with
       | Some _ =>
           if (processed s + 1) mod 10 =? 0 then
             progress_sent s ++
               [{| p_processed := processed s + 1; p_total := total;
                   p_percentage := JS.round_percent (processed s + 1) total |}]
           else if processed s + 1 =? total then
             progress_sent s ++
               [{| p_processed := processed s + 1; p_total := total;
                   p_percentage := JS.round_percent (processed s + 1) total |}]
           else progress_sent s
       | None => progress_sent s
       end.
Proof.
  unfold processFile, candidate, countProcessed.
  repeat case_match; simpl in *; auto; try discriminate.
Qed.

(** What holds of the reports after [k] paths of [total]. *)
Lemma processFiles_progress o total (paths : list string) s (k : Z) :
  0 <= k ->
  processed s = k ->
  Forall (fun m => p_total m = total /\ 0 <= p_processed m <= k
                   /\ p_percentage m = JS.round_percent (p_processed m) total)
    (progress_sent s) ->
  StronglySorted (fun a b => p_processed a < p_processed b) (progress_sent s) ->
  let s' := fold_left (processFile o total) paths s in
  processed s' = k + Z.of_nat (length paths)
  /\ Forall (fun m => p_total m = total
                      /\ 0 <= p_processed m <= k + Z.of_nat (length paths)
                      /\ p_percentage m = JS.round_percent (p_processed m) total)
       (progress_sent s')
  /\ StronglySorted (fun a b => p_processed a < p_processed b) (progress_sent s').
Proof.
  revert s k. induction paths as [|p paths IH]; intros s k Hk0 Hk Hall Hsorted.
  - simpl. rewrite Z.add_0_r. auto.
  - cbn [fold_left]. cbv zeta.
    destruct (processFile_progress o total s p) as [Hp Hm].
    assert (Hall' : Forall (fun m => p_total m = total
                              /\ 0 <= p_processed m <= k + 1
                              /\ p_percentage m
                                 = JS.round_percent (p_processed m) total)
                      (progress_sent s)).
    { eapply Forall_impl; [exact Hall|]. simpl. intros m (? & ? & ?).
      repeat split; try assumption; lia. }
    assert (Hsnoc :
              let m := {| p_processed := processed s + 1; p_total := total;
                          p_percentage := JS.round_percent (processed s + 1) total |} in
              Forall (fun m => p_total m = total
                               /\ 0 <= p_processed m <= k + 1
                               /\ p_percentage m
                                  = JS.round_percent (p_processed m) total)
                (progress_sent s ++ [m])
              /\ StronglySorted (fun a b => p_processed a < p_processed b)
                   (progress_sent s ++ [m])).
    { simpl. split.
      - apply Forall_app. split; [exact Hall'|]. constructor; [|constructor].
        simpl. rewrite Hk. repeat split; lia.
      - apply StronglySorted_app_2; [|exact Hsorted|repeat constructor].
        intros x1 x2 Hx1 Hx2. apply list_elem_of_singleton in Hx2 as ->. simpl.
        rewrite Forall_forall in Hall. destruct (Hall x1 Hx1) as (_ & ? & _).
        lia. }
    destruct Hsnoc as [Hsnoc1 Hsnoc2].
    destruct (IH (processFile o total s p) (k + 1)) as (H1 & H2 & H3).
    + lia.
    + lia.
    + rewrite Hm. destruct (candidate o p); [|exact Hall'].
      destruct (_ =? 0); [exact Hsnoc1|]. destruct (_ =? total); assumption.
    + rewrite Hm. destruct (candidate o p); [|exact Hsorted].
      destruct (_ =? 0); [exact Hsnoc2|]. destruct (_ =? total); assumption.
    + rewrite H1. split; [cbn [length]; lia|]. split; [|exact H3].
      eapply Forall_impl; [exact H2|]. simpl. intros m (? & ? & ?).
      repeat split; try assumption; cbn [length]; lia.
Qed.

Lemma round_percent_range (p t : Z) :
  0 <= p <= t -> 0 <= JS.round_percent p t <= 100.
Proof.
  intros Hp. destruct (Z.eq_dec t 0) as [->|Ht].
  - assert (p = 0) as -> by (clear -Hp; lia). vm_compute. split; discriminate.
  - assert (Ht0 : 0 < t) by (clear -Hp Ht; lia). split.
    + rewrite <- (round_percent_zero t Ht0). apply round_percent_mono; tauto.
    + rewrite <- (round_percent_full t Ht0). apply round_percent_mono; tauto.
Qed.

(** The rounded percentage lies within one point of the exact ratio. *)
Lemma round_percent_near (p t : Z) :
  0 <= p <= t ->
  100 * p - t <= JS.round_percent p t * t <= 100 * p + t.
Proof.
  intros Hp. destruct (Z.eq_dec t 0) as [->|Ht].
  - assert (p = 0) as -> by (clear -Hp; lia). vm_compute. split; discriminate.
  - unfold JS.round_percent.
    pose proof (Z.div_mod (200 * p + t) (2 * t) ltac:(lia)) as E.
    pose proof (Z.mod_pos_bound (200 * p + t) (2 * t) ltac:(lia)) as B.
    set (q := (200 * p + t) / (2 * t)) in *.
    set (r := (200 * p + t) mod (2 * t)) in *.
    clearbody q r. nia.
Qed.

(** The 'duplicate-progress' reports of a search over [total] paths: the
    first one is 0 of [total] at 0 percent; every report carries [total],
    a count between 0 and [total] and a percentage between 0 and 100 that
    lies within one point of the count's share of [total]; the counts
    increase strictly and the percentages never decrease.  (Which of two
    neighbouring whole numbers the percentage is at a share that ends in
    one half is left open: there the rounding of the double decides.) *)
Theorem findDuplicates_progress_reports :
  forall (filePaths : list string) (o : options),
    let total := Z.of_nat (length filePaths) in
    let msgs := progress_sent (stateAfterHashing filePaths o) in
    hd_error msgs
    = Some {| p_processed := 0; p_total := total; p_percentage := 0 |}
    /\ Forall (fun m => p_total m = total
                        /\ 0 <= p_processed m <= total
                        /\ 0 <= p_percentage m <= 100
                        /\ 100 * p_processed m - total
                           <= p_percentage m * total
                           <= 100 * p_processed m + total) msgs
    /\ StronglySorted (fun a b => p_processed a < p_processed b) msgs
    /\ StronglySorted (fun a b => p_percentage a <= p_percentage b) msgs.
Proof.
  intros filePaths o total msgs. subst msgs. unfold stateAfterHashing, processFiles.
  fold total.
  set (s0 := {| fileHashes := []; potentialDuplicates := []; processed := 0;
                progress_sent :=
                  [{| p_processed := 0; p_total := total; p_percentage := 0 |}] |}).
  destruct (processFiles_progress o total filePaths s0 0) as (_ & Hall & Hs).
  { lia. }
  { reflexivity. }
  { constructor; [|constructor]. simpl. repeat split; try lia.
    unfold JS.round_percent. simpl. symmetry.
    destruct (Z.eq_dec total 0) as [->|Ht]; [reflexivity|].
    apply Z.div_small. lia. }
  { repeat constructor. }
  cbv zeta in Hall, Hs. rewrite Z.add_0_l in Hall. fold total in Hall.
  assert (Hall2 : Forall (fun m => p_total m = total
                        /\ 0 <= p_processed m <= total
                        /\ 0 <= p_percentage m <= 100
                        /\ 100 * p_processed m - total
                           <= p_percentage m * total
                           <= 100 * p_processed m + total)
                    (progress_sent (fold_left (processFile o total) filePaths s0))).
  { eapply Forall_impl; [exact Hall|]. simpl. intros m (? & Hm & E).
    pose proof (round_percent_range _ _ Hm) as Hr.
    pose proof (round_percent_near _ _ Hm) as Hn.
    rewrite <- E in Hr, Hn. tauto. }
  split; [|split; [exact Hall2|split; [exact Hs|]]].
  - assert (G : forall paths s m rest,
               progress_sent s = m :: rest ->
               hd_error (progress_sent (fold_left (processFile o total) paths s))
               = Some m).
    { clear. induction paths as [|p paths IH]; intros s m rest Hs; simpl.
      - now rewrite Hs.
      - destruct (processFile_progress o total s p) as [_ Hm].
        destruct (candidate o p);
          [destruct (_ =? 0); [|destruct (_ =? total)]|];
          rewrite Hs in Hm; simpl in Hm; eapply IH; exact Hm. }
    eapply G. reflexivity.
  - revert Hs Hall. generalize (progress_sent (fold_left (processFile o total) filePaths s0)).
    intros l Hs Hall. induction Hs as [|x l Hl IH Hx]; constructor.
    + apply IH. now apply Forall_inv_tail in Hall.
    + apply Forall_cons in Hall as [(_ & Hx0 & Ex) Hall].
      rewrite Forall_forall in Hx, Hall. apply Forall_forall. intros y Hy.
      destruct (Hall y Hy) as (_ & Hy0 & Ey). rewrite Ex, Ey.
      specialize (Hx y Hy).
      destruct (Z.eq_dec total 0) as [Ht|Ht]; [lia|].
      apply round_percent_mono; lia.
Qed.

(** The report of 100 percent can be missing. Take a list of paths whose
    last path is alone in the last batch (the paths before it fill whole
    batches), so that no other callback runs along with its callback. When
    the search does not skip that path, the last report is [total] of
    [total] at 100 percent; when it skips it (stat fails, a directory, a
    size outside the bounds), every report has a count below [total]. *)
Theorem findDuplicates_final_report :
  forall (paths : list string) (p : string) (o : options),
    (length paths mod BATCH_SIZE = 0)%nat ->
    let total := Z.of_nat (length (paths ++ [p])) in
    let msgs := progress_sent (stateAfterHashing (paths ++ [p]) o) in
    match candidate o p with
    | Some _ =>
        last msgs
        = Some {| p_processed := total; p_total := total; p_percentage := 100 |}
    | None => Forall (fun m => p_processed m < total) msgs
    end.
Proof.
  intros paths p o _ total msgs. subst msgs.
  unfold stateAfterHashing, processFiles. fold total.
  rewrite fold_left_app. cbn [fold_left].
  set (s0 := {| fileHashes := []; potentialDuplicates := []; processed := 0;
                progress_sent :=
                  [{| p_processed := 0; p_total := total; p_percentage := 0 |}] |}).
  assert (Htotal : total = Z.of_nat (length paths) + 1).
  { unfold total. rewrite length_app. cbn [length]. clear. lia. }
  destruct (processFiles_progress o total paths s0 0) as (Hk & Hall & _).
  { clear. lia. }
  { reflexivity. }
  { constructor; [|constructor]. simpl. repeat split; try (clear; lia).
    unfold JS.round_percent. simpl. symmetry.
    apply Z.div_small. clear -Htotal. lia. }
  { repeat constructor. }
  cbv zeta in Hk, Hall. rewrite Z.add_0_l in Hk, Hall.
  destruct (processFile_progress o total
              (fold_left (processFile o total) paths s0) p) as [_ Hm].
  rewrite Hm, Hk. destruct (candidate o p) as [c|].
  - assert (E : (Z.of_nat (length paths) + 1 =? total) = true).
    { apply Z.eqb_eq. symmetry. exact Htotal. }
    rewrite E. rewrite <- Htotal.
    rewrite round_percent_full by (clear -Htotal; lia).
    destruct (total mod 10 =? 0); apply last_snoc.
  - eapply Forall_impl; [exact Hall|]. simpl. intros m (_ & Hm' & _).
    clear -Hm' Htotal. lia.
Qed.

(** Every member of a returned group is one of the requested paths that
    the search did not skip, the hash computed for it is the hash of the
    group, and the size of the group is the size of its first member. *)
Theorem findDuplicates_members_are_requested_files :
  forall (filePaths : list string) (o : options) (data : result)
         (msgs : list progress),
    findDuplicates filePaths o = success data msgs ->
    forall g f,
      g ∈ duplicateGroups data -> f ∈ g_files g ->
      g_size g = groupSize (g_files g)
      /\ df_path f ∈ filePaths
      /\ exists c, candidate o (df_path f) = Some c
                   /\ hf_hash c = g_hash g /\ stripHash c = f.
Proof.
  intros filePaths o data msgs H g f Hg Hf.
  destruct (findDuplicates_success _ _ _ _ H) as (Hgroups & _ & _).
  rewrite Hgroups, (sort_desc_Permutation sortKey) in Hg.
  apply list_elem_of_omap in Hg as ([k files] & Hentry & Hm).
  apply makeGroup_Some in Hm as [-> _]. simpl in *.
  split; [reflexivity|].
  destruct (finalEntries_from_candidates _ _ _ _ _ Hentry Hf)
    as (p & c & Hp & Hc & -> & ->).
  pose proof (candidate_path _ _ _ Hc) as Hpath.
  unfold stripHash at 1 2. simpl. rewrite Hpath. split; [exact Hp|].
  exists c. auto.
Qed.

End DuplicateProgress.

(** The theorem at work: the second of two files with the same content. *)
Lemma findDuplicates_members_are_requested_files_witness :
  exists c,
    Duplicates.candidate (P := Sample.posix) (F := Sample.fs_of Sample.twins)
      (C := Sample.plain_digest) Sample.default_options "/d/y.txt" = Some c
    /\ Duplicates.hf_hash c = Some "same"%string.
Proof.
  destruct (findDuplicates_members_are_requested_files
              (P := Sample.posix) (F := Sample.fs_of Sample.twins)
              (C := Sample.plain_digest) ["/d/x.txt"; "/d/y.txt"]%string
              Sample.default_options _ _ ltac:(vm_compute; reflexivity)
              Examples.twin_group
              {| Duplicates.df_path := "/d/y.txt"; Duplicates.df_size := 4;
                 Duplicates.df_name := "y.txt";
                 Duplicates.df_extension := ".txt" |}
              ltac:(left) ltac:(right; left))
    as (_ & _ & c & Hc & Hh & _).
  exists c. split; [exact Hc|exact Hh].
Defined.

(** The theorem at work: a search over one path, a directory. *)
Lemma findDuplicates_final_report_witness :
  Forall (fun m => Duplicates.p_processed m < 1)
    (Duplicates.progress_sent
       (Duplicates.stateAfterHashing (P := Sample.posix)
          (F := Sample.fs_of Sample.two_branches) (C := Sample.plain_digest)
          ["/r"]%string Sample.default_options)).
Proof.
  exact (findDuplicates_final_report
           (P := Sample.posix) (F := Sample.fs_of Sample.two_branches)
           (C := Sample.plain_digest) [] "/r" Sample.default_options eq_refl).
Defined.

Section Sampling.
Import Duplicates.
Context {P : PathLib} {F : FileSystem} {C : Crypto}.

(** A window depends only on the bytes it covers. *)
Lemma read_window_ext (d1 d2 : list Byte.byte) (position len : Z) :
  (forall i : nat,
     (Z.to_nat position <= i < Z.to_nat position + Z.to_nat len)%nat ->
     d1 !! i = d2 !! i) ->
  read_window d1 position len = read_window d2 position len.
Proof.
  intros Hagree. unfold read_window.
  assert (E : take (Z.to_nat len) (drop (Z.to_nat position) d1)
              = take (Z.to_nat len) (drop (Z.to_nat position) d2)).
  { apply list_eq. intros i.
    destruct (decide (i < Z.to_nat len)%nat) as [Hi|Hi].
    - rewrite !lookup_take_lt, !lookup_drop by assumption.
      apply Hagree. lia.
    - rewrite !lookup_take_ge by lia. reflexivity. }
  now rewrite E.
Qed.

(** With sampling, the hash of a file of more than three windows covers
    the first window, the window in the middle and the last window, and
    nothing else: two such files of the same size that agree on these
    three windows get the same hash, whatever the rest of their content. *)
Theorem calculateFileHash_sampled_ignores_other_bytes :
  forall (p q algorithm : string) (sampleSize : Z) (st st' : stats)
         (data data' : list Byte.byte),
    0 < sampleSize ->
    stat p = Some st -> stat q = Some st' ->
    st_size st = st_size st' ->
    sampleSize * 3 < st_size st ->
    readFile p = Some data -> readFile q = Some data' ->
    (forall i : Z,
       0 <= i < sampleSize
       \/ st_size st / 2 - sampleSize / 2 <= i
          < st_size st / 2 - sampleSize / 2 + sampleSize
       \/ st_size st - sampleSize <= i < st_size st ->
       data !! Z.to_nat i = data' !! Z.to_nat i) ->
    calculateFileHash p algorithm (Some sampleSize)
    = calculateFileHash q algorithm (Some sampleSize).
Proof.
  intros p q algorithm sampleSize st st' data data' Hpos Hst Hst' Hsize Hbig
    Hd Hd' Hagree.
  unfold calculateFileHash. simpl.
  assert (E0 : (sampleSize =? 0) = false) by (apply Z.eqb_neq; lia).
  rewrite E0, Hst, Hst', <- Hsize.
  assert (E1 : (sampleSize * 3 <? st_size st) = true) by (apply Z.ltb_lt; lia).
  rewrite E1, Hd, Hd'.
  assert (E2 : (sampleSize <? 0) = false) by (apply Z.ltb_ge; lia).
  rewrite E2.
  assert (Hmid : 0 <= st_size st / 2 - sampleSize / 2).
  { assert (sampleSize / 2 <= st_size st / 2) by (apply Z.div_le_mono; lia).
    lia. }
  rewrite (read_window_ext data data' 0 sampleSize).
  2:{ intros i Hi. rewrite <- (Nat2Z.id i). apply Hagree. simpl in Hi. lia. }
  rewrite (read_window_ext data data' (st_size st / 2 - sampleSize / 2)
             sampleSize).
  2:{ intros i Hi. rewrite <- (Nat2Z.id i). apply Hagree. lia. }
  rewrite (read_window_ext data data' (st_size st - sampleSize) sampleSize).
  2:{ intros i Hi. rewrite <- (Nat2Z.id i). apply Hagree. lia. }
  rewrite ?E0. reflexivity.
Qed.

End Sampling.

(** The theorem at work: two files of five bytes, windows of one byte. *)
Lemma calculateFileHash_sampled_ignores_other_bytes_witness :
  Duplicates.calculateFileHash (F := Sample.fs_of Examples.look_alikes)
    (C := Sample.plain_digest) "/s/one" "md5" (Some 1)
  = Duplicates.calculateFileHash (F := Sample.fs_of Examples.look_alikes)
      (C := Sample.plain_digest) "/s/two" "md5" (Some 1).
Proof.
  eapply (calculateFileHash_sampled_ignores_other_bytes
            (F := Sample.fs_of Examples.look_alikes) (C := Sample.plain_digest)
            "/s/one" "/s/two" "md5" 1).
  - lia.
  - reflexivity.
  - reflexivity.
  - reflexivity.
  - simpl. change (Z.of_nat 5) with 5. lia.
  - reflexivity.
  - reflexivity.
  - simpl. change (Z.of_nat 5 `div` 2 - 1 `div` 2) with 2.
    change (Z.of_nat 5) with 5. intros i [H|[H|H]].
    + assert (i = 0) as -> by lia. reflexivity.
    + assert (i = 2) as -> by lia. reflexivity.
    + assert (i = 4) as -> by lia. reflexivity.
Defined.

(** ** Backup store and delete handler *)

Section StoreFacts.
Import Store.
Context {P : PathLib} {L : Platform}.
Variable W : world.

Ltac run_io :=
  unfold mbind, io_bind, mret, io_ret, bind, try_catch, ret, throw,
    existsSync, mkdir, stat, copyFile, writeFile, unlink, readdir, readFile,
    now, showMessageBox; simpl.

(** Splitting a concatenation at an element. *)
Lemma app_eq_split {A} (t1 t2 pre post : list A) (x : A) :
  t1 ++ t2 = pre ++ x :: post ->
  (exists k, t1 = pre ++ x :: k /\ post = k ++ t2)
  \/ (exists k, pre = t1 ++ k /\ t2 = k ++ x :: post).
Proof.
  revert pre. induction t1 as [|a t1 IH]; intros pre H; simpl in *.
  - right. exists pre. auto.
  - destruct pre as [|b pre]; simpl in *; injection H as -> H.
    + left. eexists; eauto.
    + destruct (IH _ H) as [[k [-> ->]]|[k [-> ->]]]; [left|right]; eexists; eauto.
Qed.

Ltac split_trace :=
  repeat match goal with
         | H : [] = ?pre ++ _ :: _ |- _ => destruct pre; discriminate H
         | H : _ :: _ = ?pre ++ _ :: _ |- _ =>
             destruct pre as [|? pre]; simpl in H;
             injection H as ? H; try discriminate; subst
         end.

Ltac solve_suffix :=
  first [ by eexists [], _, _ | by eexists [_], _, _ | by eexists [_; _], _, _
        | by eexists [_; _; _], _, _ | by eexists [_; _; _; _], _, _
        | by eexists [_; _; _; _; _], _, _
        | by eexists [_; _; _; _; _; _], _, _
        | by eexists [_; _; _; _; _; _; _], _, _ ].

Ltac solve_backup :=
  unfold backupCalls, backupPathAt, metadataOf;
  first [ by eexists [], _, _, _ | by eexists [_], _, _, _
        | by eexists [_; _], _, _, _ | by eexists [_; _; _], _, _, _
        | by eexists [_; _; _; _], _, _, _ ].

Ltac trace_props :=
  repeat match goal with
         | u : () |- _ => destruct u
         | |- _ /\ _ => split
         | |- unlink_follows_backup _ =>
             intros pre ? ? ? H; split_trace; try solve_backup
         | |- sidecar_follows_copy _ =>
             intros pre ? ? ? ? H; split_trace; try solve_suffix
         | |- sources_existed _ _ =>
             intros e He; simpl in He;
             repeat (destruct He as [<-|He]; [try exact I; eauto|]);
             try destruct He
         | |- deleted_with_backup _ _ =>
             unfold deleted_with_backup; simpl
         | |- _ = false -> _ => intros ?; try discriminate; try congruence
         | |- _ = true -> _ => intros ?; try discriminate
         end.

Lemma deleteOne_cases (filePath : string) (h : list event) :
  exists t o,
    deleteOne W filePath h = (t, ok o)
    /\ do_path o = filePath
    /\ unlink_follows_backup t
    /\ sidecar_follows_copy t
    /\ sources_existed W t
    /\ (w_existsSync W h filePath = false ->
        t = [ev_existsSync filePath false] /\ o = notFound filePath)
    /\ deleted_with_backup t o.
Proof.
  unfold deleteOne, backupFile, getTrashDirectory. run_io.
  destruct (w_existsSync W h filePath) eqn:Hex; simpl;
    repeat case_match; simplify_eq; simpl;
    (eexists _, _; split; [reflexivity|]); (split; [reflexivity|]);
    trace_props.
  all: try done.
  all: unfold backupCalls, backupPathAt, metadataOf.
  all: first [ by eexists [_; _], _, _, _, _, []
             | by eexists [_; _; _], _, _, _, _, [] ].
Qed.

Lemma unlink_follows_backup_app t1 t2 :
  unlink_follows_backup t1 -> unlink_follows_backup t2 ->
  unlink_follows_backup (t1 ++ t2).
Proof.
  intros H1 H2 pre p r post H.
  destruct (app_eq_split _ _ _ _ _ H) as [[k [-> ->]]|[k [-> ->]]].
  - eapply H1; reflexivity.
  - destruct (H2 _ _ _ _ eq_refl) as (pre' & stamp & st & backupDate & ->).
    exists (t1 ++ pre'), stamp, st, backupDate. now rewrite app_assoc.
Qed.

Lemma sidecar_follows_copy_app t1 t2 :
  sidecar_follows_copy t1 -> sidecar_follows_copy t2 ->
  sidecar_follows_copy (t1 ++ t2).
Proof.
  intros H1 H2 pre m data r post H.
  destruct (app_eq_split _ _ _ _ _ H) as [[k [-> ->]]|[k [-> ->]]].
  - eapply H1; reflexivity.
  - destruct (H2 _ _ _ _ _ eq_refl) as (pre' & src & b & -> & ->).
    exists (t1 ++ pre'), src, b. now rewrite app_assoc.
Qed.

Lemma sources_existed_app t1 t2 :
  sources_existed W t1 -> sources_existed W t2 -> sources_existed W (t1 ++ t2).
Proof.
  intros H1 H2 e He. apply in_app_or in He as [He|He]; [now apply H1|now apply H2].
Qed.

Lemma deleted_with_backup_app t0 t1 t2 o :
  deleted_with_backup t1 o -> deleted_with_backup (t0 ++ t1 ++ t2) o.
Proof.
  intros H Hd.
  destruct (H Hd) as (pre & stamp & st & backupDate & r & post & -> & Hb & He).
  exists (t0 ++ pre), stamp, st, backupDate, r, (post ++ t2).
  split; [|split; assumption].
  rewrite <- !app_assoc. simpl. rewrite <- ?app_assoc. reflexivity.
Qed.

Lemma mapM_deleteOne (filePaths : list string) (h : list event) :
  exists t results,
    mapM (deleteOne W) filePaths h = (t, ok results)
    /\ map do_path results = filePaths
    /\ unlink_follows_backup t
    /\ sidecar_follows_copy t
    /\ sources_existed W t
    /\ (forall p, (forall h', w_existsSync W h' p = false) ->
        forall o, In o results -> do_path o = p -> o = notFound p)
    /\ (forall o, In o results -> deleted_with_backup t o).
Proof.
  revert h. induction filePaths as [|p rest IH]; intros h; simpl.
  - exists [], []. unfold ret. repeat split.
    + intros pre ? ? ? H. destruct pre; discriminate.
    + intros pre ? ? ? ? H. destruct pre; discriminate.
    + intros e [].
    + intros ? ? ? [].
    + intros ? [].
  - destruct (deleteOne_cases p h)
      as (t1 & o & E1 & Hp & Hu & Hs & Hx & Hnf & Hd).
    destruct (IH (h ++ t1))
      as (t2 & results & E2 & Hmap & Hu2 & Hs2 & Hx2 & Hnf2 & Hd2).
    exists (t1 ++ t2), (o :: results).
    unfold bind, ret. rewrite E1, E2. simpl. rewrite app_nil_r.
    repeat split.
    + now rewrite Hmap, Hp.
    + now apply unlink_follows_backup_app.
    + now apply sidecar_follows_copy_app.
    + now apply sources_existed_app.
    + intros q Hq o' [<-|Hin] Ho'.
      * rewrite Hp in Ho'. subst q. now apply Hnf.
      * now apply (Hnf2 q).
    + intros o' [<-|Hin].
      * apply (deleted_with_backup_app [] t1 t2). exact Hd.
      * rewrite <- (app_nil_r t2).
        apply (deleted_with_backup_app t1 t2 []). now apply Hd2.
Qed.
Lemma quiet_ret {A} (a : A) : quiet (mret a).
Proof. intros h. constructor. Qed.

Lemma quiet_throw {A} (message : string) : quiet (@throw A message).
Proof. intros h. constructor. Qed.

Lemma quiet_bind {A B} (m : io A) (k : A -> io B) :
  quiet m -> (forall a, quiet (k a)) -> quiet (m ≫= k).
Proof.
  intros Hm Hk h. unfold mbind, io_bind, bind.
  specialize (Hm h). destruct (m h) as [t1 [a|e]]; simpl in *; [|assumption].
  specialize (Hk a (h ++ t1)). destruct (k a (h ++ t1)) as [t2 r2]; simpl in *.
  now apply Forall_app.
Qed.

Lemma quiet_try_catch {A} (m : io A) (handler : string -> io A) :
  quiet m -> (forall e, quiet (handler e)) -> quiet (try_catch m handler).
Proof.
  intros Hm Hk h. unfold try_catch.
  specialize (Hm h). destruct (m h) as [t1 [a|e]]; simpl in *; [assumption|].
  specialize (Hk e (h ++ t1)). destruct (handler e (h ++ t1)) as [t2 r2]; simpl in *.
  now apply Forall_app.
Qed.

Lemma quiet_mapM {A B} (f : A -> io B) (l : list A) :
  (forall a, quiet (f a)) -> quiet (mapM f l).
Proof.
  intros Hf. induction l as [|a l IH]; simpl.
  - apply quiet_ret.
  - apply (quiet_bind (f a)); [apply Hf|]. intros b.
    apply (quiet_bind (mapM f l)); [apply IH|]. intros bs. apply quiet_ret.
Qed.

Lemma quiet_primitives :
  (forall p, quiet (existsSync W p)) /\ (forall p, quiet (mkdir W p))
  /\ (forall p, quiet (stat W p)) /\ (forall p, quiet (readdir W p))
  /\ (forall p, quiet (readFile W p)) /\ quiet (now W)
  /\ (forall d, quiet (showMessageBox W d)).
Proof. repeat split; intros; intros h; repeat constructor. Qed.

Ltac quiet_step :=
  first [ apply quiet_ret | apply quiet_throw
        | apply quiet_primitives
        | apply quiet_bind; [|intros ?]
        | apply quiet_try_catch; [|intros ?]
        | apply quiet_mapM; intros ?
        | case_match ].

Lemma getTrashDirectory_quiet : quiet (getTrashDirectory W).
Proof. unfold getTrashDirectory. repeat quiet_step. Qed.

Lemma getBackupsList_quiet : quiet (getBackupsList W).
Proof.
  unfold getBackupsList, describeBackup.
  repeat first [ apply getTrashDirectory_quiet | quiet_step ].
Qed.

(** A try block whose handler returns a value never throws. *)
Lemma try_catch_ret_ok {A} (m : io A) (f : string -> A) (h : list event) :
  exists a, (try_catch m (fun e => mret (f e)) h).2 = ok a.
Proof.
  unfold try_catch. destruct (m h) as [t1 [a|e]]; simpl; eauto.
Qed.

Lemma getBackupsList_result (h : list event) :
  exists t backups,
    getBackupsList W h = (t, ok backups)
    /\ Forall (fun e => changes_files e = false) t.
Proof.
  pose proof (getBackupsList_quiet h) as Hq.
  assert (Ha : exists a, (getBackupsList W h).2 = ok a).
  { unfold getBackupsList. apply (try_catch_ret_ok _ (fun _ => [])). }
  destruct Ha as [a Ha].
  destruct (getBackupsList W h) as [t r]; simpl in *. subst r. eauto.
Qed.

(** C9. restoreBackup called with a target path whose parent directory does
    not exist, in every world and after every history: the call returns a
    failure (success false, an error text, no restoredTo), and its trace
    holds no copyFile, no writeFile and no unlink, so no file is created,
    overwritten or removed.  The error is the target-directory message
    whenever the backup id is one of the listed backups; for an id that is
    not listed the lookup fails first and the error is 'Backup not found'. *)
Theorem restoreBackup_missing_parent :
  forall (backupId targetPath : string) (h : list event),
    targetPath <> ""%string ->
    (forall h', w_existsSync W h' (path_dirname targetPath) = false) ->
    exists t error,
      restoreBackup W backupId (Some targetPath) h
      = (t, ok {| rr_success := false; rr_error := Some error;
                  rr_restoredTo := None |})
      /\ Forall (fun e => changes_files e = false) t
      /\ (error = "Backup not found"%string
          \/ error = "Target directory does not exist: "
                     +:+ path_dirname targetPath)
      /\ (forall t0 backups,
            getBackupsList W h = (t0, ok backups) ->
            (exists b, In b backups /\ b_id b = backupId) ->
            error = "Target directory does not exist: "
                    +:+ path_dirname targetPath).
Proof.
  intros backupId targetPath h Hne Hdir.
  unfold restoreBackup.
  destruct (getBackupsList_result h) as (t0 & backups & E & Q).
  unfold try_catch, mbind, io_bind, bind. rewrite E.
  assert (Ht : truthyString (Some targetPath) = true).
  { unfold truthyString. destruct (String.eqb_spec targetPath ""); [contradiction|reflexivity]. }
  rewrite Ht. simpl.
  destruct (find _ backups) as [backup|] eqn:Hfind.
  - run_io. rewrite Hdir. simpl. eexists _, _. split; [reflexivity|].
    split. { apply Forall_app; split; [assumption|repeat constructor]. }
    split; [now right|]. intros; reflexivity.
  - run_io. eexists _, _. split; [reflexivity|].
    split. { now rewrite app_nil_r. }
    split; [now left|].
    intros t0' backups' E' (b & Hin & Hid). 
    injection E' as <- <-.
    exfalso. apply find_none with (x := b) in Hfind; [|assumption].
    rewrite Hid, String.eqb_refl in Hfind. discriminate.
Qed.

(** C1. For every call of the delete handler, in every world: each call of
    unlink on a path comes directly after the calls of a successful backup
    of that path: the clock is read, the path's stat answers, the clock is
    read again, the path is copied with success to the backup path (in the
    trash directory under the user-data directory, named by the first clock
    reading with its colons replaced, an underscore and the path's base
    name), and the sidecar file (the backup path followed by .meta.json) is
    written with success, holding the JSON text of the record of the path
    itself, the size and the dates that the stat answered and the second
    clock reading.  Every write of the handler is the sidecar of the copy
    made just before it.  The handler returns one outcome per requested
    path, in order; an outcome with deleted = true has no error and names
    as its backup path the one the trace shows being copied to and given
    its sidecar right before the unlink of the outcome's path.  A path that
    does not exist gets the not-found outcome with deleted = false, and no
    copy or unlink is ever issued for it; for a single missing path the
    handler does nothing but the existence test. *)
Theorem deleteFiles_backs_up_before_unlink :
  forall (filePaths : list string) (h : list event),
    exists t response,
      deleteFiles W (array filePaths) h = (t, ok response)
      /\ map do_path (dr_data response) = filePaths
      /\ unlink_follows_backup t
      /\ sidecar_follows_copy t
      /\ (forall o, In o (dr_data response) -> deleted_with_backup t o)
      /\ (forall p,
            (forall h', w_existsSync W h' p = false) ->
            (forall o, In o (dr_data response) -> do_path o = p ->
                       o = notFound p)
            /\ (forall e, In e t ->
                  match e with
                  | ev_copyFile src _ _ | ev_unlink src _ => src <> p
                  | _ => True
                  end))
      /\ (forall p,
            filePaths = [p] -> w_existsSync W h p = false ->
            t = [ev_existsSync p false]
            /\ response = {| dr_success := false; dr_data := [notFound p];
                             dr_error := None |}).
Proof.
  intros filePaths h. destruct filePaths as [|p0 rest].
  - exists [], {| dr_success := false; dr_data := [];
                  dr_error := Some "No files provided for deletion"%string |}.
    split; [reflexivity|]. split; [reflexivity|].
    split. { intros pre ? ? ? H. destruct pre; discriminate. }
    split. { intros pre ? ? ? ? H. destruct pre; discriminate. }
    split. { intros ? []. }
    split. { intros q _. split; [intros ? []|intros ? []]. }
    intros q H. discriminate.
  - destruct (mapM_deleteOne (p0 :: rest) h)
      as (t & results & E & Hmap & Hu & Hs & Hx & Hnf & Hd).
    exists t, {| dr_success := forallb do_deleted results; dr_data := results;
                 dr_error := None |}.
    split.
    { unfold deleteFiles, mbind, io_bind, bind, mret, io_ret, ret.
      rewrite E. now rewrite app_nil_r. }
    split; [exact Hmap|]. split; [exact Hu|]. split; [exact Hs|].
    split; [exact Hd|]. split.
    + intros q Hq. split; [now apply Hnf|].
      intros e He. specialize (Hx e He).
      destruct e; try exact I; destruct Hx as [h' Hh']; intros ->;
        rewrite Hq in Hh'; discriminate.
    + intros q Hq Hex. injection Hq as -> ->.
      destruct (deleteOne_cases q h) as (t1 & o & E1 & _ & _ & _ & _ & Hnf1 & _).
      destruct (Hnf1 Hex) as [-> ->].
      simpl in E. unfold bind, ret in E. rewrite E1 in E. simpl in E.
      injection E as <- <-. split; reflexivity.
Qed.

(** C10. Called with something that is not an array, or with an empty
    array, the delete handler makes no call at all and returns success =
    false with an empty list of outcomes and the error message; a non-empty
    array gets one outcome per path and no such message. *)
Theorem deleteFiles_without_paths :
  forall (h : list event),
    deleteFiles W not_an_array h
    = ([], ok {| dr_success := false; dr_data := [];
                 dr_error := Some "No files provided for deletion"%string |})
    /\ deleteFiles W (array []) h
       = ([], ok {| dr_success := false; dr_data := [];
                    dr_error := Some "No files provided for deletion"%string |})
    /\ forall (p : string) (rest : list string),
         exists t response,
           deleteFiles W (array (p :: rest)) h = (t, ok response)
           /\ dr_error response = None
           /\ length (dr_data response) = S (length rest).
Proof.
  intros h. split; [reflexivity|]. split; [reflexivity|].
  intros p rest.
  destruct (mapM_deleteOne (p :: rest) h) as (t & results & E & Hmap & _).
  exists t, {| dr_success := forallb do_deleted results; dr_data := results;
               dr_error := None |}.
  split.
  { unfold deleteFiles, mbind, io_bind, bind, mret, io_ret, ret.
    rewrite E. now rewrite app_nil_r. }
  split; [reflexivity|].
  simpl. rewrite <- (length_map do_path), Hmap. reflexivity.
Qed.

End StoreFacts.

(** The theorem at work: one backup in the trash, restored to a path under
    a directory that does not exist. *)
Lemma restoreBackup_missing_parent_witness :
  (Store.restoreBackup (P := Sample.posix) (L := Sample.toy_platform)
     (Sample.fixed_world Sample.one_backup)
     "/data/trash/2024-05-01T10-20-30.3Z_a.txt7" (Some "/nowhere/x.txt"%string)
     []).2
  = Store.ok (Store.restoreFailure "Target directory does not exist: /nowhere").
Proof.
  destruct (restoreBackup_missing_parent
              (P := Sample.posix) (L := Sample.toy_platform)
              (Sample.fixed_world Sample.one_backup)
              "/data/trash/2024-05-01T10-20-30.3Z_a.txt7" "/nowhere/x.txt" []
              ltac:(discriminate) (fun _ => eq_refl))
    as (t & error & E & _ & _ & Hfound).
  rewrite E. simpl. unfold Store.restoreFailure. do 3 f_equal.
  eapply Hfound; [vm_compute; reflexivity|].
  eexists. split; [left; reflexivity|reflexivity].
Defined.

Section StoreMore.
Import Store.
Context {P : PathLib} {L : Platform}.
Variable W : world.

(** backupFile never throws, and it reports success only when its last two
    calls were a successful copy of the file to the backup path it returns
    and a successful write of that backup's sidecar file. *)
Theorem backupFile_success_after_sidecar :
  forall (filePath : string) (h : list event),
    exists t r,
      backupFile W filePath h = (t, ok r)
      /\ forall backupPath,
           r = backup_ok backupPath ->
           exists t0 data,
             t = t0 ++ [ev_copyFile filePath backupPath (ok tt);
                        ev_writeFile (backupPath +:+ ".meta.json") data (ok tt)].
Proof.
  intros filePath h. unfold backupFile, getTrashDirectory.
  unfold mbind, io_bind, mret, io_ret, bind, try_catch, ret, throw,
    existsSync, mkdir, stat, copyFile, writeFile, now; simpl.
  repeat case_match; simplify_eq; simpl;
    (eexists _, _; split; [reflexivity|]);
    intros backupPath Hb; simplify_eq;
    repeat match goal with u : () |- _ => destruct u end;
    first [ by eexists [_; _; _; _], _ | by eexists [_; _; _; _; _], _ ].
Qed.

Ltac solve_Forall :=
  repeat first [ assumption
               | match goal with
                 | |- Forall _ [] => constructor
                 | |- Forall _ (_ :: _) =>
                     constructor; [first [exact I | reflexivity]|]
                 | |- Forall _ (_ ++ _) => apply Forall_app; split
                 end ].

(** restoreBackup never throws, never unlinks and never writes a file: the
    backup and its sidecar stay in the trash. When it reports failure no
    copy has succeeded; when it reports success its last call is the one
    successful copy, to the path it reports. *)
Theorem restoreBackup_keeps_backup :
  forall (backupId : string) (targetPath : option string) (h : list event),
    exists t response,
      restoreBackup W backupId targetPath h = (t, ok response)
      /\ Forall (fun e => match e with
                          | ev_unlink _ _ | ev_writeFile _ _ _ => False
                          | _ => True
                          end) t
      /\ (rr_success response = false ->
          Forall (fun e => match e with
                           | ev_copyFile _ _ (ok _) => False
                           | _ => True
                           end) t)
      /\ (rr_success response = true ->
          exists t0 src dst,
            t = t0 ++ [ev_copyFile src dst (ok tt)]
            /\ rr_restoredTo response = Some dst
            /\ Forall (fun e => changes_files e = false) t0).
Proof.
  intros backupId targetPath h. unfold restoreBackup.
  destruct (getBackupsList_result W h) as (t0 & backups & E & Q).
  assert (Q' : Forall (fun e => match e with
                                | ev_unlink _ _ | ev_writeFile _ _ _ => False
                                | _ => True
                                end) t0).
  { eapply Forall_impl; [exact Q|]. intros e He. now destruct e. }
  assert (Q'' : Forall (fun e => match e with
                                 | ev_copyFile _ _ (ok _) => False
                                 | _ => True
                                 end) t0).
  { eapply Forall_impl; [exact Q|]. intros e He. now destruct e. }
  unfold try_catch, mbind, io_bind, bind. rewrite E.
  unfold mret, io_ret, ret, existsSync, showMessageBox, copyFile, restoreFailure.
  simpl.
  repeat case_match; simplify_eq; simpl;
    repeat match goal with u : () |- _ => destruct u end;
    (eexists _, _; split; [reflexivity|]); simpl.
  all: split; [solve_Forall|].
  all: split; [intros ?; try discriminate; solve_Forall|].
  all: intros ?; try discriminate.
  all: first [ eexists (t0 ++ [_; _]), _, _; split;
                 [exact (app_assoc t0 [_; _] [_])|]
             | eexists (t0 ++ [_; _; _]), _, _; split;
                 [exact (app_assoc t0 [_; _; _] [_])|] ];
    (split; [reflexivity|]); solve_Forall.
Qed.

End StoreMore.

(** *** Restoring, listing and naming backups *)

Section StoreExtra.
Import Store.
Context {P : PathLib} {L : Platform}.
Variable W : world.

Ltac run_io :=
  unfold mbind, io_bind, mret, io_ret, bind, try_catch, ret, throw,
    existsSync, mkdir, stat, copyFile, writeFile, unlink, readdir, readFile,
    now, showMessageBox; simpl.

Ltac split_trace :=
  repeat match goal with
         | H : [] = ?pre ++ _ :: _ |- _ => destruct pre; discriminate H
         | H : _ :: _ = ?pre ++ _ :: _ |- _ =>
             destruct pre as [|? pre]; simpl in H;
             injection H as ? H; try discriminate; subst
         end.

(** A trace without a call that changes files has no copy in it. *)
Lemma no_copy_in_quiet (pre post : list event) src dst r :
  Forall (fun e => changes_files e = false)
    (pre ++ ev_copyFile src dst r :: post) -> False.
Proof.
  intros Hq. apply Forall_app in Hq as [_ Hq].
  apply Forall_cons in Hq as [Hq _]. discriminate.
Qed.

(** Restoring a backup (the 'restore-backup' handler, which is
    restoreBackup) never overwrites a file unasked. It copies at most once,
    as its last call, and the call just before the copy is either the
    existence test of the destination answered false, or the message box
    about the existing destination, answered with a button other than
    Cancel (after the existence test answered true). *)
Theorem restoreBackup_asks_before_overwrite :
  forall (backupId : string) (targetPath : option string) (h : list event),
    exists t r,
      Handlers.restoreBackupHandler W backupId targetPath h = (t, r)
      /\ forall pre src dst res post,
           t = pre ++ ev_copyFile src dst res :: post ->
           post = []
           /\ ((exists pre', pre = pre' ++ [ev_existsSync dst false])
               \/ (exists pre' detail response,
                     pre = pre' ++ [ev_existsSync dst true;
                                    ev_messageBox detail response]
                     /\ response <> 0)).
Proof.
  intros backupId targetPath h.
  unfold Handlers.restoreBackupHandler, restoreBackup.
  destruct (getBackupsList_result W h) as (t0 & backups & E & Q).
  unfold try_catch, mbind, io_bind, bind. rewrite E.
  destruct (find _ backups) as [backup|].
  2:{ run_io. eexists _, _. split; [reflexivity|].
      intros pre src dst res post H. rewrite app_nil_r in H. subst t0.
      now apply no_copy_in_quiet in Q. }
  set (restorationPath := if truthyString targetPath then _ else _).
  destruct (negb (truthyString targetPath) && _).
  { run_io. eexists _, _. split; [reflexivity|].
    intros pre src dst res post H. rewrite app_nil_r in H. subst t0.
    now apply no_copy_in_quiet in Q. }
  run_io.
  destruct (w_existsSync W (h ++ t0) _) eqn:Hdir; simpl.
  2:{ eexists _, _. split; [reflexivity|].
      intros pre src dst res post H.
      apply app_eq_split in H as [[k [-> ->]]|[k [-> Hk]]].
      - now apply no_copy_in_quiet in Q.
      - split_trace. }
  destruct (w_existsSync W ((h ++ t0) ++ _) restorationPath) eqn:Hfile; simpl.
  - destruct (w_messageBox W _ _ =? 0) eqn:Hresp; simpl.
    + eexists _, _. split; [reflexivity|].
      intros pre src dst res post H.
      apply app_eq_split in H as [[k [-> ->]]|[k [-> Hk]]].
      * now apply no_copy_in_quiet in Q.
      * split_trace.
    + apply Z.eqb_neq in Hresp.
      destruct (w_copyFile W _ _ _) as [[]|e] eqn:Hcopy; simpl;
        (eexists _, _; split; [reflexivity|]);
        intros pre src dst res post H; rewrite ?app_nil_r in H;
        (apply app_eq_split in H as [[k [-> ->]]|[k [-> Hk]]];
         [now apply no_copy_in_quiet in Q|]);
        split_trace; (split; [reflexivity|]); right;
        exists (t0 ++ [ev_existsSync (path_dirname restorationPath) true]);
        eexists _, _; (split; [exact (app_assoc t0 [_] [_; _])|exact Hresp]).
  - destruct (w_copyFile W _ _ _) as [[]|e] eqn:Hcopy; simpl;
      (eexists _, _; split; [reflexivity|]);
      intros pre src dst res post H; rewrite ?app_nil_r in H;
      (apply app_eq_split in H as [[k [-> ->]]|[k [-> Hk]]];
       [now apply no_copy_in_quiet in Q|]);
      split_trace; (split; [reflexivity|]); left;
      exists (t0 ++ [ev_existsSync (path_dirname restorationPath) true]);
      exact (app_assoc t0 [_] [_]).
Qed.

End StoreExtra.

Section StoreListing.
Import Store Handlers.
Context {P : PathLib} {L : Platform}.
Variable W : world.

Ltac run_io :=
  unfold mbind, io_bind, mret, io_ret, bind, try_catch, ret, throw,
    existsSync, mkdir, stat, copyFile, writeFile, unlink, readdir, readFile,
    now, showMessageBox; simpl.

Lemma listed_incl t t' b :
  (forall e, In e t -> In e t') -> listed t b -> listed t' b.
Proof.
  intros Hi (Ho & Hf & st & Hin & Hs). repeat split; try assumption.
  exists st. split; [now apply Hi|assumption].
Qed.

Lemma describeBackup_cases (trashPath file : string) (h : list event) :
  exists t r,
    describeBackup W trashPath file h = (t, ok r)
    /\ Forall (fun e => changes_files e = false) t
    /\ forall b, r = Some b ->
         b_backupPath b = path_join trashPath file /\ listed t b.
Proof.
  unfold describeBackup, listed. run_io.
  repeat case_match; simplify_eq; simpl;
    (eexists _, _; split; [reflexivity|]);
    (split; [repeat constructor|]);
    intros b Hb; simplify_eq; simpl;
    (split; [reflexivity|]);
    (split; [try done; try (intros ->; discriminate)|]);
    (split; [reflexivity|]);
    eexists; (split; [left; reflexivity|reflexivity]).
Qed.

Lemma mapM_describeBackup (trashPath : string) (files : list string)
    (h : list event) :
  exists t rs,
    mapM (describeBackup W trashPath) files h = (t, ok rs)
    /\ Forall (fun e => changes_files e = false) t
    /\ b_backupPath <$> omap id rs `sublist_of` path_join trashPath <$> files
    /\ Forall (listed t) (omap id rs).
Proof.
  revert h. induction files as [|file files IH]; intros h; simpl.
  - exists [], []. unfold ret. repeat split; constructor.
  - destruct (describeBackup_cases trashPath file h) as (t1 & r & E1 & Q1 & Hr).
    destruct (IH (h ++ t1)) as (t2 & rs & E2 & Q2 & Hsub & Hl).
    exists (t1 ++ t2), (r :: rs).
    unfold bind, ret. rewrite E1, E2. simpl. rewrite app_nil_r.
    split; [reflexivity|]. split; [now apply Forall_app|].
    destruct r as [b|]; simpl.
    + destruct (Hr b eq_refl) as [Hp Hb]. split.
      * csimpl. rewrite Hp. now apply sublist_skip.
      * constructor.
        -- eapply listed_incl; [|exact Hb].
           intros e He. apply in_or_app. now left.
        -- eapply Forall_impl; [exact Hl|]. intros b' Hb'.
           eapply listed_incl; [|exact Hb'].
           intros e He. apply in_or_app. now right.
    + split.
      * csimpl. now apply sublist_cons.
      * eapply Forall_impl; [exact Hl|]. intros b' Hb'.
        eapply listed_incl; [|exact Hb'].
        intros e He. apply in_or_app. now right.
Qed.

Lemma getBackupsList_spec (h : list event) :
  exists t backups,
    getBackupsList W h = (t, ok backups)
    /\ Forall (fun e => changes_files e = false) t
    /\ (backups = []
        \/ exists files,
             In (ev_readdir (path_join userData "trash") (ok files)) t
             /\ b_backupPath <$> backups
                `sublist_of`
                path_join (path_join userData "trash")
                <$> List.filter
                      (fun file => negb (JS.endsWith file ".meta.json")) files)
    /\ Forall (listed t) backups.
Proof.
  unfold getBackupsList, getTrashDirectory.
  set (trashPath := path_join userData "trash").
  unfold try_catch, mbind, io_bind, bind, existsSync, mkdir, readdir, mret,
    io_ret, ret; simpl.
  destruct (w_existsSync W h trashPath) eqn:Hex; simpl.
  - destruct (w_readdir W _ trashPath) as [files|e] eqn:Hrd; simpl.
    + match goal with
      | |- context [mapM _ ?fs ?h0] =>
          destruct (mapM_describeBackup trashPath fs h0)
            as (t2 & rs & E2 & Q2 & Hsub & Hl)
      end.
      rewrite E2. simpl. rewrite app_nil_r.
      eexists _, _. split; [reflexivity|].
      split; [repeat constructor; exact Q2|].
      split.
      * right. exists files. split; [right; left; reflexivity|exact Hsub].
      * eapply Forall_impl; [exact Hl|]. intros b Hb.
        eapply listed_incl; [|exact Hb]. intros e He. now do 2 right.
    + eexists _, _. split; [reflexivity|].
      split; [repeat constructor|]. split; [now left|constructor].
  - destruct (w_mkdir W _ trashPath) as [[]|e] eqn:Hmk; simpl.
    + destruct (w_readdir W _ trashPath) as [files|e] eqn:Hrd; simpl.
      * match goal with
        | |- context [mapM _ ?fs ?h0] =>
            destruct (mapM_describeBackup trashPath fs h0)
              as (t2 & rs & E2 & Q2 & Hsub & Hl)
        end.
        rewrite E2. simpl. rewrite app_nil_r.
        eexists _, _. split; [reflexivity|].
        split; [repeat constructor; exact Q2|].
        split.
        -- right. exists files.
           split; [right; right; left; reflexivity|exact Hsub].
        -- eapply Forall_impl; [exact Hl|]. intros b Hb.
           eapply listed_incl; [|exact Hb]. intros e He. now do 3 right.
      * eexists _, _. split; [reflexivity|].
        split; [repeat constructor|]. split; [now left|constructor].
    + eexists _, _. split; [reflexivity|].
      split; [repeat constructor|]. split; [now left|constructor].
Qed.

(** Every backup getBackupsList returns is a file that the listing of the
    trash directory named and that is not a sidecar, in the order of the
    listing; its stat succeeded and gave its size; its original path is
    never empty. When the trash directory cannot be created or listed the
    list is empty. No call changes a file. *)
Theorem getBackupsList_lists_backups :
  forall (h : list event),
    exists t backups,
      getBackupsList W h = (t, ok backups)
      /\ Forall (fun e => changes_files e = false) t
      /\ (backups = []
          \/ exists files,
               In (ev_readdir (path_join userData "trash") (ok files)) t
               /\ b_backupPath <$> backups
                  `sublist_of`
                  path_join (path_join userData "trash")
                  <$> List.filter
                        (fun file => negb (JS.endsWith file ".meta.json"))
                        files)
      /\ Forall (listed t) backups.
Proof. exact getBackupsList_spec. Qed.

(** The 'get-backups' handler never answers with a failure: it resolves
    to the list getBackupsList returns, which is empty when the trash
    cannot be read, and it changes no file. *)
Theorem getBackups_never_fails :
  forall (h : list event),
    exists t backups,
      getBackups W h = (t, ok (backups_listed backups))
      /\ getBackupsList W h = (t, ok backups)
      /\ Forall (fun e => changes_files e = false) t.
Proof.
  intros h. destruct (getBackupsList_spec h) as (t & backups & E & Q & _).
  exists t, backups. unfold getBackups, try_catch, mbind, io_bind, bind.
  rewrite E. simpl. rewrite app_nil_r. auto.
Qed.

(** restoreBackup never answers that the original path is missing: the
    list of backups puts 'Unknown' in the place of a missing original
    path, so the test for an empty original path never succeeds. *)
Theorem restoreBackup_never_asks_for_target :
  forall (backupId : string) (targetPath : option string) (h : list event),
    exists t response,
      restoreBackup W backupId targetPath h = (t, ok response)
      /\ rr_error response
         <> Some "Original path not found. Please specify a target path."%string.
Proof.
  intros backupId targetPath h. unfold restoreBackup.
  destruct (getBackupsList_spec h) as (t0 & backups & E & _ & _ & Hl).
  unfold try_catch, mbind, io_bind, bind. rewrite E.
  destruct (find _ backups) as [backup|] eqn:Hfind.
  2:{ run_io. eexists _, _. split; [reflexivity|]. simpl. discriminate. }
  apply find_some in Hfind as [Hin _].
  rewrite Forall_forall in Hl. destruct (Hl backup) as [Ho _].
  { now apply list_elem_of_In. }
  apply String.eqb_neq in Ho. rewrite Ho, andb_false_r.
  run_io.
  repeat case_match; simplify_eq; simpl;
    (eexists _, _; split; [reflexivity|]); simpl; discriminate.
Qed.

End StoreListing.

Section BackupNames.
Import Store Handlers.
Context {P : PathLib} {L : Platform}.
Variable W : world.

(** At the head of an ISO time stamp whose colons were replaced, the run
    of characters of the class [0-9\-TZ_] ends at the full stop of the
    milliseconds (or at a sign), before any underscore. *)
Lemma stripRun_iso (stamp rest : string) (seen : bool) (best : option string) :
  isoShaped stamp = true ->
  stripRun (replaceColons stamp +:+ rest) seen best = best.
Proof.
  revert seen. induction stamp as [|c stamp IH]; intros seen Hs; simpl in *.
  - discriminate.
  - destruct (Ascii.eqb_spec c "."); [subst c; reflexivity|].
    simpl in Hs. apply andb_prop in Hs as [Hc Hs].
    destruct (Ascii.eqb_spec c ":").
    + subst c. simpl. rewrite andb_false_r. now apply IH.
    + destruct (inStampClass c) eqn:Hcl; [|reflexivity].
      assert (Hu : Ascii.eqb c "_" = false).
      { unfold dateTimeChar in Hc. unfold Classifier.is_digit in Hc.
        destruct (Ascii.eqb_spec c "_"); [subst c; discriminate|reflexivity]. }
      rewrite Hu, andb_false_r. now apply IH.
Qed.

(** The file name shown for a backup keeps its time stamp. backupFile
    names a backup by the ISO time with its colons replaced, an underscore
    and the base name of the file, inside the trash directory. The
    expression getBackupsList uses to remove the stamp from such a name,
    [replace(/^[0-9\-TZ_]+_/, '')], removes nothing: the full stop before
    the milliseconds is not in its character class. *)
Theorem backupFile_name_keeps_timestamp :
  forall (filePath backupPath : string) (h t : list event),
    (forall ms, isoShaped (toISOString ms) = true) ->
    backupFile W filePath h = (t, ok (backup_ok backupPath)) ->
    exists stamp,
      backupPath = path_join (path_join userData "trash")
                     (stamp +:+ "_" +:+ path_basename filePath)
      /\ stripTimestamp (stamp +:+ "_" +:+ path_basename filePath)
         = stamp +:+ "_" +:+ path_basename filePath.
Proof.
  intros filePath backupPath h t Hiso. unfold backupFile, getTrashDirectory.
  unfold mbind, io_bind, mret, io_ret, bind, try_catch, ret, throw,
    existsSync, mkdir, stat, copyFile, writeFile, now; simpl.
  repeat case_match; simplify_eq; simpl; intros H; simplify_eq;
    (eexists; split; [reflexivity|]);
    unfold stripTimestamp; now rewrite stripRun_iso.
Qed.

End BackupNames.

(** The theorem at work: the backup of /home/u/a.txt in a world that
    tracks the files. *)
Lemma backupFile_name_keeps_timestamp_witness :
  exists stamp,
    "/data/trash/2024-05-01T10-20-30.1Z_a.txt"%string
    = path_join (PathLib := Sample.posix)
        (path_join (PathLib := Sample.posix)
           (Store.userData (Platform := Sample.toy_platform)) "trash")
        (stamp +:+ "_" +:+ path_basename (PathLib := Sample.posix) "/home/u/a.txt")
    /\ Store.stripTimestamp
         (stamp +:+ "_" +:+ path_basename (PathLib := Sample.posix) "/home/u/a.txt")
       = stamp +:+ "_" +:+ path_basename (PathLib := Sample.posix) "/home/u/a.txt".
Proof.
  refine (backupFile_name_keeps_timestamp
            (P := Sample.posix) (L := Sample.toy_platform)
            (Sample.tracking_world ["/data"; "/data/trash"; "/home/u/a.txt"]%string)
            "/home/u/a.txt" _ [] _ (fun ms => eq_refl) _).
  vm_compute. reflexivity.
Defined.

(** ** The preview and settings handlers *)

Section PreviewFacts.
Import Store Handlers.
Context {P : PathLib} {L : Platform} {B : BufferLib}.
Variable W : world.

Ltac run_io :=
  unfold mbind, io_bind, mret, io_ret, bind, try_catch, ret, throw,
    existsSync, mkdir, stat, copyFile, writeFile, unlink, readdir, readFile,
    now, showMessageBox; simpl.

Ltac split_trace :=
  repeat match goal with
         | H : [] = ?pre ++ _ :: _ |- _ => destruct pre; discriminate H
         | H : _ :: _ = ?pre ++ _ :: _ |- _ =>
             destruct pre as [|? pre]; simpl in H;
             injection H as ? H; try discriminate; subst
         end.

(** The 'preview-file' handler never throws and changes no file. It reads
    the file at most once, as its last call, and only after existsSync
    answered true and stat described a file that is not a directory, of at
    most 5 MB, whose extension in lower case is one of the image or text
    extensions. *)
Theorem previewFile_reads_only_small_known_files :
  forall (filePath : string) (h : list event),
    exists t response,
      previewFile W filePath h = (t, ok response)
      /\ Forall (fun e => changes_files e = false) t
      /\ forall pre p r post,
           t = pre ++ ev_readFile p r :: post ->
           p = filePath /\ post = []
           /\ exists st,
                pre = [ev_existsSync filePath true; ev_stat filePath (ok st)]
                /\ st_isDirectory st = false
                /\ st_size st <= MAX_PREVIEW_SIZE
                /\ (JS.array_includes imageExts
                      (JS.toLowerCase (path_extname filePath))
                    || JS.array_includes textExts
                         (JS.toLowerCase (path_extname filePath))) = true.
Proof.
  intros filePath h. unfold previewFile. run_io.
  repeat case_match; simplify_eq; simpl;
    (eexists _, _; split; [reflexivity|]);
    (split; [repeat constructor|]);
    intros pre p r post H; split_trace;
    repeat split;
    repeat match goal with
           | H : negb _ = false |- _ => apply negb_false_iff in H; rewrite H
           | H : (_ <? _) = false |- _ => apply Z.ltb_ge in H
           end;
    eauto 10.
Qed.

(** When the handler reports success, its last call read the file, the
    type is image or text by the extension in lower case (image first),
    and the data is what was read: as it is for text, encoded in base64
    for an image. *)
Theorem previewFile_success :
  forall (filePath : string) (h t : list event) (response : previewResponse),
    previewFile W filePath h = (t, ok response) ->
    pv_success response = true ->
    exists t0 data,
      t = t0 ++ [ev_readFile filePath (ok data)]
      /\ pv_error response = None
      /\ ((JS.array_includes imageExts
             (JS.toLowerCase (path_extname filePath)) = true
           /\ pv_type response = Some preview_image
           /\ pv_data response = Some (toBase64 data))
          \/ (JS.array_includes imageExts
                (JS.toLowerCase (path_extname filePath)) = false
              /\ JS.array_includes textExts
                   (JS.toLowerCase (path_extname filePath)) = true
              /\ pv_type response = Some preview_text
              /\ pv_data response = Some data)).
Proof.
  intros filePath h t response. unfold previewFile. run_io.
  repeat case_match; simplify_eq; simpl; intros H Hs; simplify_eq;
    try discriminate;
    eexists [_; _], _; (split; [reflexivity|]); (split; [reflexivity|]);
    [left|right]; auto.
Qed.

End PreviewFacts.

(** The theorem at work: an image whose extension is in upper case. *)
Lemma previewFile_success_witness :
  exists t response,
    Handlers.previewFile (P := Sample.posix) (B := Examples.tagged_base64)
      (Sample.fixed_world ["/data"; "/data/pic.PNG"]%string) "/data/pic.PNG" []
    = (t, Store.ok response)
    /\ Handlers.pv_success response = true
    /\ Handlers.pv_type response = Some Handlers.preview_image
    /\ Handlers.pv_data response = Some "base64:/home/u/a.txt"%string.
Proof.
  eexists _, _. split; [vm_compute; reflexivity|]. split; [reflexivity|].
  destruct (previewFile_success
              (P := Sample.posix) (B := Examples.tagged_base64)
              (Sample.fixed_world ["/data"; "/data/pic.PNG"]%string)
              "/data/pic.PNG" [] _ _ ltac:(vm_compute; reflexivity) eq_refl)
    as (t0 & data & Ht & _ & [(_ & Hty & Hd)|(Himg & _)]).
  - split; [exact Hty|]. rewrite Hd.
    apply (app_inj_tail [_; _] t0) in Ht as [_ Ht].
    injection Ht as <-. reflexivity.
  - vm_compute in Himg. discriminate.
Defined.

Section SettingsFacts.
Import Store Settings.
Context {P : PathLib} {L : Platform} {J : SettingsJson}.
Variable W : world.

Lemma bool_or_true (x : option bool) : bool_or x true = true.
Proof. now destruct x as [[]|]. Qed.

(** Saving settings never throws: the handler resolves to the value
    saveSettingsToFile returns and never to an error. Without a settings
    object nothing is written and the value is false. With one there is a
    single call, the write of the validated settings to settings.json in
    the user-data directory, and the value is true exactly when that write
    succeeds. In what is written, the eight switches whose default is true
    are true whatever the renderer sent: a switch set to false is stored
    as true. *)
Theorem saveSettings_stores_default_true_switches_as_true :
  forall (settings0 : option settingsIn) (h : list event),
    exists t success,
      saveSettings W settings0 h
      = (t, ok {| sv_success := success; sv_error := None |})
      /\ saveSettingsToFile W settings0 h = (t, ok success)
      /\ (settings0 = None -> t = [] /\ success = false)
      /\ forall s,
           settings0 = Some s ->
           let v := validatedSettings s in
           (exists r,
              t = [ev_writeFile (path_join userData "settings.json")
                     (stringify v) r]
              /\ (success = true <-> r = ok tt))
           /\ minimizeToTray (v_general v) = true
           /\ closeToTray (v_general v) = true
           /\ checkForUpdates (v_general v) = true
           /\ ignoreDotFiles (v_scanning v) = true
           /\ keepBackups (v_backups v) = true
           /\ showNotifications (v_notifications v) = true
           /\ notifyOnScanComplete (v_notifications v) = true
           /\ notifyOnCleanupComplete (v_notifications v) = true.
Proof.
  intros settings0 h. unfold saveSettings, saveSettingsToFile.
  unfold mbind, io_bind, mret, io_ret, bind, try_catch, ret, throw, writeFile.
  destruct settings0 as [s|]; simpl.
  - destruct (w_writeFile W h _ _) as [[]|e] eqn:Hw; simpl;
      (eexists _, _; split; [reflexivity|]); (split; [reflexivity|]);
      (split; [discriminate|]); intros s' Hs; simplify_eq; simpl;
      rewrite !bool_or_true; (split; [|tauto]);
      eexists; (split; [reflexivity|]);
      split; congruence.
  - eexists _, _. split; [reflexivity|]. split; [reflexivity|].
    split; [tauto|]. discriminate.
Qed.

Lemma bool_or_idem (x : option bool) (d : bool) :
  bool_or (Some (bool_or x d)) d = bool_or x d.
Proof. now destruct x as [[]|], d. Qed.

Lemma string_or_idem (x : option string) (d : string) :
  string_or (Some (string_or x d)) d = string_or x d.
Proof.
  unfold string_or. destruct x as [v|].
  - destruct (String.eqb v "") eqn:E; [|now rewrite E].
    now destruct (String.eqb d "").
  - now destruct (String.eqb d "").
Qed.

Lemma or_default_idem (x : option Z) (d : Z) :
  JS.or_default (Some (JS.or_default x d)) d = JS.or_default x d.
Proof.
  unfold JS.or_default. destruct x as [v|].
  - destruct (v =? 0) eqn:E; [|now rewrite E].
    now destruct (d =? 0).
  - now destruct (d =? 0).
Qed.

(** Validation is idempotent: the settings that were written, sent again,
    are written unchanged. *)
Theorem validatedSettings_idempotent :
  forall (s : settingsIn),
    validatedSettings (asInput (validatedSettings s)) = validatedSettings s.
Proof.
  intros s. unfold validatedSettings, asInput.
  cbn -[bool_or string_or JS.or_default].
  rewrite !bool_or_idem, !string_or_idem, !or_default_idem. reflexivity.
Qed.

End SettingsFacts.

(** ** Renderer: the duplicate selection, the file list and deletions *)

Section SelectionFacts.
Import Duplicates Renderer.

Lemma initialSelection_values (groups : list duplicateGroup)
    (k v : string) :
  initialSelection groups !! k = Some v -> v = "newest"%string.
Proof.
  unfold initialSelection.
  assert (H : forall (sel : gmap string string),
             (forall k v, sel !! k = Some v -> v = "newest"%string) ->
             forall k v,
               fold_left
                 (fun selection group =>
                    if (0 <? length (g_files group))%nat
                    then <[keyOf (g_hash group) := "newest"%string]> selection
                    else selection) groups sel !! k = Some v ->
               v = "newest"%string).
  { induction groups as [|g groups IH]; intros sel Hsel k0 v0; simpl.
    - apply Hsel.
    - apply IH. intros k1 v1. destruct (0 <? length (g_files g))%nat.
      + destruct (decide (keyOf (g_hash g) = k1)) as [->|Hne].
        * rewrite lookup_insert_eq. congruence.
        * rewrite lookup_insert_ne by assumption. apply Hsel.
      + apply Hsel. }
  apply H. intros k0 v0. rewrite lookup_empty. discriminate.
Qed.

Lemma selectionType_initial (groups : list duplicateGroup) (g : duplicateGroup) :
  selectionType (initialSelection groups) g = "newest"%string.
Proof.
  unfold selectionType.
  destruct (initialSelection groups !! keyOf (g_hash g)) as [v|] eqn:E;
    [|reflexivity].
  apply initialSelection_values in E. now subst v.
Qed.

Lemma filesToDelete_newest_count (all groups : list duplicateGroup) :
  Forall (fun g => (2 <= length (g_files g))%nat) groups ->
  Z.of_nat (length (concat (map (groupFilesToDelete (initialSelection all)) groups)))
  = JS.sumZ ((fun g => Z.of_nat (length (g_files g)) - 1) <$> groups).
Proof.
  induction 1 as [|g groups Hg _ IH]; simpl; [reflexivity|].
  rewrite length_app, Nat2Z.inj_add, IH. f_equal.
  unfold groupFilesToDelete. rewrite selectionType_initial. simpl.
  rewrite length_map, length_drop. lia.
Qed.

Context {P : PathLib} {F : FileSystem} {C : Crypto}.

(** With the selection the component sets after a search (keep the first
    file of every group), the list of files to delete has exactly
    totalDuplicates paths. *)
Theorem initial_selection_deletes_totalDuplicates :
  forall (filePaths : list string) (o : options) (data : result)
         (msgs : list progress),
    findDuplicates filePaths o = success data msgs ->
    Z.of_nat (length (getFilesToDelete (duplicateGroups data)
                        (initialSelection (duplicateGroups data))))
    = totalDuplicates data.
Proof.
  intros filePaths o data msgs H.
  destruct (findDuplicates_success _ _ _ _ H) as (Hg & -> & _).
  unfold getFilesToDelete. rewrite filesToDelete_newest_count.
  - rewrite Hg. apply sumZ_Permutation, fmap_Permutation, sort_desc_Permutation.
  - rewrite Hg. rewrite (sort_desc_Permutation sortKey).
    apply Forall_forall. intros g Hin.
    apply list_elem_of_omap in Hin as (entry & _ & Hm).
    apply makeGroup_Some in Hm as [-> Hlen]. exact Hlen.
Qed.

End SelectionFacts.

Section KeepOne.
Import Duplicates Renderer.

Lemma groupFilesToDelete_subset selection g p :
  p ∈ groupFilesToDelete selection g -> p ∈ df_path <$> g_files g.
Proof.
  unfold groupFilesToDelete.
  repeat case_match; intros Hin.
  - exact Hin.
  - apply list_elem_of_fmap in Hin as (f & -> & Hf).
    apply list_elem_of_fmap. exists f. split; [reflexivity|].
    eapply elem_of_sublist; [exact Hf|apply sublist_drop].
  - apply list_elem_of_fmap in Hin as (f & -> & Hf).
    apply list_elem_of_fmap. exists f. split; [reflexivity|].
    eapply elem_of_sublist; [exact Hf|apply sublist_take].
  - inversion Hin.
  - apply list_elem_of_fmap in Hin as (f & -> & Hf).
    apply list_elem_of_fmap. exists f. split; [reflexivity|].
    apply list_elem_of_In in Hf. apply filter_In in Hf as [Hf _].
    now apply list_elem_of_In.
Qed.

Lemma concat_filesToDelete_subset selection groups p :
  p ∈ concat (map (groupFilesToDelete selection) groups) ->
  p ∈ concat (map (fun g => df_path <$> g_files g) groups).
Proof.
  induction groups as [|g groups IH]; simpl; [easy|].
  rewrite !elem_of_app. intros [H|H]; [left|right; auto].
  eapply groupFilesToDelete_subset; exact H.
Qed.

(** Within one group whose paths are distinct, a selection other than
    'all' that is a keyword or the path of a member leaves a member out. *)
Lemma groupFilesToDelete_keeps_one selection g :
  NoDup (df_path <$> g_files g) ->
  g_files g <> [] ->
  selectionType selection g <> "all"%string ->
  selectionType selection g ∈ ["newest"; "oldest"; "none"]%string
  \/ selectionType selection g ∈ df_path <$> g_files g ->
  exists f, f ∈ g_files g /\ df_path f ∉ groupFilesToDelete selection g.
Proof.
  intros Hnd Hne Hall Hsel. unfold groupFilesToDelete.
  destruct (String.eqb_spec (selectionType selection g) "all"); [contradiction|].
  destruct (String.eqb_spec (selectionType selection g) "newest").
  { destruct (g_files g) as [|f files]; [contradiction|].
    exists f. split; [left|]. simpl. rewrite drop_0.
    csimpl in Hnd. now apply NoDup_cons in Hnd as [Hf _]. }
  destruct (String.eqb_spec (selectionType selection g) "oldest").
  { destruct (exists_last Hne) as (files0 & f0 & Hfiles).
    rewrite Hfiles in *. exists f0. split; [apply elem_of_app; right; left|].
    rewrite length_app. simpl. replace (length files0 + 1 - 1)%nat with (length files0) by lia.
    rewrite take_app_length. rewrite fmap_app in Hnd.
    apply NoDup_app in Hnd as (_ & Hd & _). intros Hin.
    apply (Hd _ Hin). left. }
  destruct (String.eqb_spec (selectionType selection g) "none").
  { destruct (g_files g) as [|f files]; [contradiction|].
    exists f. split; [left|]. inversion 1. }
  destruct Hsel as [Hsel|Hsel].
  { repeat (apply elem_of_cons in Hsel as [Hsel|Hsel]; [contradiction|]).
    inversion Hsel. }
  apply list_elem_of_fmap in Hsel as (f & Hp & Hf).
  exists f. split; [exact Hf|]. intros Hin.
  apply list_elem_of_fmap in Hin as (f' & Hp' & Hf').
  apply list_elem_of_In in Hf'. apply filter_In in Hf' as [_ Hf'].
  rewrite <- Hp', <- Hp, String.eqb_refl in Hf'. discriminate.
Qed.

(** getFilesToDelete leaves a copy of every group: when the paths of all
    members of all groups are distinct, and the selection of a group is
    'newest', 'oldest', 'none' or the path of one of its members, some
    member of the group is not in the list of files to delete. Only the
    selection 'all', or a path that is not a member's, removes every copy. *)
Theorem getFilesToDelete_keeps_one_per_group :
  forall (groups : list duplicateGroup) (selection : gmap string string)
         (g : duplicateGroup),
    NoDup (concat (map (fun g => df_path <$> g_files g) groups)) ->
    g ∈ groups ->
    g_files g <> [] ->
    selectionType selection g ∈ ["newest"; "oldest"; "none"]%string
    \/ selectionType selection g ∈ df_path <$> g_files g ->
    selectionType selection g <> "all"%string ->
    exists f, f ∈ g_files g /\ df_path f ∉ getFilesToDelete groups selection.
Proof.
  intros groups selection g Hnd Hg Hne Hsel Hall.
  apply list_elem_of_split in Hg as (l1 & l2 & ->).
  rewrite map_app, concat_app in Hnd. simpl in Hnd.
  apply NoDup_app in Hnd as (_ & Hd1 & Hnd).
  apply NoDup_app in Hnd as (Hg & Hd2 & _).
  destruct (groupFilesToDelete_keeps_one selection g Hg Hne Hall Hsel)
    as (f & Hf & Hout).
  exists f. split; [exact Hf|].
  unfold getFilesToDelete. rewrite map_app, concat_app. simpl.
  rewrite !elem_of_app. intros [Hin|[Hin|Hin]].
  - apply concat_filesToDelete_subset in Hin.
    apply (Hd1 _ Hin). apply elem_of_app. left.
    apply list_elem_of_fmap. now exists f.
  - contradiction.
  - apply concat_filesToDelete_subset in Hin.
    apply (Hd2 (df_path f)); [|exact Hin].
    apply list_elem_of_fmap. now exists f.
Qed.

End KeepOne.

(** The theorem at work: the search over two files with the same content. *)
Lemma initial_selection_deletes_totalDuplicates_witness :
  exists data msgs,
    Duplicates.findDuplicates (P := Sample.posix) (F := Sample.fs_of Sample.twins)
      (C := Sample.plain_digest) ["/d/x.txt"; "/d/y.txt"]%string
      Sample.default_options
    = Duplicates.success data msgs
    /\ Z.of_nat
         (length (Renderer.getFilesToDelete (Duplicates.duplicateGroups data)
                    (Renderer.initialSelection (Duplicates.duplicateGroups data))))
       = Duplicates.totalDuplicates data.
Proof.
  eexists _, _. split; [vm_compute; reflexivity|].
  eapply (initial_selection_deletes_totalDuplicates
            (P := Sample.posix) (F := Sample.fs_of Sample.twins)
            (C := Sample.plain_digest) ["/d/x.txt"; "/d/y.txt"]%string
            Sample.default_options).
  vm_compute. reflexivity.
Defined.

(** The theorem at work: one group of two files and no selection made. *)
Lemma getFilesToDelete_keeps_one_per_group_witness :
  exists f,
    f ∈ Duplicates.g_files Examples.twin_group
    /\ Duplicates.df_path f
       ∉ Renderer.getFilesToDelete [Examples.twin_group] ∅.
Proof.
  apply (getFilesToDelete_keeps_one_per_group [Examples.twin_group] ∅
           Examples.twin_group).
  - apply (bool_decide_unpack _). vm_compute. exact I.
  - left.
  - discriminate.
  - left. left.
  - discriminate.
Defined.

Section MapSetFacts.
Import Renderer.
Context {K V : Type} `{EqDecision K}.
Implicit Types (m : list (K * V)) (k : K) (v : V).

Lemma map_set_fresh m k v : k ∉ m.*1 -> map_set m k v = m ++ [(k, v)].
Proof.
  induction m as [|[k' v'] m IH]; simpl; intros Hout; [reflexivity|].
  csimpl in Hout. apply not_elem_of_cons in Hout as [Hne Hout].
  destruct (decide (k' = k)); [congruence|]. now rewrite IH.
Qed.

Lemma map_set_keys_present m k v : k ∈ m.*1 -> (map_set m k v).*1 = m.*1.
Proof.
  induction m as [|[k' v'] m IH]; simpl; intros Hin; [inversion Hin|].
  destruct (decide (k' = k)) as [->|Hne]; [reflexivity|].
  csimpl in *. apply elem_of_cons in Hin as [?|Hin]; [congruence|].
  now rewrite IH.
Qed.

Lemma map_set_NoDup m k v : NoDup m.*1 -> NoDup (map_set m k v).*1.
Proof.
  intros Hnd. destruct (decide (k ∈ m.*1)) as [Hin|Hout].
  - now rewrite map_set_keys_present.
  - rewrite map_set_fresh by assumption. rewrite fmap_app.
    apply NoDup_app. repeat split; [assumption| |apply NoDup_singleton].
    intros x Hx [->|Hx']%elem_of_cons; [contradiction|inversion Hx'].
Qed.

Lemma map_set_elem_of m k v k' v' :
  NoDup m.*1 ->
  (k', v') ∈ map_set m k v
  <-> (k' = k /\ v' = v) \/ (k' <> k /\ (k', v') ∈ m).
Proof.
  induction m as [|[k0 v0] m IH]; simpl; intros Hnd.
  - rewrite list_elem_of_singleton. split.
    + intros E. injection E as -> ->. now left.
    + intros [[-> ->]|[_ E]]; [reflexivity|inversion E].
  - csimpl in Hnd. apply NoDup_cons in Hnd as [Hk0 Hnd].
    destruct (decide (k0 = k)) as [->|Hne].
    + rewrite !elem_of_cons. split.
      * intros [E|E]; [injection E as -> ->; now left|].
        right. split; [|now right]. intros ->. apply Hk0.
        apply list_elem_of_fmap. now exists (k, v').
      * intros [[-> ->]|[Hne [E|E]]]; [now left| |now right].
        injection E as -> _. congruence.
    + rewrite elem_of_cons, (IH Hnd), elem_of_cons. split.
      * intros [E|[?|[? ?]]]; [|now left|right; split; [assumption|now right]].
        injection E as -> ->. right. split; [assumption|now left].
      * intros [?|[? [E|E]]]; [right; now left|now left|right; right; auto].
Qed.

Lemma map_set_keys_elem_of m k v k' :
  k' ∈ (map_set m k v).*1 <-> k' = k \/ k' ∈ m.*1.
Proof.
  destruct (decide (k ∈ m.*1)) as [Hin|Hout].
  - rewrite map_set_keys_present by assumption. split; [now right|].
    intros [->|?]; assumption.
  - rewrite map_set_fresh by assumption. rewrite fmap_app, elem_of_app.
    csimpl. rewrite list_elem_of_singleton. tauto.
Qed.

(** A map built by a sequence of set calls: its keys are distinct, they
    are the keys that were set, and the value of a key is the one set
    last. *)
Lemma fold_map_set (entries : list (K * V)) m :
  NoDup m.*1 ->
  let m' := fold_left (fun m0 kv => map_set m0 kv.1 kv.2) entries m in
  NoDup m'.*1
  /\ (forall k, k ∈ m'.*1 <-> k ∈ m.*1 \/ k ∈ entries.*1)
  /\ (forall k v, (k, v) ∈ m' -> (k, v) ∈ m \/ (k, v) ∈ entries)
  /\ (forall e1 e2 k v,
        entries = e1 ++ (k, v) :: e2 -> k ∉ e2.*1 -> (k, v) ∈ m').
Proof.
  intros Hnd. induction entries as [|[k0 v0] entries IH] using rev_ind; simpl.
  - repeat split; try assumption.
    + now left.
    + intros [?|E]; [assumption|inversion E].
    + now left.
    + intros e1 e2 k v E. destruct e1; discriminate.
  - rewrite fold_left_app. simpl. destruct IH as (H1 & H2 & H3 & H4).
    split; [now apply map_set_NoDup|]. split; [|split].
    + intros k. rewrite map_set_keys_elem_of, H2, fmap_app, elem_of_app.
      csimpl. rewrite list_elem_of_singleton. tauto.
    + intros k v Hin.
      apply (map_set_elem_of _ _ _ _ _ H1) in Hin as [[-> ->]|[_ Hin]].
      * right. apply elem_of_app. right. left.
      * apply H3 in Hin as [Hin|Hin]; [now left|right].
        apply elem_of_app. now left.
    + intros e1 e2 k v E Hout. apply map_set_elem_of; [assumption|].
      revert E Hout. induction e2 as [|[k1 v1] e2 _] using rev_ind; intros E Hout.
      * apply (app_inj_tail entries e1) in E as [_ E]. injection E as -> ->.
        now left.
      * rewrite app_comm_cons, app_assoc in E.
        apply app_inj_tail in E as [E E']. injection E' as -> ->.
        rewrite fmap_app in Hout. apply not_elem_of_app in Hout as [Hout Hne].
        right. split.
        -- intros ->. apply Hne. left.
        -- eapply H4; [exact E|exact Hout].
Qed.

End MapSetFacts.

Section MergeFacts.
Import Renderer.

Lemma mergeBatch_fold (prevFiles batch : list Classifier.analyzed) :
  mergeBatch prevFiles batch
  = (fold_left (fun m kv => map_set m kv.1 kv.2)
       ((fun file => (path file, file)) <$> prevFiles ++ batch) []).*2.
Proof.
  assert (G : forall m0 : list (string * Classifier.analyzed),
             fold_left (fun m file => map_set m (path file) file) batch m0
             = fold_left (fun m kv => map_set m kv.1 kv.2)
                 ((fun file => (path file, file)) <$> batch) m0).
  { induction batch as [|file batch IH]; intros m0; simpl; [reflexivity|].
    apply IH. }
  unfold mergeBatch, newMap. rewrite G, fmap_app, fold_left_app. reflexivity.
Qed.

(** The keys of the map are the paths of its values. *)
Lemma merged_keys (files : list Classifier.analyzed) :
  let m := fold_left (fun m kv => map_set m kv.1 kv.2)
             ((fun file => (path file, file)) <$> files) [] in
  path <$> m.*2 = m.*1.
Proof.
  intros m.
  assert (H : Forall (fun kv => path kv.2 = kv.1) m).
  { apply Forall_forall. intros [k v] Hin.
    apply (fold_map_set _ []) in Hin as [Hin|Hin]; [inversion Hin| |constructor].
    apply list_elem_of_fmap in Hin as (file & E & _). now injection E as -> ->. }
  induction H as [|[k v] m0 Hkv _ IH]; csimpl; [reflexivity|].
  simpl in Hkv. now rewrite Hkv, IH.
Qed.

Lemma mergeBatch_spec :
  forall (prevFiles batch : list Classifier.analyzed),
    NoDup (path <$> mergeBatch prevFiles batch)
    /\ (forall p,
          p ∈ path <$> mergeBatch prevFiles batch
          <-> p ∈ path <$> prevFiles \/ p ∈ path <$> batch)
    /\ (NoDup (path <$> batch) ->
        forall file, file ∈ batch -> file ∈ mergeBatch prevFiles batch)
    /\ (NoDup (path <$> prevFiles ++ batch) ->
        mergeBatch prevFiles batch = prevFiles ++ batch).
Proof.
  intros prevFiles batch. rewrite mergeBatch_fold, merged_keys.
  destruct (fold_map_set ((fun file => (path file, file)) <$> prevFiles ++ batch)
              [] (NoDup_nil_2)) as (H1 & H2 & H3 & H4).
  split; [exact H1|]. split; [|split].
  - intros p. rewrite H2, <- list_fmap_compose, fmap_app, elem_of_app.
    split; [intros [E|?]; [inversion E|assumption]|now right].
  - intros Hnd file Hin.
    apply list_elem_of_split in Hin as (b1 & b2 & ->).
    apply list_elem_of_fmap. exists (path file, file). split; [reflexivity|].
    eapply (H4 ((fun file => (path file, file)) <$> prevFiles ++ b1)
              ((fun file => (path file, file)) <$> b2)).
    + rewrite !fmap_app, <- app_assoc. reflexivity.
    + rewrite <- list_fmap_compose. rewrite fmap_app in Hnd.
      apply NoDup_app in Hnd as (_ & _ & Hnd). csimpl in Hnd.
      now apply NoDup_cons in Hnd as [Hout _].
  - intros Hnd.
    assert (G : forall (files : list Classifier.analyzed) m,
               NoDup (m.*1 ++ (path <$> files)) ->
               fold_left (fun m kv => map_set m kv.1 kv.2)
                 ((fun file => (path file, file)) <$> files) m
               = m ++ ((fun file => (path file, file)) <$> files)).
    { clear. induction files as [|file files IH]; intros m Hnd; simpl.
      - now rewrite app_nil_r.
      - csimpl in Hnd. rewrite map_set_fresh.
        + rewrite IH.
          * now rewrite <- app_assoc.
          * rewrite fmap_app. csimpl. rewrite <- app_assoc. exact Hnd.
        + apply NoDup_app in Hnd as (_ & Hd & _). intros Hin.
          apply (Hd _ Hin). left. }
    rewrite G by exact Hnd. simpl. rewrite <- list_fmap_compose.
    apply list_fmap_id.
Qed.

(** Merging a batch into the file list of the renderer: the paths of the
    result are distinct, they are the paths of the list and of the batch,
    and every file of a batch whose paths are distinct is in the result
    (it replaces a file of the list with the same path). When no path
    occurs twice among the list and the batch, the result is the list
    followed by the batch. *)
Theorem mergeBatch_paths :
  forall (prevFiles batch : list Classifier.analyzed),
    NoDup (path <$> mergeBatch prevFiles batch)
    /\ (forall p,
          p ∈ path <$> mergeBatch prevFiles batch
          <-> p ∈ path <$> prevFiles \/ p ∈ path <$> batch)
    /\ (NoDup (path <$> batch) ->
        forall file, file ∈ batch -> file ∈ mergeBatch prevFiles batch)
    /\ (NoDup (path <$> prevFiles ++ batch) ->
        mergeBatch prevFiles batch = prevFiles ++ batch).
Proof. exact mergeBatch_spec. Qed.

Lemma filesAfterBatches_paths (msgs : list Scanner.message) :
  NoDup (path <$> filesAfterBatches msgs)
  /\ forall p, p ∈ path <$> filesAfterBatches msgs
               <-> p ∈ f_path <$> Scanner.batchedFiles msgs.
Proof.
  unfold filesAfterBatches.
  assert (G : forall (files : list Classifier.analyzed),
             let files' :=
               fold_left
                 (fun files m =>
                    match m with
                    | Scanner.scan_batch batch _ => mergeBatch files batch
                    | Scanner.scan_progress _ _ _ => files
                    end) msgs files in
             NoDup (path <$> files) ->
             NoDup (path <$> files')
             /\ forall p, p ∈ path <$> files'
                          <-> p ∈ path <$> files
                              \/ p ∈ f_path <$> Scanner.batchedFiles msgs).
  { induction msgs as [|m msgs IH]; intros files; simpl; intros Hnd.
    - split; [exact Hnd|]. intros p. split; [now left|].
      intros [?|E]; [assumption|inversion E].
    - destruct m as [? ? ?|batch isDone].
      + destruct (IH files Hnd) as [H1 H2]. split; [exact H1|].
        intros p. rewrite H2. unfold Scanner.batchedFiles. simpl. tauto.
      + destruct (mergeBatch_spec files batch) as (M1 & M2 & _).
        destruct (IH (mergeBatch files batch) M1) as [H1 H2].
        split; [exact H1|]. intros p. rewrite H2, M2.
        unfold Scanner.batchedFiles. simpl.
        fold (Scanner.batchedFiles msgs).
        rewrite fmap_app, elem_of_app.
        change (map Classifier.a_file batch) with (Classifier.a_file <$> batch).
        rewrite <- list_fmap_compose. tauto. }
  destruct (G [] (NoDup_nil_2)) as [H1 H2]. split; [exact H1|].
  intros p. rewrite H2. split; [|now right].
  intros [E|?]; [inversion E|assumption].
Qed.

End MergeFacts.

Section RendererScan.
Import Scanner Renderer.
Context {P : PathLib} {F : FileSystem}.
Variable clock : nat -> Z.

(** The file list handleScan leaves after a scan with a window.  When the
    list it captured was empty (a first scan of a directory) and the
    handler returns a non-empty array, the list is that array alone: the
    files of every batch the scan split off on its way are in the list no
    longer, and the files found are those of these batches followed by the
    ones listed.  Otherwise the list is the one the listener merged from
    the batches: it names no path twice, and it names exactly the paths of
    the files the handler returns when there is no window. *)
Theorem handleScan_file_list :
  forall (files : list Classifier.analyzed) (directoryPath : string)
         (sc : scanConfig),
    let result := scanDirectoryHandler true clock directoryPath sc in
    let found := r_data (scanDirectoryHandler false clock directoryPath sc) in
    let cfg := makeConfig sc in
    let walk :=
      scanDirectory true clock directoryPath
        (Some {| totalFiles := countFiles directoryPath (maxDepth cfg);
                 processedFiles := 0 |}) cfg in
    let shown := handleScan files result in
    (files = [] -> r_data result <> [] ->
     shown = r_data result
     /\ path <$> found
        = (f_path <$> batchedFiles (sent walk)) ++ (path <$> shown))
    /\ (files <> [] \/ r_data result = [] ->
        NoDup (path <$> shown)
        /\ forall p, p ∈ path <$> shown <-> p ∈ path <$> found).
Proof.
  intros files directoryPath sc result found cfg walk shown.
  assert (Hmerged :
            NoDup (path <$> filesAfterBatches (r_sent result))
            /\ forall p, p ∈ path <$> filesAfterBatches (r_sent result)
                         <-> p ∈ path <$> found).
  { destruct (filesAfterBatches_paths (r_sent result)) as [H1 H2].
    split; [exact H1|]. intros p. subst result found.
    rewrite H2, handler_batches. now rewrite <- list_fmap_compose. }
  split.
  - intros -> Hdata.
    assert (E : shown = r_data result).
    { subst shown. unfold handleScan.
      change (r_success result) with true. cbn [negb length Nat.eqb andb].
      destruct (r_data result); [contradiction|reflexivity]. }
    split; [exact E|]. rewrite E. subst found result.
    unfold scanDirectoryHandler. cbn [r_data]. fold cfg.
    destruct (scanDirectory_sameWalk clock directoryPath
                (Some {| totalFiles := countFiles directoryPath (maxDepth cfg);
                         processedFiles := 0 |}) cfg)
      as (_ & _ & _ & _ & _ & Hf).
    fold walk in Hf.
    assert (Hp : forall l : list Classifier.analyzed,
               path <$> l = f_path <$> (Classifier.a_file <$> l))
      by (intros l; now rewrite <- list_fmap_compose).
    rewrite !Hp.
    unfold Classifier.analyzeFiles.
    rewrite !(analyzeFiles_files clock _ cfg 0).
    rewrite <- Hf. now rewrite fmap_app.
  - intros Hcase.
    assert (E : shown = filesAfterBatches (r_sent result)).
    { subst shown. unfold handleScan.
      change (r_success result) with true. cbn [negb].
      destruct Hcase as [Hfiles|Hdata].
      - destruct files; [contradiction|reflexivity].
      - rewrite Hdata. cbn [length Nat.eqb negb]. now rewrite andb_false_r. }
    rewrite E. exact Hmerged.
Qed.

End RendererScan.

(** The theorem at work: a first scan of a directory with a sub-directory
    and 500 files, then one file in the sub-directory.  The scan finds 501
    files; the list names the one file that was found after the batch of
    500 had been sent. *)
Lemma handleScan_file_list_witness :
  let clock := fun _ : nat => 0 in
  let result :=
    Scanner.scanDirectoryHandler (P := Sample.posix) (F := Examples.crowded)
      true clock "/t" Sample.no_settings in
  Renderer.path <$> Renderer.handleScan [] result = ["/t/d/x"]%string
  /\ length (Scanner.r_data
               (Scanner.scanDirectoryHandler (P := Sample.posix)
                  (F := Examples.crowded) false clock "/t" Sample.no_settings))
     = 501%nat.
Proof.
  intros clock result.
  pose proof (handleScan_file_list (P := Sample.posix) (F := Examples.crowded)
                clock [] "/t" Sample.no_settings) as H.
  cbv zeta in H. destruct H as [H _].
  destruct H as [H _]; [reflexivity|vm_compute; discriminate|].
  split.
  - subst result. rewrite H. vm_compute. reflexivity.
  - vm_compute. reflexivity.
Defined.

Section DeleteViewFacts.
Import Store Renderer.
Context {P : PathLib} {L : Platform}.
Variable W : world.

Lemma filesAfterDelete_all_kept (prev : list Classifier.analyzed)
    (filePaths : list string) (data : list deleteOutcome) :
  map do_path data = filePaths ->
  filesAfterDelete do_path outcome_success prev filePaths data = prev.
Proof.
  intros Hmap. unfold filesAfterDelete.
  induction prev as [|file prev IH]; [reflexivity|].
  cbn [List.filter]. rewrite IH.
  destruct (JS.array_includes filePaths (path file)) eqn:Hin; simpl;
    [|reflexivity].
  destruct (find _ data) as [r|] eqn:Hfind; [reflexivity|].
  exfalso. unfold JS.array_includes in Hin.
  apply existsb_exists in Hin as (p & Hp & Heq).
  apply String.eqb_eq in Heq. subst p. rewrite <- Hmap in Hp.
  apply in_map_iff in Hp as (r & Hr & Hin).
  apply (find_none _ _ Hfind) in Hin. unfold outcome_success in Hin.
  simpl in Hin. rewrite Hr, String.eqb_refl in Hin. discriminate.
Qed.

Lemma filter_const_false {A} (l : list A) (b : A -> bool) :
  (forall x, b x = false) ->
  filter (fun r => b r = true) l = [] /\ filter (fun r => b r = false) l = l.
Proof.
  intros Hb. induction l as [|x l [IH1 IH2]]; [split; reflexivity|].
  rewrite !filter_cons. rewrite IH1, IH2.
  destruct (decide (b x = true)) as [E|E]; [rewrite Hb in E; discriminate|].
  destruct (decide (b x = false)) as [E'|E']; [split; reflexivity|].
  now rewrite Hb in E'.
Qed.

(** The renderer never removes a file from its list after a deletion. It
    looks for a property named success on the outcomes of the handler,
    which carry deleted instead: when every file was deleted it keeps them
    all in the list and counts 0 deleted and all failed; when some file
    was not deleted it does nothing at all. *)
Theorem handleDeleteFiles_keeps_deleted_files :
  forall (prev : list Classifier.analyzed) (filePaths : list string)
         (h : list event),
    exists t result,
      deleteFiles W (array filePaths) h = (t, ok result)
      /\ handleDeleteFiles prev filePaths result
         = (prev,
            if dr_success result then Some (0%nat, length filePaths) else None).
Proof.
  intros prev filePaths h.
  destruct filePaths as [|p rest].
  { eexists _, _. split; reflexivity. }
  destruct (mapM_deleteOne W (p :: rest) h) as (t & results & E & Hmap & _).
  exists t, {| dr_success := forallb do_deleted results; dr_data := results;
               dr_error := None |}.
  split.
  { unfold deleteFiles, mbind, io_bind, bind, mret, io_ret, ret.
    rewrite E. now rewrite app_nil_r. }
  unfold handleDeleteFiles. simpl dr_success. simpl dr_data.
  destruct (forallb do_deleted results); [|reflexivity].
  rewrite (filesAfterDelete_all_kept _ _ _ Hmap).
  unfold successCount, failCount.
  destruct (filter_const_false results outcome_success (fun _ => eq_refl))
    as [-> ->].
  rewrite <- Hmap, length_map. reflexivity.
Qed.

End DeleteViewFacts.
